(** * Messaging automation bot (bot.py): calendar store, digest, console, demo

    A shallow embedding of [bot.py] and the properties of its
    specification.  The development follows the layout of the source:

    - [datetime] / [timedelta]: the part of Python's [datetime] module the
      program uses (field replacement, addition of a duration, ordering);
    - [MockCalendar]: the in-memory event store and its four methods;
    - the bot logic ([format_event], [daily_digest], [realtime_alert],
      [run_demo], [interactive_console]) as programs of a state-and-error
      monad over the process state (the store and the standard output).

    Modelling conventions.

    - Every timestamp of the program is built as
      [datetime.now(PACIFIC).replace(tzinfo=PACIFIC)] or derived from such
      a value; all of them carry the same constant UTC offset, so Python
      orders them by their wall-clock fields.  A [datetime] is therefore
      the tuple of its wall-clock fields, the calendar date being kept as
      its proleptic ordinal ([date.toordinal()]).  The range check of the
      date (years 1..9999, [OverflowError]) is not modelled.
    - Events keep their timestamps as ISO strings and read them back with
      [datetime.fromisoformat]; that pair is the identity on the
      timestamps above, and the record [Event] holds the timestamp itself.
    - The environment is explicit: a call of [datetime.now] is an argument
      [now]; a call of [random.randint] or [random.choice] is a raw draw
      [r] that the function reduces to the requested range; [time.time] is
      a virtual clock in the process state which [time.sleep] advances.
    - The two background threads of interactive mode are not modelled;
      every operation is described as it runs on its own.
    - Integers are unbounded and [str] of an integer is total: the limit
      CPython puts from 3.11 on on the number of digits of a converted
      integer (4300 by default, [ValueError] beyond) is not modelled.
    - A line of the console is ASCII text: [strip] removes the ASCII
      white space and [lower] maps the ASCII capitals. *)

From Stdlib Require Import ZArith QArith Qabs Qpower Lqa Lia Bool.
From Stdlib Require Import Ascii String DecimalString Decimal DecimalZ DecimalNat.
From Stdlib Require Import SpecFloat.
From stdpp Require Import base tactics option list.

Local Open Scope string_scope.
Local Open Scope Z_scope.
Local Open Scope list_scope.

(* ===================================================================== *)
(** * Python's [datetime] and [timedelta]                                  *)
(* ===================================================================== *)

(** A wall-clock timestamp: [ordinal] is [date.toordinal()], the other
    fields are the fields of the same name of a Python [datetime]. *)
Record datetime : Type := mkdatetime {
  ordinal : Z;
  hour : Z;
  minute : Z;
  second : Z;
  microsecond : Z
}.

(** The field ranges Python enforces on every [datetime] object. *)
Definition valid_datetime (d : datetime) : Prop :=
  0 <= hour d < 24 /\ 0 <= minute d < 60 /\ 0 <= second d < 60 /\
  0 <= microsecond d < 1000000.

(** A [timedelta] is kept as its total number of microseconds (Python
    normalises days, seconds and microseconds of the same total). *)
Definition timedelta : Type := Z.

Definition US_PER_SECOND : Z := 1000000.
Definition US_PER_MINUTE : Z := 60 * US_PER_SECOND.
Definition US_PER_HOUR : Z := 60 * US_PER_MINUTE.
Definition US_PER_DAY : Z := 24 * US_PER_HOUR.

(** [timedelta(days=d, hours=h, seconds=s)]. *)
Definition mk_timedelta (days hours seconds : Z) : timedelta :=
  days * US_PER_DAY + hours * US_PER_HOUR + seconds * US_PER_SECOND.

(** [datetime.__add__] first turns the timestamp into a duration since
    ordinal 0, adds, and splits the sum again with [divmod]. *)
Definition to_microseconds (d : datetime) : Z :=
  ordinal d * US_PER_DAY + hour d * US_PER_HOUR + minute d * US_PER_MINUTE
  + second d * US_PER_SECOND + microsecond d.

Definition of_microseconds (t : Z) : datetime :=
  {| ordinal := t / US_PER_DAY;
     hour := (t mod US_PER_DAY) / US_PER_HOUR;
     minute := (t mod US_PER_HOUR) / US_PER_MINUTE;
     second := (t mod US_PER_MINUTE) / US_PER_SECOND;
     microsecond := t mod US_PER_SECOND |}.

Definition dt_add (d : datetime) (td : timedelta) : datetime :=
  of_microseconds (to_microseconds d + td).

Definition dt_sub (d : datetime) (td : timedelta) : datetime :=
  of_microseconds (to_microseconds d - td).

(** [a - b] on two timestamps: the duration between them. *)
Definition dt_diff (a b : datetime) : timedelta :=
  to_microseconds a - to_microseconds b.

(** [d.replace(hour=h, minute=m, second=s, microsecond=us)]. *)
Definition replace_time (d : datetime) (h m s us : Z) : datetime :=
  {| ordinal := ordinal d; hour := h; minute := m; second := s;
     microsecond := us |}.

(** Ordering: Python compares the field tuples lexicographically. *)
Definition lex (c1 c2 : comparison) : comparison :=
  match c1 with Eq => c2 | _ => c1 end.

Definition dt_compare (a b : datetime) : comparison :=
  lex (ordinal a ?= ordinal b)
   (lex (hour a ?= hour b)
     (lex (minute a ?= minute b)
       (lex (second a ?= second b) (microsecond a ?= microsecond b)))).

Definition dt_leb (a b : datetime) : bool :=
  match dt_compare a b with Gt => false | _ => true end.

Definition dt_ltb (a b : datetime) : bool :=
  match dt_compare a b with Lt => true | _ => false end.

Definition dt_le (a b : datetime) : Prop := dt_leb a b = true.
Definition dt_lt (a b : datetime) : Prop := dt_ltb a b = true.

Declare Scope dt_scope.
Delimit Scope dt_scope with dt.
Infix "<=" := dt_le : dt_scope.
Infix "<" := dt_lt : dt_scope.

(* ===================================================================== *)
(** * Strings and random draws                                            *)
(* ===================================================================== *)


(** [str(n)] for a non-negative integer and for any integer. *)
Definition str_nat (n : nat) : string := NilEmpty.string_of_uint (Nat.to_uint n).
Definition str_int (z : Z) : string := NilZero.string_of_int (Z.to_int z).

(** [random.randint(a, b)]: the raw draw [r] is reduced to [a..b]. *)
Definition randint (a b : Z) (r : Z) : Z := a + r mod (b - a + 1).

(** [random.choice(seq)] picks the position [r mod len(seq)]; on an empty
    sequence Python raises [IndexError], here [None]. *)
Definition choice {A : Type} (seq : list A) (r : nat) : option (nat * A) :=
  let i := (r mod List.length seq)%nat in
  match seq !! i with
  | Some x => Some (i, x)
  | None => None
  end.

(* ===================================================================== *)
(** * The mock calendar store                                             *)
(* ===================================================================== *)

(** One event dictionary.  The keys are fixed by the two places that build
    events; [kpi_estimate] is optional because the program reads it with
    [e.get("kpi_estimate", default)]. *)
Record Event : Type := mkEvent {
  evt_id : string;
  summary : string;
  start : datetime;
  end_ : datetime;
  updated : datetime;
  kpi_estimate : option Z
}.

(** [e.get("kpi_estimate", dflt)]. *)
Definition get_kpi_estimate (e : Event) (dflt : Z) : Z :=
  match kpi_estimate e with Some k => k | None => dflt end.

(** [e["updated"] = v] and [e["kpi_estimate"] = v]. *)
Definition set_updated (v : datetime) (e : Event) : Event :=
  {| evt_id := evt_id e; summary := summary e; start := start e;
     end_ := end_ e; updated := v; kpi_estimate := kpi_estimate e |}.

Definition set_kpi_estimate (v : Z) (e : Event) : Event :=
  {| evt_id := evt_id e; summary := summary e; start := start e;
     end_ := end_ e; updated := updated e; kpi_estimate := Some v |}.

Module MockCalendar.

(** [self.events]: the list of the event dictionaries. *)
Abbreviation store := (list Event).

(** The dictionary built by one round of the loop of [_seed_events]. *)
Definition seed_event (now : datetime) (i : nat) (r : Z) : Event :=
  let start := replace_time (dt_add now (mk_timedelta (Z.of_nat i - 1) 0 0)) 9 0 0 0 in
  let end_ := dt_add start (mk_timedelta 0 1 0) in
  {| evt_id := ("evt-" ++ str_nat i)%string;
     summary := ("Mock Event " ++ str_nat i)%string;
     start := start;
     end_ := end_;
     updated := dt_sub start (mk_timedelta 0 1 0);
     kpi_estimate := Some (randint 10 200 r) |}.

(** [for i in range(1, 11): self.events.append({...})]; [rnd i] is the raw
    draw of round [i]. *)
Definition _seed_events (now : datetime) (rnd : nat -> Z) (events : store) : store :=
  fold_left (fun evs i => evs ++ [seed_event now i (rnd i)]) (seq 1 10) events.

(** [__init__]. *)
Definition init (now : datetime) (rnd : nat -> Z) : store :=
  _seed_events now rnd [].

(** The loop of [list_events], with its accumulator [out]. *)
Fixpoint list_events_loop (start_date end_date : datetime)
         (events : store) (out : list Event) : list Event :=
  match events with
  | [] => out
  | e :: rest =>
      let s := start e in
      if dt_leb start_date s && dt_leb s end_date
      then list_events_loop start_date end_date rest (out ++ [e])
      else list_events_loop start_date end_date rest out
  end.

Definition list_events (start_date end_date : datetime) (events : store) : list Event :=
  list_events_loop start_date end_date events [].

(** [simulate_new_event]: returns the new dictionary and the store after
    the call. *)
Definition simulate_new_event (now : datetime) (r_days r_kpi : Z)
           (events : store) : Event * store :=
  let i := (List.length events + 1)%nat in
  let start := replace_time (dt_add now (mk_timedelta (randint 0 5 r_days) 0 0)) 10 0 0 0 in
  let end_ := dt_add start (mk_timedelta 0 1 0) in
  let evt :=
    {| evt_id := ("evt-" ++ str_nat i)%string;
       summary := ("Simulated Event " ++ str_nat i)%string;
       start := start;
       end_ := end_;
       updated := now;
       kpi_estimate := Some (randint 5 300 r_kpi) |} in
  (evt, events ++ [evt]).

(** [simulate_update_event]: [None] on an empty store; otherwise the
    chosen dictionary is changed in place, which is the replacement of
    position [i] of the store, and returned.  The last branch cannot be
    reached: [random.choice] of a non-empty list returns a member. *)
Definition simulate_update_event (now : datetime) (r_choice : nat) (r_bump : Z)
           (events : store) : option Event * store :=
  match events with
  | [] => (None, events)
  | _ :: _ =>
      match choice events r_choice with
      | Some (i, e) =>
          let e1 := set_updated now e in
          let e2 := set_kpi_estimate (get_kpi_estimate e1 10 + randint 1 50 r_bump) e1 in
          (Some e2, <[i := e2]> events)
      | None => (None, events)
      end
  end.

End MockCalendar.


(* ===================================================================== *)
(** * Python numbers: true division and the [.1f] format                  *)
(* ===================================================================== *)

(** Python floats are IEEE binary64 numbers. *)
Definition prec : Z := 53.
Definition emax : Z := 1024.
Definition float : Type := spec_float.

(** The exceptions the modelled code can raise. *)
Inductive exn : Type :=
| ZeroDivisionError
| OverflowError.

(** [a / b] on two integers: the quotient of the exact integers, rounded
    once to the nearest binary64 (ties to even). *)
Definition int_truediv (a b : Z) : exn + float :=
  if b =? 0 then inl ZeroDivisionError
  else if a =? 0 then inr (S754_zero (b <? 0))
  else
    let '(mz, ez, lz) := SFdiv_core_binary prec emax (Z.abs a) 0 (Z.abs b) 0 in
    match binary_round_aux prec emax (xorb (a <? 0) (b <? 0)) mz ez lz with
    | S754_infinity _ => inl OverflowError
    | q => inr q
    end.

(** [float(z)]. *)
Definition float_of_int (z : Z) : exn + float :=
  match binary_normalize prec emax z 0 false with
  | S754_infinity _ => inl OverflowError
  | x => inr x
  end.

(** The number of tenths nearest to [m * 2^e], ties to even: the digits
    that the correctly rounded [.1f] conversion prints. *)
Definition round_tenths (m : positive) (e : Z) : Z :=
  let n := 10 * Z.pos m in
  match e with
  | Z.neg p =>
      let d := 2 ^ Z.pos p in
      let q := n / d in
      let r := n mod d in
      match 2 * r ?= d with
      | Lt => q
      | Gt => q + 1
      | Eq => if Z.even q then q else q + 1
      end
  | _ => n * 2 ^ e
  end.

(** [format(x, ".1f")] for a float. *)
Definition format_1f (x : float) : string :=
  match x with
  | S754_nan => "nan"
  | S754_infinity s => if s then "-inf" else "inf"
  | S754_zero s => if s then "-0.0" else "0.0"
  | S754_finite s m e =>
      let n := round_tenths m e in
      ((if s then "-" else EmptyString) ++ str_int (n / 10) ++ "." ++ str_int (n mod 10))%string
  end.

(** The two kinds of value [avg_kpi] can hold. *)
Inductive pynum : Type :=
| PyInt (z : Z)
| PyFloat (x : float).

(** [f"{v:.1f}"]: an integer is converted with [float] first. *)
Definition format_num_1f (v : pynum) : exn + string :=
  match v with
  | PyFloat x => inr (format_1f x)
  | PyInt z =>
      match float_of_int z with
      | inl e => inl e
      | inr x => inr (format_1f x)
      end
  end.

(** ** The numbers the floats stand for

    The rational number of a binary64 value, used to relate the result
    of a division to the exact quotient. *)

(** [2 ^ e] as a rational, for any integer exponent. *)
Definition pow2 (e : Z) : Q := (2 ^ e)%Q.

(** The value of a zero or finite float ([m * 2 ^ e] with its sign). *)
Definition float_value (x : float) : Q :=
  match x with
  | S754_finite s m e => ((if s then -1 else 1) * (inject_Z (Z.pos m) * pow2 e))%Q
  | _ => 0%Q
  end.

(** Half the distance between a finite float [m * 2 ^ e] and the next
    multiple of [2 ^ e]; around zero the floats are [2 ^ -1074] apart. *)
Definition half_ulp (x : float) : Q :=
  match x with
  | S754_finite _ _ e => pow2 (e - 1)
  | _ => pow2 (-1075)
  end.

(** [N / D] lies at the place [l] of the interval [m, m + 1]: on [m],
    below, at or above its middle. *)
Definition inbetween_Z (m : Z) (l : location) (N D : Z) : Prop :=
  match l with
  | loc_Exact => N = m * D
  | loc_Inexact Lt => 2 * m * D < 2 * N < (2 * m + 1) * D
  | loc_Inexact Eq => 2 * N = (2 * m + 1) * D
  | loc_Inexact Gt => (2 * m + 1) * D < 2 * N < (2 * m + 2) * D
  end.

(* ===================================================================== *)
(** * The process state and its monad                                     *)
(* ===================================================================== *)

(** The state of the running program: the module-level calendar [cal],
    what has been written to the standard output (one string per write),
    and the virtual clock read by [time.time]. *)
Record World : Type := mkWorld {
  cal : MockCalendar.store;
  stdout : list string;
  clock : Q
}.

(** The outcome of a computation: a value, a Python exception, or
    [Starved] when the supplied environment ended before the program. *)
Inductive result (A : Type) : Type :=
| Ok (a : A)
| Raise (e : exn)
| Starved.
Arguments Ok {A} a.
Arguments Raise {A} e.
Arguments Starved {A}.

Definition M (A : Type) : Type := World -> result A * World.

Definition ret {A : Type} (a : A) : M A := fun w => (Ok a, w).

Definition bind {A B : Type} (m : M A) (k : A -> M B) : M B :=
  fun w =>
    match m w with
    | (Ok a, w') => k a w'
    | (Raise e, w') => (Raise e, w')
    | (Starved, w') => (Starved, w')
    end.

Definition raise {A : Type} (e : exn) : M A := fun w => (Raise e, w).

Definition starve {A : Type} : M A := fun w => (Starved, w).

Notation "x <- m ;; k" := (bind m (fun x => k))
  (at level 100, m at next level, right associativity).
Notation "m ;; k" := (bind m (fun _ => k))
  (at level 100, right associativity).

(** An expression that can raise, run as a statement. *)
Definition lift_exn {A : Type} (v : exn + A) : M A :=
  match v with
  | inl e => raise e
  | inr a => ret a
  end.

Definition nl : string := String (ascii_of_nat 10) EmptyString.
Definition dquote : string := String (ascii_of_nat 34) EmptyString.

(** [sys.stdout.write(s)] and [print(s)]. *)
Definition write (s : string) : M unit :=
  fun w => (Ok tt, {| cal := cal w; stdout := stdout w ++ [s]; clock := clock w |}).

(** What [print(s)] writes: [s] and a newline. *)
Definition line (s : string) : string := (s ++ nl)%string.

Definition print (s : string) : M unit := write (line s).

(** A call of a method of [cal] that returns a value and a new store. *)
Definition cal_call {A : Type} (f : MockCalendar.store -> A * MockCalendar.store) : M A :=
  fun w =>
    let '(a, evs) := f (cal w) in
    (Ok a, {| cal := evs; stdout := stdout w; clock := clock w |}).

(** A call of [cal.list_events], which only reads. *)
Definition cal_list_events (start_date end_date : datetime) : M (list Event) :=
  fun w => (Ok (MockCalendar.list_events start_date end_date (cal w)), w).

(** [time.time()], and [time.sleep(secs)] returning [late] seconds late. *)
Definition time_time : M Q := fun w => (Ok (clock w), w).

Definition time_sleep (secs late : Q) : M unit :=
  fun w => (Ok tt, {| cal := cal w; stdout := stdout w;
                      clock := (clock w + (secs + late))%Q |}).

(** [for x in xs: body(x)]. *)
Fixpoint for_each {A : Type} (xs : list A) (body : A -> M unit) : M unit :=
  match xs with
  | [] => ret tt
  | x :: rest => body x ;; for_each rest body
  end.

(** [s * n] on a string. *)
Fixpoint str_mul (s : string) (n : nat) : string :=
  match n with
  | O => EmptyString
  | S k => (s ++ str_mul s k)%string
  end.

(** [sum(e.get('kpi_estimate', 0) for e in events)]. *)
Definition sum_kpi (events : list Event) : Z :=
  fold_left (fun acc e => acc + get_kpi_estimate e 0) events 0.

(** [str.strip()] and [str.lower()] on ASCII text. *)
Definition is_space (c : ascii) : bool :=
  let n := nat_of_ascii c in
  ((9 <=? n) && (n <=? 13) || (28 <=? n) && (n <=? 32))%nat.

Fixpoint lstrip (s : string) : string :=
  match s with
  | String c rest => if is_space c then lstrip rest else s
  | EmptyString => s
  end.

Fixpoint rstrip (s : string) : string :=
  match s with
  | String c rest =>
      match rstrip rest with
      | EmptyString => if is_space c then EmptyString else String c EmptyString
      | r => String c r
      end
  | EmptyString => s
  end.

Definition strip (s : string) : string := rstrip (lstrip s).

Definition lower_char (c : ascii) : ascii :=
  let n := nat_of_ascii c in
  if ((65 <=? n) && (n <=? 90))%nat then ascii_of_nat (n + 32) else c.

Fixpoint lower (s : string) : string :=
  match s with
  | String c rest => String (lower_char c) (lower rest)
  | EmptyString => s
  end.

(* ===================================================================== *)
(** * Bot logic                                                           *)
(* ===================================================================== *)

(** What one round of the alert loop takes from its environment. *)
Record round_env : Type := mkRound {
  env_uniform : Q;          (* the value of [random.uniform(2, 6)] *)
  env_late : Q;             (* how late [time.sleep] returns *)
  env_coin : bool;          (* the value of [random.random() < 0.6] *)
  env_now : datetime;       (* [datetime.now] inside the store method *)
  env_r_days : Z;           (* raw draws of [simulate_new_event] *)
  env_r_kpi : Z;
  env_r_choice : nat;       (* raw draws of [simulate_update_event] *)
  env_r_bump : Z;
  env_alert_now : datetime  (* [datetime.now] inside [realtime_alert] *)
}.

(** One line typed at the prompt, and the time at which its command runs. *)
Record console_input : Type := mkInput {
  in_line : string;
  in_now : datetime
}.

(** How the body of a [while True] loop ends. *)
Inductive loop_ctl : Type :=
| Continue
| Break.

Definition Qltb (x y : Q) : bool := negb (Qle_bool y x).

Section BotLogic.

(** Library and configuration values that the program only prints:
    [d.strftime(fmt)], [d.astimezone(PACIFIC)], [str(d.date())] and
    [CONFIG.get('pinned_header')]. *)
Variable strftime : datetime -> string -> string.
Variable astimezone : datetime -> datetime.
Variable str_date : datetime -> string.
Variable pinned_header : option string.

Definition format_event (e : Event) : string :=
  let s := astimezone (start e) in
  ("- " ++ summary e ++ " (" ++ strftime s "%Y-%m-%d %H:%M" ++ ") — KPI est: "
   ++ match kpi_estimate e with Some k => str_int k | None => "N/A" end)%string.

Definition daily_digest (now : datetime) : M unit :=
  let start := replace_time now 0 0 0 0 in
  let end_ := dt_add start (mk_timedelta 1 0 (-1)) in
  events <- cal_list_events start end_ ;;
  print (nl ++ str_mul "=" 40)%string ;;
  print ("DAILY DIGEST — " ++ strftime now "%Y-%m-%d (%Z) %H:%M")%string ;;
  match events with
  | _ :: _ => for_each events (fun e => print (format_event e))
  | [] => print "No events scheduled for today."
  end ;;
  print (str_mul "=" 40 ++ nl)%string.

Definition realtime_alert (now : datetime) (evt : Event) (action : string) : M unit :=
  print (nl ++ str_mul "!" 10)%string ;;
  print ("REAL-TIME ALERT — event " ++ action ++ " at "
         ++ strftime now "%Y-%m-%d %H:%M:%S %Z")%string ;;
  print (format_event evt) ;;
  print (str_mul "!" 10 ++ nl)%string.

(** The body of the [while] loop of [run_demo]. *)
Definition demo_round (env : round_env) : M unit :=
  time_sleep (env_uniform env) (env_late env) ;;
  if env_coin env then
    evt <- cal_call (MockCalendar.simulate_new_event
                       (env_now env) (env_r_days env) (env_r_kpi env)) ;;
    realtime_alert (env_alert_now env) evt "created"
  else
    evt <- cal_call (MockCalendar.simulate_update_event
                       (env_now env) (env_r_choice env) (env_r_bump env)) ;;
    match evt with
    | Some e => realtime_alert (env_alert_now env) e "updated"
    | None => ret tt
    end.

(** [while time.time() - start < duration: ...]; one element of [envs]
    is used by each round. *)
Fixpoint demo_loop (start : Q) (duration : Z) (envs : list round_env) : M unit :=
  t <- time_time ;;
  if Qltb (t - start) (inject_Z duration) then
    match envs with
    | env :: rest => demo_round env ;; demo_loop start duration rest
    | [] => starve
    end
  else ret tt.

Definition run_demo (duration : Z) (digest_now : datetime)
           (envs : list round_env) : M unit :=
  print ("Starting demo run (will run for approx " ++ str_int duration
         ++ " seconds)...")%string ;;
  daily_digest digest_now ;;
  start <- time_time ;;
  demo_loop start duration envs ;;
  print "Demo finished. Exiting.".

(** The events the [week] and [kpi] commands look at. *)
Definition week_events (now : datetime) : M (list Event) :=
  let start := now in
  let end_ := dt_add now (mk_timedelta 7 0 0) in
  cal_list_events start end_.

Definition kpi_events (now : datetime) : M (list Event) :=
  let end_ := dt_add now (mk_timedelta 7 0 0) in
  cal_list_events now end_.

(** [total_kpi / len(events) if events else 0]. *)
Definition average_kpi (total_kpi : Z) (events : list Event) : exn + pynum :=
  match events with
  | _ :: _ =>
      match int_truediv total_kpi (Z.of_nat (List.length events)) with
      | inl e => inl e
      | inr x => inr (PyFloat x)
      end
  | [] => inr (PyInt 0)
  end.

Definition cmd_today (now : datetime) : M unit :=
  let start := replace_time now 0 0 0 0 in
  let end_ := dt_add start (mk_timedelta 1 0 (-1)) in
  events <- cal_list_events start end_ ;;
  print ("Events for today (" ++ str_date start ++ "):")%string ;;
  for_each events (fun e => print (format_event e)).

Definition cmd_week (now : datetime) : M unit :=
  events <- week_events now ;;
  print ("Events for next 7 days (" ++ str_date now ++ " — "
         ++ str_date (dt_add now (mk_timedelta 7 0 0)) ++ "):")%string ;;
  for_each events (fun e => print (format_event e)).

Definition cmd_kpi (now : datetime) : M unit :=
  events <- kpi_events now ;;
  let total_kpi := sum_kpi events in
  avg_kpi <- lift_exn (average_kpi total_kpi events) ;;
  print "KPI Summary (next 7 days):" ;;
  print ("  Events: " ++ str_nat (List.length events))%string ;;
  print ("  Total KPI est: " ++ str_int total_kpi)%string ;;
  avg_text <- lift_exn (format_num_1f avg_kpi) ;;
  print ("  Average KPI est: " ++ avg_text)%string.

(** The body of the loop of [interactive_console] after a line has been
    read, stripped and lowered. *)
Definition console_body (now : datetime) (cmd : string) : M loop_ctl :=
  if String.eqb cmd EmptyString then ret Continue
  else if String.eqb cmd "exit" || String.eqb cmd "quit" then
    print "Goodbye." ;; ret Break
  else if String.eqb cmd "help" then
    print "Commands: today, week, kpi, help, exit" ;; ret Continue
  else if String.eqb cmd "today" then cmd_today now ;; ret Continue
  else if String.eqb cmd "week" then cmd_week now ;; ret Continue
  else if String.eqb cmd "kpi" then cmd_kpi now ;; ret Continue
  else print ("Unknown command. Type " ++ dquote ++ "help" ++ dquote ++ ".")%string ;;
       ret Continue.

(** [while True: ...]; the end of [inputs] is the end of the input
    stream ([EOFError], handled like [KeyboardInterrupt]). *)
Fixpoint console_loop (inputs : list console_input) : M unit :=
  write "> " ;;
  match inputs with
  | [] => print (nl ++ "Exiting.")%string
  | i :: rest =>
      c <- console_body (in_now i) (lower (strip (in_line i))) ;;
      match c with
      | Continue => console_loop rest
      | Break => ret tt
      end
  end.

Definition interactive_console (inputs : list console_input) : M unit :=
  print (match pinned_header with
         | Some h => h
         | None => "Messaging Automation Bot"
         end) ;;
  print ("Type " ++ dquote ++ "help" ++ dquote ++ " for commands.")%string ;;
  console_loop inputs.


(* ===================================================================== *)
(** * Observations on the process state                                   *)
(* ===================================================================== *)

(** The state [w] after further writes to the standard output. *)
Definition add_out (w : World) (written : list string) : World :=
  {| cal := cal w; stdout := stdout w ++ written; clock := clock w |}.

(** A computation that leaves the store and the clock as they are. *)
Definition frames_store {A : Type} (m : M A) : Prop :=
  forall w, cal (snd (m w)) = cal w /\ clock (snd (m w)) = clock w.

(** The header line of a digest, recognised in the output, and the number
    of digests an output shows. *)
Definition is_digest_header (s : string) : bool := String.prefix "DAILY DIGEST" s.

Definition digest_count (out : list string) : nat :=
  List.length (List.filter is_digest_header out).

(** The commands the console knows, and the empty line. *)
Definition known_command (cmd : string) : bool :=
  String.eqb cmd EmptyString || String.eqb cmd "exit" || String.eqb cmd "quit"
  || String.eqb cmd "help" || String.eqb cmd "today" || String.eqb cmd "week"
  || String.eqb cmd "kpi".

(** A round of the demo loop sleeps for a duration drawn from 2..6 and
    wakes up at most [late_max] late. *)
Definition round_ok (late_max : Q) (env : round_env) : Prop :=
  (2 <= env_uniform env)%Q /\ (env_uniform env <= 6)%Q /\
  (0 <= env_late env)%Q /\ (env_late env <= late_max)%Q.

(* ===================================================================== *)
(** * Histories of the store                                              *)
(* ===================================================================== *)

(** After construction the program writes to the store only through the
    two [simulate_*] methods.  A history is the list of these calls, each
    with the clock reading and the raw draws it used. *)
Inductive store_op : Type :=
| OpNew (now : datetime) (r_days r_kpi : Z)
| OpUpdate (now : datetime) (r_choice : nat) (r_bump : Z).

Definition op_now (o : store_op) : datetime :=
  match o with
  | OpNew now _ _ => now
  | OpUpdate now _ _ => now
  end.

Definition apply_op (o : store_op) (events : MockCalendar.store) : MockCalendar.store :=
  match o with
  | OpNew now r_days r_kpi =>
      snd (MockCalendar.simulate_new_event now r_days r_kpi events)
  | OpUpdate now r_choice r_bump =>
      snd (MockCalendar.simulate_update_event now r_choice r_bump events)
  end.

Definition run_ops (ops : list store_op) (events : MockCalendar.store) : MockCalendar.store :=
  fold_left (fun evs o => apply_op o evs) ops events.

(** The stores the program can hold: a seeded store after some history. *)
Definition reachable (events : MockCalendar.store) : Prop :=
  exists now rnd ops, events = run_ops ops (MockCalendar.init now rnd).

(** Successive clock readings, starting from [t], never go back. *)
Fixpoint clock_sorted (t : datetime) (ops : list store_op) : Prop :=
  match ops with
  | [] => True
  | o :: rest => (t <= op_now o)%dt /\ clock_sorted (op_now o) rest
  end.

(** The clock reading of the last call of a history that starts at [t]. *)
Definition last_now (t : datetime) (ops : list store_op) : datetime :=
  fold_left (fun _ o => op_now o) ops t.

(** The selection of [list_events] in the words of the specification:
    the stored events with [a <= start <= b], in store order. *)
Definition in_range (a b : datetime) (e : Event) : bool :=
  dt_leb a (start e) && dt_leb (start e) b.

Definition events_in_range (a b : datetime) (events : MockCalendar.store) : list Event :=
  List.filter (in_range a b) events.

(** One step of a history keeps [updated] from going back, for every
    event of the store. *)
Definition updated_monotone_step (events : MockCalendar.store) (o : store_op) : Prop :=
  forall i e e',
    events !! i = Some e -> apply_op o events !! i = Some e' ->
    (updated e <= updated e')%dt.

(** The identifiers follow the positions: position [i] holds the
    identifier made from [i + 1]. *)
Definition ids_sequential (events : MockCalendar.store) : Prop :=
  forall i e, events !! i = Some e -> evt_id e = ("evt-" ++ str_nat (S i))%string.

(* ===================================================================== *)
(** * Sample inputs                                                       *)
(* ===================================================================== *)

(** A Tuesday noon, a later reading of the clock, and a table of draws. *)
Definition sample_now : datetime := mkdatetime 739923 12 0 0 0.
Definition sample_later : datetime := mkdatetime 739923 12 0 5 250000.
Definition sample_rnd (i : nat) : Z := 37 * Z.of_nat i.
Definition sample_store : MockCalendar.store := MockCalendar.init sample_now sample_rnd.

(** The second seeded event is updated five seconds after seeding. *)
Definition sample_update : store_op := OpUpdate sample_later 1 0.

(** A first history: one new event, then an update that picks it. *)
Definition sample_latest : datetime := mkdatetime 739923 12 0 9 0.
Definition sample_history : list store_op := [OpNew sample_later 2 7].
Definition sample_update_new : store_op := OpUpdate sample_latest 10 3.

(** A store for the console: three events of the coming week with
    estimates 10, 20 and 30, one at the last second of today, one at the
    first second of tomorrow, and one in a month. *)
Definition sample_event (name : string) (s : datetime) (k : Z) : Event :=
  {| evt_id := name; summary := name; start := s;
     end_ := dt_add s (mk_timedelta 0 1 0);
     updated := sample_now; kpi_estimate := Some k |}.

Definition sample_last_second : Event :=
  sample_event "evt-1" (mkdatetime 739923 23 59 59 0) 10.
Definition sample_midnight : Event :=
  sample_event "evt-2" (mkdatetime 739924 0 0 0 0) 20.
Definition sample_next_month : Event :=
  sample_event "evt-4" (mkdatetime 739953 9 0 0 0) 40.

Definition sample_world : World :=
  {| cal := [sample_last_second; sample_midnight;
             sample_event "evt-3" (mkdatetime 739926 9 0 0 0) 30;
             sample_next_month];
     stdout := [];
     clock := 0 |}.

(** Stand-ins for the library functions that only format. *)
Definition sample_strftime (d : datetime) (fmt : string) : string := fmt.
Definition sample_astimezone (d : datetime) : datetime := d.
Definition sample_str_date (d : datetime) : string := str_int (ordinal d).

(** A round of the demo that sleeps for 2 units and creates an event. *)
Definition sample_round : round_env :=
  {| env_uniform := 2; env_late := 0; env_coin := true;
     env_now := sample_later; env_r_days := 2; env_r_kpi := 7;
     env_r_choice := 0; env_r_bump := 0; env_alert_now := sample_later |}.

(* ===================================================================== *)
(** * Further observations on stores, listings and sessions               *)
(* ===================================================================== *)

(** The fields of an event that no method writes after its creation. *)
Definition same_identity (e e' : Event) : Prop :=
  evt_id e' = evt_id e /\ summary e' = summary e /\
  start e' = start e /\ end_ e' = end_ e.

(** The shape of every event the two constructors build: it starts at
    09:00 or 10:00 sharp, ends one hour later on the same day, and has an
    estimate of at least 5. *)
Definition event_ok (e : Event) : Prop :=
  (hour (start e) = 9 \/ hour (start e) = 10) /\
  minute (start e) = 0 /\ second (start e) = 0 /\ microsecond (start e) = 0 /\
  end_ e = mkdatetime (ordinal (start e)) (hour (start e) + 1) 0 0 0 /\
  exists k, kpi_estimate e = Some k /\ 5 <= k.

(** The calls of [simulate_new_event] in a history. *)
Definition is_new (o : store_op) : bool :=
  match o with
  | OpNew _ _ _ => true
  | OpUpdate _ _ _ => false
  end.

Definition count_new (ops : list store_op) : nat :=
  List.length (List.filter is_new ops).

(** The store call a round of the alert loop makes. *)
Definition op_of_round (env : round_env) : store_op :=
  if env_coin env
  then OpNew (env_now env) (env_r_days env) (env_r_kpi env)
  else OpUpdate (env_now env) (env_r_choice env) (env_r_bump env).

(** The header line of an alert, recognised in the output, and the number
    of alerts an output shows. *)
Definition is_alert_header (s : string) : bool := String.prefix "REAL-TIME ALERT" s.

Definition alert_count (out : list string) : nat :=
  List.length (List.filter is_alert_header out).

(** The event starts on the calendar day of [now]. *)
Definition same_day (now : datetime) (e : Event) : bool :=
  ordinal (start e) =? ordinal now.

(** A string of whitespace only. *)
Fixpoint all_space (s : string) : bool :=
  match s with
  | String c rest => is_space c && all_space rest
  | EmptyString => true
  end.

(** The worker of [start_alert_simulator], as it runs in its own thread:
    before each round it reads the stop flag, which the main thread sets;
    [obs] gives, round by round, the value read and the environment of
    the round.  The body of its loop is the body of the demo loop, with
    other constants for the two draws, which are values of the
    environment here. *)
Fixpoint alert_worker (obs : list (bool * round_env)) : M unit :=
  match obs with
  | [] => starve
  | (is_set, env) :: rest =>
      if is_set then ret tt
      else demo_round env ;; alert_worker rest
  end.

(** The rounds the worker runs: those before the first reading of a set
    flag. *)
Fixpoint rounds_before_stop (obs : list (bool * round_env)) : list round_env :=
  match obs with
  | [] => []
  | (is_set, env) :: rest => if is_set then [] else env :: rounds_before_stop rest
  end.

(** The process right after seeding, and what the worker may read. *)
Definition sample_seeded_world : World :=
  {| cal := sample_store; stdout := []; clock := 0 |}.

Definition sample_observations : list (bool * round_env) :=
  [(false, sample_round); (true, sample_round); (false, sample_round)].

Definition sample_session : list console_input :=
  [mkInput "help" sample_now; mkInput " Quit " sample_now; mkInput "kpi" sample_now].

(** A window of three days inside the seeded range: it holds the 09:00
    events of the three days after seeding. *)
Definition sample_from : datetime := mkdatetime 739924 0 0 0 0.
Definition sample_until : datetime := mkdatetime 739926 23 0 0 0.
Definition sample_week_end : datetime := mkdatetime 739930 12 0 0 0.

(** A store whose estimates 10, 20 and 31 do not divide evenly. *)
Definition sample_uneven_world : World :=
  {| cal := [sample_last_second; sample_midnight;
             sample_event "evt-3" (mkdatetime 739926 9 0 0 0) 31];
     stdout := [];
     clock := 0 |}.
(** ** Facts about timestamps *)

Lemma datetime_eq (a b : datetime) :
  ordinal a = ordinal b -> hour a = hour b -> minute a = minute b ->
  second a = second b -> microsecond a = microsecond b -> a = b.
Proof using. destruct a, b; simpl; intros; subst; reflexivity. Qed.

Ltac unfold_units :=
  unfold mk_timedelta, US_PER_DAY, US_PER_HOUR, US_PER_MINUTE, US_PER_SECOND in *.

Lemma dt_compare_spec (a b : datetime) :
  valid_datetime a -> valid_datetime b ->
  dt_compare a b = (to_microseconds a ?= to_microseconds b).
Proof using.
  intros (Ha1 & Ha2 & Ha3 & Ha4) (Hb1 & Hb2 & Hb3 & Hb4).
  unfold dt_compare, to_microseconds, lex. unfold_units.
  symmetry.
  destruct (Z.compare_spec (ordinal a) (ordinal b));
  destruct (Z.compare_spec (hour a) (hour b));
  destruct (Z.compare_spec (minute a) (minute b));
  destruct (Z.compare_spec (second a) (second b));
  destruct (Z.compare_spec (microsecond a) (microsecond b));
  first [ apply Z.compare_eq_iff | apply Z.compare_lt_iff | apply Z.compare_gt_iff ];
  lia.
Qed.

Lemma dt_le_spec (a b : datetime) :
  valid_datetime a -> valid_datetime b ->
  (a <= b)%dt <-> to_microseconds a <= to_microseconds b.
Proof using.
  intros Ha Hb. unfold dt_le, dt_leb. rewrite dt_compare_spec by assumption.
  destruct (Z.compare_spec (to_microseconds a) (to_microseconds b));
    split; intros; try lia; try discriminate; reflexivity.
Qed.

Lemma dt_lt_spec (a b : datetime) :
  valid_datetime a -> valid_datetime b ->
  (a < b)%dt <-> to_microseconds a < to_microseconds b.
Proof using.
  intros Ha Hb. unfold dt_lt, dt_ltb. rewrite dt_compare_spec by assumption.
  destruct (Z.compare_spec (to_microseconds a) (to_microseconds b));
    split; intros; try lia; try discriminate; reflexivity.
Qed.

Lemma of_microseconds_valid (t : Z) : valid_datetime (of_microseconds t).
Proof using.
  unfold valid_datetime, of_microseconds; simpl. unfold_units.
  repeat split;
    first [ apply Z.div_pos; [apply Z.mod_pos_bound|]; lia
          | apply Z.div_lt_upper_bound; [lia | apply Z.mod_pos_bound; lia]
          | apply Z.mod_pos_bound; lia ].
Qed.

Lemma to_of_microseconds (t : Z) : to_microseconds (of_microseconds t) = t.
Proof using.
  unfold to_microseconds, of_microseconds; simpl. unfold_units.
  change (24 * (60 * (60 * 1000000))) with 86400000000.
  change (60 * (60 * 1000000)) with 3600000000.
  change (60 * 1000000) with 60000000.
  pose proof (Z.div_mod t 86400000000 ltac:(lia)).
  pose proof (Z.mod_pos_bound t 86400000000 ltac:(lia)).
  pose proof (Z.div_mod (t mod 86400000000) 3600000000 ltac:(lia)).
  pose proof (Z.div_mod (t mod 3600000000) 60000000 ltac:(lia)).
  pose proof (Z.div_mod (t mod 60000000) 1000000 ltac:(lia)).
  assert (E1 : (t mod 86400000000) mod 3600000000 = t mod 3600000000).
  { apply Z.mod_mod_divide. exists 24; lia. }
  assert (E2 : (t mod 3600000000) mod 60000000 = t mod 60000000).
  { apply Z.mod_mod_divide. exists 60; lia. }
  assert (E3 : (t mod 60000000) mod 1000000 = t mod 1000000).
  { apply Z.mod_mod_divide. exists 60; lia. }
  lia.
Qed.

Lemma to_microseconds_inj (a b : datetime) :
  valid_datetime a -> valid_datetime b ->
  to_microseconds a = to_microseconds b -> a = b.
Proof using.
  intros (Ha1 & Ha2 & Ha3 & Ha4) (Hb1 & Hb2 & Hb3 & Hb4).
  unfold to_microseconds. unfold_units. intros E.
  apply datetime_eq; lia.
Qed.

Lemma of_to_microseconds (d : datetime) :
  valid_datetime d -> of_microseconds (to_microseconds d) = d.
Proof using.
  intros Hd. apply to_microseconds_inj; auto using of_microseconds_valid.
  apply to_of_microseconds.
Qed.

(** The ordering as a formula on the fields. *)
Lemma dt_le_fields (a b : datetime) :
  (a <= b)%dt <->
  ordinal a < ordinal b \/ (ordinal a = ordinal b /\
  (hour a < hour b \/ (hour a = hour b /\
  (minute a < minute b \/ (minute a = minute b /\
  (second a < second b \/ (second a = second b /\
   microsecond a <= microsecond b))))))).
Proof using.
  unfold dt_le, dt_leb, dt_compare, lex.
  destruct (Z.compare_spec (ordinal a) (ordinal b));
  destruct (Z.compare_spec (hour a) (hour b));
  destruct (Z.compare_spec (minute a) (minute b));
  destruct (Z.compare_spec (second a) (second b));
  destruct (Z.compare_spec (microsecond a) (microsecond b));
  split; intros; try discriminate; try reflexivity; lia.
Qed.

Lemma dt_lt_fields (a b : datetime) :
  (a < b)%dt <->
  ordinal a < ordinal b \/ (ordinal a = ordinal b /\
  (hour a < hour b \/ (hour a = hour b /\
  (minute a < minute b \/ (minute a = minute b /\
  (second a < second b \/ (second a = second b /\
   microsecond a < microsecond b))))))).
Proof using.
  unfold dt_lt, dt_ltb, dt_compare, lex.
  destruct (Z.compare_spec (ordinal a) (ordinal b));
  destruct (Z.compare_spec (hour a) (hour b));
  destruct (Z.compare_spec (minute a) (minute b));
  destruct (Z.compare_spec (second a) (second b));
  destruct (Z.compare_spec (microsecond a) (microsecond b));
  split; intros; try discriminate; try reflexivity; lia.
Qed.

Lemma dt_le_refl (a : datetime) : (a <= a)%dt.
Proof using. apply dt_le_fields. lia. Qed.

Lemma dt_le_trans (a b c : datetime) : (a <= b)%dt -> (b <= c)%dt -> (a <= c)%dt.
Proof using. rewrite !dt_le_fields. lia. Qed.

Lemma dt_lt_not_le (a b : datetime) : (b < a)%dt <-> ~ (a <= b)%dt.
Proof using. rewrite dt_lt_fields, dt_le_fields. lia. Qed.

Lemma dt_le_total (a b : datetime) : (a <= b)%dt \/ (b <= a)%dt.
Proof using. rewrite !dt_le_fields. lia. Qed.

Lemma str_nat_inj (n m : nat) : str_nat n = str_nat m -> n = m.
Proof using.
  unfold str_nat. intros E.
  apply (f_equal NilEmpty.uint_of_string) in E.
  rewrite !NilEmpty.usu in E. injection E as E.
  apply (f_equal Nat.of_uint) in E.
  now rewrite !DecimalNat.Unsigned.of_to in E.
Qed.

Lemma append_inj_r (p s t : string) : (p ++ s)%string = (p ++ t)%string -> s = t.
Proof using. induction p as [|c p IH]; simpl; [auto|]. intros E. injection E. auto. Qed.

Lemma randint_range (a b r : Z) : a <= b -> a <= randint a b r <= b.
Proof using.
  intros H. unfold randint.
  pose proof (Z.mod_pos_bound r (b - a + 1) ltac:(lia)). lia.
Qed.

(** Every value of the range is drawn by some [r]. *)
Lemma randint_onto (a b v : Z) : a <= v <= b -> randint a b (v - a) = v.
Proof using. intros H. unfold randint. rewrite Z.mod_small by lia. lia. Qed.

Lemma choice_Some {A : Type} (seq : list A) (r : nat) :
  seq <> [] ->
  exists i x, choice seq r = Some (i, x) /\ seq !! i = Some x /\
              (i < List.length seq)%nat.
Proof using.
  intros Hne. unfold choice.
  assert (Hlen : (List.length seq <> 0)%nat) by (destruct seq; simpl; congruence).
  pose proof (Nat.mod_upper_bound r _ Hlen) as Hlt.
  destruct (lookup_lt_is_Some_2 seq _ Hlt) as [x Hx].
  exists (r mod List.length seq)%nat, x. rewrite Hx. auto.
Qed.

(* ===================================================================== *)
(** * The model on concrete values                                        *)
(* ===================================================================== *)

Example str_nat_11 : str_nat 11 = "11".
Proof using. reflexivity. Qed.

Example str_int_minus_5 : str_int (-5) = "-5".
Proof using. reflexivity. Qed.

Example randint_example : randint 10 200 74 = 84 /\ randint 1 50 0 = 1.
Proof using. split; reflexivity. Qed.

Example strip_lower_example : lower (strip "  KPI ") = "kpi".
Proof using. reflexivity. Qed.

Example one_hour_later :
  dt_add (mkdatetime 739923 23 30 0 0) (mk_timedelta 0 1 0) = mkdatetime 739924 0 30 0 0.
Proof using. reflexivity. Qed.

Example end_of_day :
  dt_add (replace_time sample_now 0 0 0 0) (mk_timedelta 1 0 (-1)) =
  mkdatetime 739923 23 59 59 0.
Proof using. reflexivity. Qed.

(** 60 / 3 is the float 20.0 = 5629499534213120 * 2^-48. *)
Example int_truediv_60_3 :
  int_truediv 60 3 = inr (S754_finite false 5629499534213120 (-48)).
Proof using. reflexivity. Qed.

Example int_truediv_by_zero : int_truediv 60 0 = inl ZeroDivisionError.
Proof using. reflexivity. Qed.

(** 1 / 20 is the float just above 0.05, which [.1f] prints as 0.1;
    1 / 4 is exact and the tie goes to the even digit. *)
Example format_examples :
  format_num_1f (PyFloat (S754_finite false 5629499534213120 (-48))) = inr "20.0" /\
  match int_truediv 792 7 with inr x => format_1f x | inl _ => EmptyString end = "113.1" /\
  match int_truediv 1 20 with inr x => format_1f x | inl _ => EmptyString end = "0.1" /\
  match int_truediv 1 4 with inr x => format_1f x | inl _ => EmptyString end = "0.2" /\
  match int_truediv (-1) 30 with inr x => format_1f x | inl _ => EmptyString end = "-0.0".
Proof using. repeat split; reflexivity. Qed.

Example second_seeded_event :
  sample_store !! 1%nat =
  Some {| evt_id := "evt-2"; summary := "Mock Event 2";
          start := mkdatetime 739924 9 0 0 0;
          end_ := mkdatetime 739924 10 0 0 0;
          updated := mkdatetime 739924 8 0 0 0;
          kpi_estimate := Some 84 |}.
Proof using. reflexivity. Qed.

(* ===================================================================== *)
(** * Arithmetic on timestamps                                            *)
(* ===================================================================== *)

Lemma replace_time_valid (d : datetime) (h m s us : Z) :
  0 <= h < 24 -> 0 <= m < 60 -> 0 <= s < 60 -> 0 <= us < 1000000 ->
  valid_datetime (replace_time d h m s us).
Proof using. unfold valid_datetime; simpl; auto. Qed.

(** Adding a duration is determined by the total number of microseconds. *)
Lemma dt_add_eq (d d' : datetime) (td : timedelta) :
  valid_datetime d' -> to_microseconds d' = to_microseconds d + td ->
  dt_add d td = d'.
Proof using.
  intros Hv E. unfold dt_add. rewrite <- E. now apply of_to_microseconds.
Qed.

Lemma dt_sub_eq (d d' : datetime) (td : timedelta) :
  valid_datetime d' -> to_microseconds d' = to_microseconds d - td ->
  dt_sub d td = d'.
Proof using.
  intros Hv E. unfold dt_sub. rewrite <- E. now apply of_to_microseconds.
Qed.

Lemma dt_add_days (d : datetime) (k : Z) :
  valid_datetime d ->
  dt_add d (mk_timedelta k 0 0) =
  {| ordinal := ordinal d + k; hour := hour d; minute := minute d;
     second := second d; microsecond := microsecond d |}.
Proof using.
  intros Hv. apply dt_add_eq; [exact Hv|].
  unfold to_microseconds; simpl. unfold_units. lia.
Qed.

Lemma dt_diff_add (d : datetime) (td : timedelta) : dt_diff (dt_add d td) d = td.
Proof using. unfold dt_diff, dt_add. rewrite to_of_microseconds. lia. Qed.

(* ===================================================================== *)
(** * The store methods                                                   *)
(* ===================================================================== *)

Import MockCalendar.

Lemma list_events_loop_filter (a b : datetime) (events : store) (out : list Event) :
  list_events_loop a b events out = out ++ events_in_range a b events.
Proof using.
  revert out. induction events as [|e rest IH]; intros out; simpl.
  - now rewrite app_nil_r.
  - unfold in_range at 1.
    destruct (dt_leb a (start e) && dt_leb (start e) b); rewrite IH.
    + now rewrite <- app_assoc.
    + reflexivity.
Qed.

Lemma list_events_filter (a b : datetime) (events : store) :
  list_events a b events = events_in_range a b events.
Proof using. unfold list_events. now rewrite list_events_loop_filter. Qed.

Lemma in_range_spec (a b : datetime) (e : Event) :
  in_range a b e = true <-> (a <= start e)%dt /\ (start e <= b)%dt.
Proof using. unfold in_range, dt_le. apply andb_true_iff. Qed.

Lemma events_in_range_sublist (a b : datetime) (events : store) :
  events_in_range a b events `sublist_of` events.
Proof using.
  unfold events_in_range. induction events as [|e rest IH]; simpl.
  - constructor.
  - destruct (in_range a b e); now constructor.
Qed.

(** C1. [list_events(a, b)] returns exactly the stored events whose start
    [s] satisfies [a <= s <= b], in store order: it is the filter of the
    store by that condition, a sublist of the store, so membership is
    membership in the store together with the condition, and an empty
    range ([b < a]) gives the empty list. *)
Theorem list_events_exact (a b : datetime) (events : store) :
  list_events a b events = events_in_range a b events /\
  list_events a b events `sublist_of` events /\
  (forall e, In e (list_events a b events) <->
             In e events /\ (a <= start e)%dt /\ (start e <= b)%dt) /\
  ((b < a)%dt -> list_events a b events = []).
Proof using.
  rewrite list_events_filter. split; [reflexivity|].
  split; [apply events_in_range_sublist|].
  unfold events_in_range. split.
  - intros e. rewrite filter_In, in_range_spec. reflexivity.
  - intros Hlt. induction events as [|e rest IH]; [reflexivity|]. simpl.
    destruct (in_range a b e) eqn:Hr; [|exact IH].
    apply in_range_spec in Hr. destruct Hr as [H1 H2].
    apply dt_lt_not_le in Hlt. destruct Hlt. eapply dt_le_trans; eauto.
Qed.

Lemma init_events (now : datetime) (rnd : nat -> Z) :
  init now rnd = (fun i => seed_event now i (rnd i)) <$> seq 1 10.
Proof using. reflexivity. Qed.

Lemma init_lookup (now : datetime) (rnd : nat -> Z) (k : nat) :
  (k < 10)%nat -> init now rnd !! k = Some (seed_event now (S k) (rnd (S k))).
Proof using.
  intros Hk. rewrite init_events, list_lookup_fmap, lookup_seq_lt by exact Hk.
  reflexivity.
Qed.

Lemma init_length (now : datetime) (rnd : nat -> Z) :
  List.length (init now rnd) = 10%nat.
Proof using. reflexivity. Qed.

(** The three timestamps of a seeded event. *)
Lemma seed_event_times (now : datetime) (i : nat) (r : Z) :
  valid_datetime now ->
  let day := ordinal now + (Z.of_nat i - 1) in
  start (seed_event now i r) = mkdatetime day 9 0 0 0 /\
  end_ (seed_event now i r) = mkdatetime day 10 0 0 0 /\
  updated (seed_event now i r) = mkdatetime day 8 0 0 0.
Proof using.
  intros Hv day. unfold seed_event; simpl.
  rewrite dt_add_days by exact Hv. unfold replace_time; simpl. fold day.
  split; [reflexivity|]. split.
  - apply dt_add_eq; [unfold valid_datetime; simpl; lia|].
    unfold to_microseconds; simpl. unfold_units. lia.
  - apply dt_sub_eq; [unfold valid_datetime; simpl; lia|].
    unfold to_microseconds; simpl. unfold_units. lia.
Qed.

(** C4. Seeding at construction produces exactly 10 events; the event at
    position [k] (k = 0..9) starts on the day [k] days after today, and
    every seeded event has [start < end] with [end - start] equal to one
    hour. *)
Theorem seed_events_ten_days (now : datetime) (rnd : nat -> Z) :
  valid_datetime now ->
  List.length (init now rnd) = 10%nat /\
  forall k, (k < 10)%nat ->
    exists e, init now rnd !! k = Some e /\
              ordinal (start e) = ordinal now + Z.of_nat k /\
              (start e < end_ e)%dt /\
              dt_diff (end_ e) (start e) = mk_timedelta 0 1 0.
Proof using.
  intros Hv. split; [apply init_length|].
  intros k Hk. exists (seed_event now (S k) (rnd (S k))).
  split; [now apply init_lookup|].
  destruct (seed_event_times now (S k) (rnd (S k)) Hv) as (Hs & He & _).
  rewrite Hs, He. split; [simpl; lia|]. split.
  - apply dt_lt_fields. simpl. lia.
  - unfold dt_diff, to_microseconds; simpl. unfold_units. lia.
Qed.

(** The call on a non-empty store. *)
Lemma simulate_update_event_nonempty
      (now : datetime) (r_choice : nat) (r_bump : Z) (events : store) :
  events <> [] ->
  exists i e e',
    (i < List.length events)%nat /\ events !! i = Some e /\
    simulate_update_event now r_choice r_bump events = (Some e', <[i := e']> events) /\
    e' = set_kpi_estimate (get_kpi_estimate e 10 + randint 1 50 r_bump)
           (set_updated now e).
Proof using.
  intros Hne. destruct (choice_Some events r_choice Hne) as (i & e & Hc & Hi & Hlt).
  exists i, e. eexists. split; [exact Hlt|]. split; [exact Hi|].
  split; [|reflexivity].
  unfold simulate_update_event. destruct events; [congruence|].
  rewrite Hc. reflexivity.
Qed.

(** C3. [simulate_update_event] on an empty store returns [None] and the
    store as it was; on a non-empty store it returns the event it has put
    at one position [i] of the store, whose [updated] is the call's [now]
    and whose [kpi_estimate] is the value read before the call plus a
    draw from 1..50, hence strictly greater; the other fields of that
    event, the other positions and the length of the store are unchanged. *)
Theorem simulate_update_event_correct
        (now : datetime) (r_choice : nat) (r_bump : Z) (events : store) :
  (events = [] ->
   simulate_update_event now r_choice r_bump events = (None, events)) /\
  (events <> [] ->
   exists i e e',
     (i < List.length events)%nat /\ events !! i = Some e /\
     simulate_update_event now r_choice r_bump events = (Some e', <[i := e']> events) /\
     <[i := e']> events !! i = Some e' /\
     updated e' = now /\
     (exists inc, 1 <= inc <= 50 /\
                  kpi_estimate e' = Some (get_kpi_estimate e 10 + inc)) /\
     (forall k, kpi_estimate e = Some k ->
                exists k', kpi_estimate e' = Some k' /\ k < k') /\
     evt_id e' = evt_id e /\ summary e' = summary e /\
     start e' = start e /\ end_ e' = end_ e /\
     (forall j, j <> i -> <[i := e']> events !! j = events !! j) /\
     List.length (<[i := e']> events) = List.length events).
Proof using.
  split.
  - intros ->. reflexivity.
  - intros Hne.
    destruct (simulate_update_event_nonempty now r_choice r_bump events Hne)
      as (i & e & e' & Hlt & Hi & Hs & ->).
    pose proof (randint_range 1 50 r_bump ltac:(lia)) as Hinc.
    exists i, e. eexists. split; [exact Hlt|]. split; [exact Hi|].
    split; [exact Hs|].
    split; [now apply list_lookup_insert_eq|].
    split; [reflexivity|].
    split; [exists (randint 1 50 r_bump); split; [exact Hinc | reflexivity]|].
    split.
    { intros k Hk. eexists. split; [reflexivity|].
      unfold get_kpi_estimate; simpl. rewrite Hk. lia. }
    repeat (split; [reflexivity|]).
    split; [intros j Hj; now apply list_lookup_insert_ne|].
    apply length_insert.
Qed.

(* ===================================================================== *)
(** * Invariants of the store along a history                             *)
(* ===================================================================== *)

Lemma run_ops_snoc (ops : list store_op) (o : store_op) (events : store) :
  run_ops (ops ++ [o]) events = apply_op o (run_ops ops events).
Proof using. unfold run_ops. now rewrite fold_left_app. Qed.

Lemma last_now_snoc (t : datetime) (ops : list store_op) (o : store_op) :
  last_now t (ops ++ [o]) = op_now o.
Proof using. unfold last_now. now rewrite fold_left_app. Qed.

Lemma clock_sorted_snoc (t : datetime) (ops : list store_op) (o : store_op) :
  clock_sorted t (ops ++ [o]) <->
  clock_sorted t ops /\ (last_now t ops <= op_now o)%dt.
Proof using.
  revert t. induction ops as [|o' ops IH]; intros t; simpl.
  - unfold last_now; simpl. split; [intros [H _] | intros [_ H]]; auto.
  - rewrite IH. unfold last_now; simpl.
    split; [intros [H1 [H2 H3]] | intros [[H1 H2] H3]]; auto.
Qed.

(** What one call does to the store: it appends one event, leaves the
    store as it is, or replaces one position. *)
Lemma apply_op_cases (o : store_op) (events : store) :
  (exists evt, apply_op o events = events ++ [evt] /\
               evt_id evt = ("evt-" ++ str_nat (S (List.length events)))%string /\
               updated evt = op_now o) \/
  apply_op o events = events \/
  (exists i e e', events !! i = Some e /\ apply_op o events = <[i := e']> events /\
                  evt_id e' = evt_id e /\ updated e' = op_now o).
Proof using.
  destruct o as [now r_days r_kpi | now r_choice r_bump]; simpl.
  - left. eexists. split; [reflexivity|]. simpl.
    rewrite Nat.add_1_r. split; reflexivity.
  - destruct events as [|e0 rest]; [right; left; reflexivity|].
    destruct (simulate_update_event_nonempty now r_choice r_bump (e0 :: rest))
      as (i & e & e' & _ & Hi & Hs & ->); [discriminate|].
    right; right. exists i, e. eexists. rewrite Hs. auto.
Qed.

Lemma apply_op_length (o : store_op) (events : store) :
  (List.length events <= List.length (apply_op o events))%nat.
Proof using.
  destruct (apply_op_cases o events)
    as [(evt & -> & _) | [-> | (i & e & e' & _ & -> & _)]].
  - rewrite length_app; simpl; lia.
  - lia.
  - rewrite length_insert; lia.
Qed.

Lemma ids_sequential_init (now : datetime) (rnd : nat -> Z) :
  ids_sequential (init now rnd).
Proof using.
  intros i e Hi. pose proof (lookup_lt_Some _ _ _ Hi) as Hlt.
  rewrite init_length in Hlt. rewrite init_lookup in Hi by exact Hlt.
  injection Hi as <-. reflexivity.
Qed.

Lemma ids_sequential_step (o : store_op) (events : store) :
  ids_sequential events -> ids_sequential (apply_op o events).
Proof using.
  intros Hinv j x Hj.
  destruct (apply_op_cases o events)
    as [(evt & E & Hid & _) | [E | (i & e & e' & Hi & E & Hid & _)]];
    rewrite E in Hj.
  - apply lookup_app_Some in Hj. destruct Hj as [Hj | [Hge Hj]].
    + now apply Hinv.
    + apply list_lookup_singleton_Some in Hj. destruct Hj as [Hz <-].
      rewrite Hid. do 2 f_equal. lia.
  - now apply Hinv.
  - destruct (decide (i = j)) as [<- | Hne].
    + rewrite list_lookup_insert_eq in Hj by (eapply lookup_lt_Some; eauto).
      injection Hj as <-. rewrite Hid. now apply Hinv.
    + rewrite list_lookup_insert_ne in Hj by exact Hne. now apply Hinv.
Qed.

Lemma reachable_ids_sequential (events : store) :
  reachable events -> ids_sequential events.
Proof using.
  intros (now & rnd & ops & ->).
  induction ops as [|o ops IH] using rev_ind.
  - apply ids_sequential_init.
  - rewrite run_ops_snoc. now apply ids_sequential_step.
Qed.

(** C7. On every store the program can hold, [simulate_new_event] appends
    exactly one event: the store grows by one, the earlier positions are
    unchanged, the identifier of the new event differs from the
    identifier of every event already stored, and the new event starts on
    a day from today to five days ahead. *)
Theorem simulate_new_event_correct
        (now : datetime) (r_days r_kpi : Z) (events : store) :
  reachable events -> valid_datetime now ->
  exists evt,
    simulate_new_event now r_days r_kpi events = (evt, events ++ [evt]) /\
    List.length (events ++ [evt]) = S (List.length events) /\
    (forall i, (i < List.length events)%nat -> (events ++ [evt]) !! i = events !! i) /\
    (forall e, In e events -> evt_id e <> evt_id evt) /\
    ordinal now <= ordinal (start evt) <= ordinal now + 5.
Proof using.
  intros Hr Hv. eexists. split; [reflexivity|].
  split; [rewrite length_app; simpl; lia|].
  split; [intros i Hi; now apply lookup_app_l|].
  split.
  - intros e He Heq. apply list_elem_of_In, list_elem_of_lookup in He.
    destruct He as [i Hi].
    rewrite (reachable_ids_sequential events Hr i e Hi) in Heq. simpl in Heq.
    injection Heq as Heq. apply str_nat_inj in Heq.
    apply lookup_lt_Some in Hi. lia.
  - cbn [start]. unfold replace_time. cbn [ordinal].
    rewrite dt_add_days by exact Hv. cbn [ordinal].
    pose proof (randint_range 0 5 r_days ltac:(lia)). lia.
Qed.

(** ** The [updated] field along a history *)

(** After a call, a position holds what it held before or an event whose
    [updated] is the clock reading of the call. *)
Lemma apply_op_lookup (o : store_op) (events : store) (i : nat) (e' : Event) :
  apply_op o events !! i = Some e' ->
  events !! i = Some e' \/
  (updated e' = op_now o /\ (events !! i = None -> i = List.length events)).
Proof using.
  intros Hi.
  destruct (apply_op_cases o events)
    as [(evt & E & _ & Hu) | [E | (j & e & e1 & Hj & E & _ & Hu)]];
    rewrite E in Hi.
  - apply lookup_app_Some in Hi. destruct Hi as [Hi | [Hge Hi]]; [now left|].
    apply list_lookup_singleton_Some in Hi. destruct Hi as [Hz <-].
    right. split; [exact Hu|]. intros _. lia.
  - now left.
  - destruct (decide (j = i)) as [<- | Hne].
    + rewrite list_lookup_insert_eq in Hi by (eapply lookup_lt_Some; eauto).
      injection Hi as <-. right. split; [exact Hu|]. congruence.
    + rewrite list_lookup_insert_ne in Hi by exact Hne. now left.
Qed.

(** Events that were not seeded never carry an [updated] value ahead of
    the clock. *)
Lemma simulated_not_ahead (now0 : datetime) (rnd : nat -> Z) (ops : list store_op) :
  clock_sorted now0 ops ->
  forall i e, (10 <= i)%nat -> run_ops ops (init now0 rnd) !! i = Some e ->
              (updated e <= last_now now0 ops)%dt.
Proof using.
  induction ops as [|o ops IH] using rev_ind; intros Hs i e Hi He.
  - apply lookup_lt_Some in He.
    change (List.length (run_ops [] (init now0 rnd))) with 10%nat in He. lia.
  - apply clock_sorted_snoc in Hs. destruct Hs as [Hs Hle].
    rewrite run_ops_snoc in He. rewrite last_now_snoc.
    destruct (apply_op_lookup _ _ _ _ He) as [Hold | [Hu _]].
    + eapply dt_le_trans; [apply (IH Hs i e Hi Hold) | exact Hle].
    + rewrite Hu. apply dt_le_refl.
Qed.

(** C2 (as stated, refuted). With the clock moving forward, the update of
    a seeded event can move its [updated] value back: the second seeded
    event carries 08:00 of tomorrow, and an update five seconds after
    seeding replaces it by the current time. *)
Lemma updated_not_monotone :
  clock_sorted sample_now [sample_update] /\
  ~ updated_monotone_step (init sample_now sample_rnd) sample_update.
Proof using.
  split; [split; [reflexivity | exact I]|].
  intros H.
  assert (Hc : (mkdatetime 739924 8 0 0 0 <= sample_later)%dt).
  { apply (H 1%nat
             (seed_event sample_now 2 (sample_rnd 2))
             (set_kpi_estimate (84 + 1)
                (set_updated sample_later (seed_event sample_now 2 (sample_rnd 2)))));
      reflexivity. }
  discriminate Hc.
Qed.

(** C2 (amended). Along a history whose clock readings never go back, a
    call changes the [updated] value of an event only by setting it to
    the call's clock reading, and the value does not decrease for every
    event that was created by [simulate_new_event] (position 10 or
    later) and for every event whose value is not ahead of the clock,
    which a seeded event satisfies from its first update on. *)
Theorem updated_monotone_once_not_ahead
        (now0 : datetime) (rnd : nat -> Z) (ops : list store_op) (o : store_op)
        (i : nat) (e e' : Event) :
  clock_sorted now0 (ops ++ [o]) ->
  run_ops ops (init now0 rnd) !! i = Some e ->
  run_ops (ops ++ [o]) (init now0 rnd) !! i = Some e' ->
  (10 <= i)%nat \/ (updated e <= last_now now0 ops)%dt ->
  (updated e <= updated e')%dt /\
  (updated e' = updated e \/ updated e' = op_now o) /\
  (updated e' <= last_now now0 (ops ++ [o]))%dt.
Proof using.
  intros Hs He He' Hcond.
  apply clock_sorted_snoc in Hs. destruct Hs as [Hs Hle].
  assert (Hnot_ahead : (updated e <= last_now now0 ops)%dt).
  { destruct Hcond as [Hi | H]; [|exact H].
    now apply (simulated_not_ahead now0 rnd ops Hs i e). }
  rewrite run_ops_snoc in He'. rewrite last_now_snoc.
  destruct (apply_op_lookup _ _ _ _ He') as [Hold | [Hu _]].
  - assert (e' = e) as -> by congruence.
    split; [apply dt_le_refl|]. split; [now left|].
    eapply dt_le_trans; eauto.
  - rewrite Hu. split; [eapply dt_le_trans; eauto|].
    split; [now right | apply dt_le_refl].
Qed.

(* ===================================================================== *)
(** * Running the bot logic                                               *)
(* ===================================================================== *)

Lemma add_out_app (w : World) (a b : list string) :
  add_out (add_out w a) b = add_out w (a ++ b).
Proof using. unfold add_out; simpl. now rewrite app_assoc. Qed.

Lemma add_out_nil (w : World) : add_out w [] = w.
Proof using. destruct w. unfold add_out; simpl. now rewrite app_nil_r. Qed.

Lemma print_run (s : string) (w : World) : print s w = (Ok tt, add_out w [line s]).
Proof using. reflexivity. Qed.

Lemma write_run (s : string) (w : World) : write s w = (Ok tt, add_out w [s]).
Proof using. reflexivity. Qed.

Lemma bind_run {A B : Type} (m : M A) (k : A -> M B) (w w' : World) (a : A) :
  m w = (Ok a, w') -> bind m k w = k a w'.
Proof using. intros H. unfold bind. now rewrite H. Qed.

Lemma for_each_print (A : Type) (f : A -> string) (xs : list A) (w : World) :
  for_each xs (fun x => print (f x)) w = (Ok tt, add_out w (map (fun x => line (f x)) xs)).
Proof using.
  revert w. induction xs as [|x rest IH]; intros w; simpl.
  - now rewrite add_out_nil.
  - rewrite (bind_run _ _ _ _ _ (print_run _ _)), IH, add_out_app. reflexivity.
Qed.

(** ** Frame rules: what leaves the store and the clock alone *)

Create HintDb frame.

Lemma frames_ret {A : Type} (a : A) : frames_store (ret a).
Proof using. intros w. auto. Qed.

Lemma frames_raise {A : Type} (e : exn) : frames_store (@raise A e).
Proof using. intros w. auto. Qed.

Lemma frames_lift_exn {A : Type} (v : exn + A) : frames_store (lift_exn v).
Proof using. destruct v; intros w; auto. Qed.

Lemma frames_write (s : string) : frames_store (write s).
Proof using. intros w. auto. Qed.

Lemma frames_print (s : string) : frames_store (print s).
Proof using. intros w. auto. Qed.

Lemma frames_cal_list_events (a b : datetime) : frames_store (cal_list_events a b).
Proof using. intros w. auto. Qed.

Lemma frames_bind {A B : Type} (m : M A) (k : A -> M B) :
  frames_store m -> (forall a, frames_store (k a)) -> frames_store (bind m k).
Proof using.
  intros Hm Hk w. unfold bind. specialize (Hm w).
  destruct (m w) as [[a | e |] w1]; simpl in *; auto.
  destruct (Hk a w1) as [H1 H2]. destruct Hm as [H3 H4]. split; congruence.
Qed.

Lemma frames_for_each {A : Type} (xs : list A) (body : A -> M unit) :
  (forall x, frames_store (body x)) -> frames_store (for_each xs body).
Proof using.
  intros Hb. induction xs as [|x rest IH]; simpl.
  - apply frames_ret.
  - apply frames_bind; auto.
Qed.

#[local] Hint Resolve frames_ret frames_raise frames_lift_exn frames_write
  frames_print frames_cal_list_events frames_bind frames_for_each : frame.

Lemma frames_daily_digest (now : datetime) : frames_store (daily_digest now).
Proof.
  unfold daily_digest.
  apply frames_bind; [auto with frame|]. intros events.
  destruct events; auto 10 with frame.
Qed.

Lemma frames_cmd_today (now : datetime) : frames_store (cmd_today now).
Proof. unfold cmd_today. auto 10 with frame. Qed.

Lemma frames_cmd_week (now : datetime) : frames_store (cmd_week now).
Proof. unfold cmd_week, week_events. auto 10 with frame. Qed.

Lemma frames_cmd_kpi (now : datetime) : frames_store (cmd_kpi now).
Proof. unfold cmd_kpi, kpi_events. auto 10 with frame. Qed.

Lemma frames_console_body (now : datetime) (cmd : string) :
  frames_store (console_body now cmd).
Proof.
  unfold console_body.
  repeat match goal with |- context [if ?c then _ else _] => destruct c end;
    auto 10 using frames_cmd_today, frames_cmd_week, frames_cmd_kpi with frame.
Qed.

Lemma frames_console_loop (inputs : list console_input) :
  frames_store (console_loop inputs).
Proof.
  induction inputs as [|i rest IH]; simpl.
  - auto with frame.
  - apply frames_bind; [auto with frame|]. intros _.
    apply frames_bind; [apply frames_console_body|].
    intros [|]; auto with frame.
Qed.


(** ** The two windows and what each command prints *)

Lemma today_window_end (now : datetime) :
  dt_add (replace_time now 0 0 0 0) (mk_timedelta 1 0 (-1)) =
  mkdatetime (ordinal now) 23 59 59 0.
Proof.
  apply dt_add_eq; [unfold valid_datetime; simpl; lia|].
  unfold to_microseconds; simpl. unfold_units. lia.
Qed.

Lemma cal_list_events_run (a b : datetime) (w : World) :
  cal_list_events a b w = (Ok (events_in_range a b (cal w)), w).
Proof.
  unfold cal_list_events. now rewrite list_events_filter.
Qed.

Lemma cmd_today_run (now : datetime) (w : World) :
  cmd_today now w =
  (Ok tt,
   add_out w
     (line ("Events for today (" ++ str_date (mkdatetime (ordinal now) 0 0 0 0) ++ "):")
      :: map (fun e => line (format_event e))
           (events_in_range (mkdatetime (ordinal now) 0 0 0 0)
                            (mkdatetime (ordinal now) 23 59 59 0) (cal w)))).
Proof.
  unfold cmd_today. rewrite today_window_end.
  rewrite (bind_run _ _ _ _ _ (cal_list_events_run _ _ _)).
  rewrite (bind_run _ _ _ _ _ (print_run _ _)).
  rewrite for_each_print, add_out_app. reflexivity.
Qed.

Lemma daily_digest_run (now : datetime) (w : World) :
  daily_digest now w =
  (Ok tt,
   add_out w
     ([line (nl ++ str_mul "=" 40);
       line ("DAILY DIGEST — " ++ strftime now "%Y-%m-%d (%Z) %H:%M")]
      ++ match events_in_range (mkdatetime (ordinal now) 0 0 0 0)
                 (mkdatetime (ordinal now) 23 59 59 0) (cal w) with
         | [] => [line "No events scheduled for today."]
         | listed => map (fun e => line (format_event e)) listed
         end
      ++ [line (str_mul "=" 40 ++ nl)])).
Proof.
  unfold daily_digest. rewrite today_window_end.
  rewrite (bind_run _ _ _ _ _ (cal_list_events_run _ _ _)).
  change (replace_time now 0 0 0 0) with (mkdatetime (ordinal now) 0 0 0 0).
  destruct (events_in_range _ _ (cal w)) as [|e rest].
  - rewrite !(bind_run _ _ _ _ _ (print_run _ _)).
    rewrite print_run, !add_out_app. reflexivity.
  - rewrite (bind_run _ _ _ _ _ (print_run _ _)).
    rewrite (bind_run _ _ _ _ _ (print_run _ _)).
    rewrite (bind_run _ _ _ _ _ (for_each_print _ _ _ _)).
    rewrite print_run, !add_out_app. reflexivity.
Qed.

(** C6. The today window, used by the [today] command and by the daily
    digest, runs from 00:00:00 to 23:59:59 of the current local day, both
    included: both list the stored events that start in that window, an
    event that starts at 23:59:59 of the current day is listed, and an
    event that starts at 00:00:00 of the next day is not. *)
Theorem today_window_boundaries (now : datetime) (w : World) :
  let first := mkdatetime (ordinal now) 0 0 0 0 in
  let last := mkdatetime (ordinal now) 23 59 59 0 in
  let listed := events_in_range first last (cal w) in
  cmd_today now w =
    (Ok tt, add_out w (line ("Events for today (" ++ str_date first ++ "):")
                       :: map (fun e => line (format_event e)) listed)) /\
  daily_digest now w =
    (Ok tt, add_out w
       ([line (nl ++ str_mul "=" 40);
         line ("DAILY DIGEST — " ++ strftime now "%Y-%m-%d (%Z) %H:%M")]
        ++ match listed with
           | [] => [line "No events scheduled for today."]
           | _ => map (fun e => line (format_event e)) listed
           end
        ++ [line (str_mul "=" 40 ++ nl)])) /\
  (forall e, In e (cal w) -> start e = last -> In e listed) /\
  (forall e, start e = mkdatetime (ordinal now + 1) 0 0 0 0 -> ~ In e listed).
Proof.
  intros first last listed.
  split; [apply cmd_today_run|]. split.
  { rewrite daily_digest_run. fold first last listed. now destruct listed. }
  unfold listed, events_in_range. split.
  - intros e He Hs. apply filter_In. split; [exact He|].
    apply in_range_spec. rewrite Hs. split; apply dt_le_fields; simpl; lia.
  - intros e Hs Hin. apply filter_In in Hin. destruct Hin as [_ Hr].
    apply in_range_spec in Hr. destruct Hr as [_ Hr]. rewrite Hs in Hr.
    apply dt_le_fields in Hr. simpl in Hr. lia.
Qed.

Lemma int_truediv_no_zero_division (a b : Z) :
  b <> 0 -> int_truediv a b <> inl ZeroDivisionError.
Proof.
  intros Hb. unfold int_truediv.
  destruct (Z.eqb_spec b 0) as [|_]; [contradiction|].
  destruct (a =? 0); [discriminate|].
  destruct (SFdiv_core_binary _ _ _ _ _ _) as [[mz ez] lz].
  destruct (binary_round_aux _ _ _ _ _ _); discriminate.
Qed.

Lemma average_kpi_no_zero_division (total : Z) (events : list Event) :
  average_kpi total events <> inl ZeroDivisionError.
Proof.
  destruct events as [|e rest]; simpl; [discriminate|].
  pose proof (int_truediv_no_zero_division total (Z.pos (Pos.of_succ_nat (List.length rest)))
                ltac:(lia)) as H.
  destruct (int_truediv _ _) as [x|x]; congruence.
Qed.

(* ===================================================================== *)
(** * The quotient of two integers is the nearest float                   *)
(* ===================================================================== *)

(** [int_truediv] divides with [SFdiv_core_binary] and rounds with
    [binary_round_aux]; the lemmas below follow the two through: the
    integer quotient and the place of the remainder, the shift to the
    exponent of the format, the rounding to the nearest even mantissa,
    and the bound this gives in the rationals. *)

Ltac gen_pow :=
  repeat match goal with
         | |- context [Z.pow ?b ?e] =>
             let v := fresh "pw" in set (v := Z.pow b e) in *; clearbody v
         | H : context [Z.pow ?b ?e] |- _ =>
             let v := fresh "pw" in set (v := Z.pow b e) in *; clearbody v
         end.

Lemma digits2_pos_spec (p : positive) :
  2 ^ (Z.pos (digits2_pos p) - 1) <= Z.pos p < 2 ^ Z.pos (digits2_pos p).
Proof using.
  induction p as [p IH | p IH |]; cbn [digits2_pos].
  - rewrite Pos2Z.inj_succ, (Pos2Z.inj_xI p).
    replace (Z.succ (Z.pos (digits2_pos p)) - 1) with (Z.succ (Z.pos (digits2_pos p) - 1)) by lia.
    rewrite !Z.pow_succ_r by lia. gen_pow. lia.
  - rewrite Pos2Z.inj_succ, (Pos2Z.inj_xO p).
    replace (Z.succ (Z.pos (digits2_pos p)) - 1) with (Z.succ (Z.pos (digits2_pos p) - 1)) by lia.
    rewrite !Z.pow_succ_r by lia. gen_pow. lia.
  - simpl. lia.
Qed.

Lemma Zdigits2_nonneg (m : Z) : 0 <= Zdigits2 m.
Proof using. destruct m; simpl; lia. Qed.

Lemma Zdigits2_spec (m : Z) :
  0 < m -> 2 ^ (Zdigits2 m - 1) <= m < 2 ^ Zdigits2 m.
Proof using. destruct m as [|p|p]; try lia. intros _. apply digits2_pos_spec. Qed.

Lemma Zdigits2_pos (m : Z) : 0 < m -> 0 < Zdigits2 m.
Proof using. destruct m; simpl; lia. Qed.

Lemma pow2_lt_inv (a b : Z) : 0 <= b -> 2 ^ a < 2 ^ b -> a < b.
Proof using.
  intros Hb H. destruct (Z_lt_le_dec a b) as [|Hle]; [assumption|].
  exfalso. pose proof (Z.pow_le_mono_r 2 b a ltac:(lia) Hle). lia.
Qed.

Lemma Zdigits2_unique (m d : Z) :
  0 < m -> 2 ^ (d - 1) <= m < 2 ^ d -> Zdigits2 m = d.
Proof using.
  intros Hm [H1 H2]. pose proof (Zdigits2_spec m Hm) as [H3 H4].
  pose proof (Zdigits2_pos m Hm) as Hpos.
  assert (0 < d).
  { destruct (Z_lt_le_dec 0 d); [assumption|]. exfalso.
    assert (2 ^ d <= 1).
    { destruct (Z.eq_dec d 0) as [->|]; [simpl; lia|].
      rewrite Z.pow_neg_r by lia. lia. }
    lia. }
  assert (Zdigits2 m - 1 < d) by (apply pow2_lt_inv; lia).
  assert (d - 1 < Zdigits2 m) by (apply pow2_lt_inv; lia).
  lia.
Qed.

(** The digits of a shifted number. *)
Lemma Zdigits2_div_pow (m n : Z) :
  0 <= m -> 0 <= n -> Zdigits2 (m / 2 ^ n) = Z.max 0 (Zdigits2 m - n).
Proof using.
  intros Hm Hn.
  assert (Hp : 0 < 2 ^ n) by (apply Z.pow_pos_nonneg; lia).
  destruct (Z.eq_dec m 0) as [->|Hm0].
  { rewrite Z.div_0_l by lia. simpl. lia. }
  pose proof (Zdigits2_spec m ltac:(lia)) as [H1 H2].
  pose proof (Zdigits2_pos m ltac:(lia)) as Hd.
  destruct (Z_lt_le_dec n (Zdigits2 m)) as [Hlt|Hge].
  - rewrite Z.max_r by lia.
    assert (Hq : 2 ^ (Zdigits2 m - n - 1) <= m / 2 ^ n < 2 ^ (Zdigits2 m - n)).
    { split.
      - apply Z.div_le_lower_bound; [lia|].
        rewrite <- Z.pow_add_r by lia.
        replace (n + (Zdigits2 m - n - 1)) with (Zdigits2 m - 1) by lia. lia.
      - apply Z.div_lt_upper_bound; [lia|].
        rewrite <- Z.pow_add_r by lia.
        replace (n + (Zdigits2 m - n)) with (Zdigits2 m) by lia. lia. }
    apply Zdigits2_unique; [|exact Hq].
    assert (0 < 2 ^ (Zdigits2 m - n - 1)) by (apply Z.pow_pos_nonneg; lia). lia.
  - rewrite Z.max_l by lia.
    rewrite Z.div_small; [reflexivity|].
    split; [lia|]. pose proof (Z.pow_le_mono_r 2 (Zdigits2 m) n ltac:(lia) Hge). lia.
Qed.

Lemma loc_of_record_of_loc (m : Z) (l : location) :
  loc_of_shr_record (shr_record_of_loc m l) = l /\ shr_m (shr_record_of_loc m l) = m.
Proof using. destruct l as [|[| |]]; split; reflexivity. Qed.

Lemma shr_1_inbetween (r : shr_record) (N D : Z) :
  0 <= shr_m r -> 0 < D ->
  inbetween_Z (shr_m r) (loc_of_shr_record r) N D ->
  inbetween_Z (shr_m (shr_1 r)) (loc_of_shr_record (shr_1 r)) N (D * 2) /\
  shr_m (shr_1 r) = shr_m r / 2.
Proof using.
  destruct r as [m rb sb]. cbn [shr_m]. intros Hm HD H.
  destruct m as [|[p|p|]|]; [| | | |lia].
  - destruct rb, sb; cbn [shr_1 orb shr_m loc_of_shr_record inbetween_Z] in *;
      (split; [lia|reflexivity]).
  - assert (Hd : Z.pos p = Z.pos p~1 / 2)
      by (apply Z.div_unique with (r := 1); [lia | rewrite (Pos2Z.inj_xI p); lia]).
    destruct rb, sb; cbn [shr_1 orb shr_m loc_of_shr_record inbetween_Z] in *;
      rewrite (Pos2Z.inj_xI p) in H; (split; [nia|exact Hd]).
  - assert (Hd : Z.pos p = Z.pos p~0 / 2)
      by (apply Z.div_unique with (r := 0); [lia | rewrite (Pos2Z.inj_xO p); lia]).
    destruct rb, sb; cbn [shr_1 orb shr_m loc_of_shr_record inbetween_Z] in *;
      rewrite (Pos2Z.inj_xO p) in H; (split; [nia|exact Hd]).
  - destruct rb, sb; cbn [shr_1 orb shr_m loc_of_shr_record inbetween_Z] in *;
      (split; [lia|reflexivity]).
Qed.

Lemma iter_pos_invariant {A : Type} (f : A -> A) (P : Z -> A -> Prop) :
  (forall k x, 0 <= k -> P k x -> P (k + 1) (f x)) ->
  forall p k x, 0 <= k -> P k x -> P (k + Z.pos p) (SpecFloat.iter_pos f p x).
Proof using.
  intros Hstep. induction p as [p IH | p IH |]; intros k x Hk HP; cbn [SpecFloat.iter_pos].
  - replace (k + Z.pos p~1) with (k + 1 + Z.pos p + Z.pos p) by lia.
    apply IH; [lia|]. apply IH; [lia|]. apply Hstep; assumption.
  - replace (k + Z.pos p~0) with (k + Z.pos p + Z.pos p) by lia.
    apply IH; [lia|]. apply IH; assumption.
  - apply Hstep; assumption.
Qed.

Lemma shr_inbetween (m : Z) (l : location) (e n N D : Z) :
  0 <= m -> 0 < D -> inbetween_Z m l N D ->
  let '(r, e') := shr (shr_record_of_loc m l) e n in
  let k := Z.max 0 n in
  e' = e + k /\ shr_m r = m / 2 ^ k /\ 0 <= shr_m r /\
  inbetween_Z (shr_m r) (loc_of_shr_record r) N (D * 2 ^ k).
Proof using.
  intros Hm HD H. destruct (loc_of_record_of_loc m l) as [Hl Hrm].
  destruct n as [|p|p]; cbn [shr Z.max Z.compare].
  - change (Z.max 0 0) with 0. rewrite Hl, Hrm, Z.div_1_r.
    repeat split; try lia. now rewrite Z.mul_1_r.
  - rewrite Z.max_r by lia.
    pose (P := fun (k : Z) (r : shr_record) =>
                 shr_m r = m / 2 ^ k /\ 0 <= shr_m r /\
                 inbetween_Z (shr_m r) (loc_of_shr_record r) N (D * 2 ^ k)).
    assert (HP : P (0 + Z.pos p) (SpecFloat.iter_pos shr_1 p (shr_record_of_loc m l))).
    { apply iter_pos_invariant; [|lia|].
      - intros k x Hk (Hx1 & Hx2 & Hx3).
        assert (Hpk : 0 < 2 ^ k) by (apply Z.pow_pos_nonneg; lia).
        destruct (shr_1_inbetween x N (D * 2 ^ k) Hx2 ltac:(nia) Hx3) as [Hy1 Hy2].
        unfold P. rewrite Z.pow_add_r by lia. change (2 ^ 1) with 2.
        split; [|split].
        + rewrite Hy2, Hx1. rewrite Z.div_div by lia. reflexivity.
        + rewrite Hy2. apply Z.div_pos; lia.
        + now rewrite Z.mul_assoc.
      - unfold P. rewrite Hl, Hrm. change (2 ^ 0) with 1.
        rewrite Z.div_1_r, Z.mul_1_r. repeat split; [lia | assumption]. }
    destruct HP as (H1 & H2 & H3). rewrite Z.add_0_l in *. repeat split; assumption.
  - rewrite Z.max_l by lia. change (2 ^ 0) with 1.
    rewrite Hl, Hrm, Z.div_1_r, Z.mul_1_r. repeat split; try lia. assumption.
Qed.

Lemma round_nearest_even_spec (m : Z) (l : location) (N D : Z) :
  0 < D -> inbetween_Z m l N D ->
  let mr := round_nearest_even m l in
  m <= mr <= m + 1 /\
  2 * mr * D - D <= 2 * N <= 2 * mr * D + D /\
  (2 * N = (2 * m + 1) * D -> Z.even mr = true).
Proof using.
  intros HD H. destruct l as [|[| |]]; cbn [round_nearest_even inbetween_Z] in *.
  - repeat split; try lia; try nia.
  - destruct (Z.even m) eqn:Hev.
    + repeat split; try lia; try nia. intros _. exact Hev.
    + repeat split; try lia; try nia. intros _.
      rewrite Z.even_add, Hev. reflexivity.
  - repeat split; try lia; try nia.
  - repeat split; try lia; try nia.
Qed.

Lemma fexp_eq (e : Z) : fexp prec emax e = Z.max (e - 53) (-1074).
Proof using. reflexivity. Qed.

Lemma Zdigits2_ge_pow (m k : Z) : 0 <= k -> 2 ^ k <= m -> k + 1 <= Zdigits2 m.
Proof using.
  intros Hk H. assert (Hp : 0 < 2 ^ k) by (apply Z.pow_pos_nonneg; lia).
  pose proof (Zdigits2_spec m ltac:(lia)) as [_ H2].
  pose proof (Zdigits2_nonneg m).
  assert (k < Zdigits2 m) by (apply pow2_lt_inv; lia). lia.
Qed.

Lemma Zdigits2_le_pow (m k : Z) : 0 <= k -> 0 <= m < 2 ^ k -> Zdigits2 m <= k.
Proof using.
  intros Hk [H0 H]. destruct (Z.eq_dec m 0) as [->|Hm]; [exact Hk|].
  pose proof (Zdigits2_spec m ltac:(lia)) as [H1 _].
  pose proof (Zdigits2_pos m ltac:(lia)).
  assert (Zdigits2 m - 1 < k) by (apply pow2_lt_inv; lia). lia.
Qed.

Lemma Zdigits2_mono (m n : Z) : 0 <= m <= n -> Zdigits2 m <= Zdigits2 n.
Proof using.
  intros [H0 H]. destruct (Z.eq_dec n 0) as [->|Hn].
  { replace m with 0 by lia. lia. }
  pose proof (Zdigits2_spec n ltac:(lia)) as [_ H2].
  apply Zdigits2_le_pow; [apply Zdigits2_nonneg | lia].
Qed.

Lemma new_location_spec (B r q N : Z) :
  0 < B -> 0 <= r < B -> N = B * q + r ->
  inbetween_Z q (new_location B r) N B.
Proof using.
  intros HB Hr ->. unfold new_location, new_location_even, new_location_odd.
  destruct (Z.even B) eqn:Hev.
  - destruct (Z.eqb_spec r 0) as [->|Hr0]; cbn [inbetween_Z]; [lia|].
    destruct (Z.compare_spec (2 * r) B); lia.
  - destruct (Z.eqb_spec r 0) as [->|Hr0]; cbn [inbetween_Z]; [lia|].
    destruct (Z.compare_spec (2 * r + 1) B) as [Heq|Hlt|Hgt]; try lia.
    assert (2 * r <> B).
    { intros <-. rewrite Z.even_mul in Hev. discriminate. }
    lia.
Qed.

Lemma SFdiv_core_spec (A B : Z) :
  0 < A -> 0 < B ->
  let '(q, e', loc) := SFdiv_core_binary prec emax A 0 B 0 in
  e' <= 0 /\ 0 <= q /\ inbetween_Z q loc (A * 2 ^ (- e')) B /\
  e' <= fexp prec emax (Zdigits2 q + e').
Proof using.
  intros HA HB. unfold SFdiv_core_binary.
  rewrite !Z.add_0_r, Z.sub_0_r. 
  set (e' := Z.min (fexp prec emax (Zdigits2 A - Zdigits2 B)) 0).
  assert (He' : e' <= 0) by (unfold e'; lia).
  replace (0 - e') with (- e') by lia.
  assert (Hm : match - e' with
               | 0 => A | Z.pos _ => Z.shiftl A (- e') | Z.neg _ => 0 end
               = A * 2 ^ (- e')).
  { rewrite <- Z.shiftl_mul_pow2 by lia.
    destruct (- e') eqn:E; [now rewrite Z.shiftl_0_r | reflexivity | lia]. }
  cbv zeta. rewrite Hm. clear Hm.
  assert (Hp : 0 < 2 ^ (- e')) by (apply Z.pow_pos_nonneg; lia).
  pose proof (Z_div_mod (A * 2 ^ (- e')) B ltac:(lia)) as Hdm.
  destruct (Z.div_eucl (A * 2 ^ (- e')) B) as [q r] eqn:Hqr.
  destruct Hdm as [Heq Hr].
  assert (Hq0 : 0 <= q) by nia.
  split; [exact He'|]. split; [exact Hq0|].
  split; [apply new_location_spec; assumption|].
  assert (Hdq : Zdigits2 A - Zdigits2 B - e' <= Zdigits2 q).
  { pose proof (Zdigits2_nonneg q).
    destruct (Z_le_gt_dec (Zdigits2 A - Zdigits2 B - e') 0) as [|Hpos]; [lia|].
    pose proof (Zdigits2_spec A HA) as [HA1 _].
    pose proof (Zdigits2_spec B HB) as [_ HB2].
    pose proof (Zdigits2_pos A HA). pose proof (Zdigits2_pos B HB).
    assert (Hk : 2 ^ (Zdigits2 A - Zdigits2 B - e' - 1) <= q).
    { assert (Hpk : 0 < 2 ^ (Zdigits2 A - Zdigits2 B - e' - 1))
        by (apply Z.pow_pos_nonneg; lia).
      assert (Hsplit : 2 ^ (Zdigits2 A - Zdigits2 B - e' - 1) * 2 ^ Zdigits2 B
                       = 2 ^ (Zdigits2 A - 1) * 2 ^ (- e')).
      { rewrite <- !Z.pow_add_r by lia. f_equal. lia. }
      assert (Hx1 : B * 2 ^ (Zdigits2 A - Zdigits2 B - e' - 1)
                   < 2 ^ Zdigits2 B * 2 ^ (Zdigits2 A - Zdigits2 B - e' - 1))
        by (apply Z.mul_lt_mono_pos_r; lia).
      assert (Hx2 : 2 ^ (Zdigits2 A - 1) * 2 ^ (- e') <= A * 2 ^ (- e'))
        by (apply Z.mul_le_mono_nonneg_r; lia).
      assert (Hlt : B * 2 ^ (Zdigits2 A - Zdigits2 B - e' - 1) < B * (q + 1))
        by (clear - Hx1 Hx2 Hsplit Heq Hr; gen_pow; lia).
      apply Z.mul_lt_mono_pos_l in Hlt; [|exact HB]. clear - Hlt. lia. }
    apply Zdigits2_ge_pow in Hk; lia. }
  unfold e' at 1. 
  transitivity (fexp prec emax (Zdigits2 A - Zdigits2 B)); [lia|].
  rewrite !fexp_eq. lia.
Qed.

Lemma shift_canonical (m e : Z) :
  0 <= m -> e <= fexp prec emax (Zdigits2 m + e) ->
  let n := fexp prec emax (Zdigits2 m + e) - e in
  fexp prec emax (Zdigits2 (m / 2 ^ n) + (e + n)) = e + n.
Proof using.
  intros Hm He n. rewrite Zdigits2_div_pow by (unfold n; lia).
  pose proof (Zdigits2_nonneg m). unfold n in *. rewrite !fexp_eq in *. lia.
Qed.

Lemma canonical_lt_pow (m e : Z) :
  0 <= m -> fexp prec emax (Zdigits2 m + e) = e -> m < 2 ^ 53 /\ -1074 <= e.
Proof using.
  intros Hm Hc. rewrite fexp_eq in Hc. split; [|lia].
  destruct (Z.eq_dec m 0) as [->|Hm0]; [reflexivity|].
  pose proof (Zdigits2_spec m ltac:(lia)) as [_ H2].
  pose proof (Z.pow_le_mono_r 2 (Zdigits2 m) 53 ltac:(lia) ltac:(lia)). lia.
Qed.

Lemma binary_round_aux_spec (sx : bool) (q e' : Z) (loc : location) (N D : Z) :
  0 <= q -> 0 < D -> inbetween_Z q loc N D ->
  e' <= fexp prec emax (Zdigits2 q + e') ->
  match binary_round_aux prec emax sx q e' loc with
  | S754_zero s =>
      s = sx /\ exists n, 0 <= n /\ e' + n = -1074 /\ 2 * N <= D * 2 ^ n
  | S754_finite s m e =>
      s = sx /\ bounded prec emax m e = true /\
      exists n, 0 <= n /\ e = e' + n /\
        D * 2 ^ n * (2 * Z.pos m - 1) <= 2 * N <= D * 2 ^ n * (2 * Z.pos m + 1)
  | S754_infinity s =>
      s = sx /\
      exists m n, 0 <= n /\ 971 < e' + n /\ 2 ^ 52 <= m /\
        D * 2 ^ n * (2 * m - 1) <= 2 * N
  | S754_nan => False
  end.
Proof using.
  intros Hq HD Hin He.
  unfold binary_round_aux, shr_fexp.
  set (n1 := fexp prec emax (Zdigits2 q + e') - e').
  assert (Hn1 : 0 <= n1) by (unfold n1; lia).
  pose proof (shr_inbetween q loc e' n1 N D Hq HD Hin) as H1.
  destruct (shr (shr_record_of_loc q loc) e' n1) as [r1 e1].
  rewrite Z.max_r in H1 by exact Hn1.
  destruct H1 as (-> & Hm1 & Hm1pos & Hin1).
  pose proof (shift_canonical q e' Hq He) as Hc1. cbv zeta in Hc1.
  fold n1 in Hc1. rewrite <- Hm1 in Hc1.
  assert (Hp1 : 0 < 2 ^ n1) by (apply Z.pow_pos_nonneg; lia).
  pose proof (round_nearest_even_spec (shr_m r1) (loc_of_shr_record r1) N
                (D * 2 ^ n1) ltac:(nia) Hin1) as Hr.
  cbv zeta in Hr.
  set (mr := round_nearest_even (shr_m r1) (loc_of_shr_record r1)) in *.
  destruct Hr as (Hmr & Hbnd & _).
  destruct (canonical_lt_pow _ _ Hm1pos Hc1) as [Hlt1 Hemin].
  set (n2 := fexp prec emax (Zdigits2 mr + (e' + n1)) - (e' + n1)).
  assert (Hdr1 : Zdigits2 (shr_m r1) <= Zdigits2 mr) by (apply Zdigits2_mono; lia).
  assert (Hdr2 : Zdigits2 mr <= 54).
  { apply Zdigits2_le_pow; [lia|]. change (2 ^ 54) with (2 * 2 ^ 53). lia. }
  assert (Hn2 : 0 <= n2 <= 1).
  { unfold n2. rewrite fexp_eq in Hc1 |- *. lia. }
  assert (Hn2one : n2 = 1 -> mr = 2 ^ 53).
  { intros Hone. unfold n2 in Hone. rewrite fexp_eq in Hone.
    assert (Hd : Zdigits2 mr = 54) by lia.
    assert (0 < mr) by (destruct mr; simpl in Hd; lia).
    pose proof (Zdigits2_spec mr ltac:(lia)) as [Hlow _].
    rewrite Hd in Hlow. change (2 ^ (54 - 1)) with (2 ^ 53) in Hlow. lia. }
  pose proof (shr_inbetween mr loc_Exact (e' + n1) n2 mr 1 ltac:(lia) ltac:(lia)
                ltac:(cbn [inbetween_Z]; lia)) as H2.
  destruct (shr (shr_record_of_loc mr loc_Exact) (e' + n1) n2) as [r2 e2].
  rewrite Z.max_r in H2 by lia.
  destruct H2 as (-> & Hm2 & Hm2pos & _).
  assert (Hmul : shr_m r2 * 2 ^ n2 = mr).
  { rewrite Hm2. destruct (Z.eq_dec n2 0) as [Hz|Hne].
    - rewrite Hz. change (2 ^ 0) with 1. rewrite Z.div_1_r. lia.
    - assert (n2 = 1) as Hone by lia. rewrite (Hn2one Hone), Hone. reflexivity. }
  assert (Hc2 : fexp prec emax (Zdigits2 (shr_m r2) + (e' + n1 + n2)) = e' + n1 + n2).
  { destruct (Z.eq_dec n2 0) as [Hz|Hne].
    - rewrite Hm2, Hz. change (2 ^ 0) with 1. rewrite Z.div_1_r, Z.add_0_r.
      unfold n2 in Hz. lia.
    - assert (n2 = 1) as Hone by lia. rewrite Hm2, (Hn2one Hone), Hone.
      change (Zdigits2 (2 ^ 53 / 2 ^ 1)) with 53. rewrite fexp_eq. lia. }
  assert (Hp2 : 1 <= 2 ^ n2).
  { destruct (Z.eq_dec n2 0) as [Hz|Hne]; [rewrite Hz; discriminate|].
    replace n2 with 1 by lia. discriminate. }
  assert (Hpow : 2 ^ (n1 + n2) = 2 ^ n1 * 2 ^ n2) by (apply Z.pow_add_r; lia).
  destruct (shr_m r2) as [|m2|m2] eqn:Em2; [| |lia].
  - split; [reflexivity|]. exists n1.
    assert (mr = 0) by lia. assert (Hz : shr_m r1 = 0) by lia.
    rewrite Hz in Hc1. rewrite fexp_eq in Hc1. cbn [Zdigits2] in Hc1.
    split; [exact Hn1|]. split; [lia|]. nia.
  - destruct (Z.leb_spec (e' + n1 + n2) (emax - prec)) as [Hle|Hgt].
    + split; [reflexivity|]. split.
      * unfold bounded, canonical_mantissa.
        change (Z.pos (digits2_pos m2)) with (Zdigits2 (Z.pos m2)).
        rewrite Hc2, Z.eqb_refl. apply Z.leb_le in Hle. rewrite Hle. reflexivity.
      * exists (n1 + n2). split; [lia|]. split; [lia|].
        rewrite Hpow. clear - Hbnd Hmul HD Hp1 Hp2. gen_pow. nia.
    + split; [reflexivity|]. exists (Z.pos m2), (n1 + n2).
      change (emax - prec) with 971 in Hgt.
      split; [lia|]. split; [lia|]. split.
      * rewrite fexp_eq in Hc2.
        assert (Hd : Zdigits2 (Z.pos m2) = 53) by lia.
        pose proof (Zdigits2_spec (Z.pos m2) ltac:(lia)) as [Hlow _].
        rewrite Hd in Hlow. exact Hlow.
      * rewrite Hpow. clear - Hbnd Hmul HD Hp1 Hp2. gen_pow. nia.
Qed.

Lemma pow2_pos (e : Z) : (0 < pow2 e)%Q.
Proof using. apply Qpower_0_lt. reflexivity. Qed.

Lemma pow2_add (a b : Z) : (pow2 (a + b) == pow2 a * pow2 b)%Q.
Proof using. apply Qpower_plus. discriminate. Qed.

Lemma pow2_inject (n : Z) : 0 <= n -> (inject_Z (2 ^ n) == pow2 n)%Q.
Proof using. intros H. apply (Zpower_Qpower 2 n H). Qed.

Lemma pow2_half (e : Z) : (pow2 (e - 1) == pow2 e * (1 # 2))%Q.
Proof using. unfold pow2. rewrite (Qpower_minus 2 e 1) by discriminate. reflexivity. Qed.

Lemma near_Q (m A B s n : Z) :
  0 < B -> 0 <= s -> 0 <= n ->
  B * 2 ^ n * (2 * m - 1) <= 2 * (A * 2 ^ s) <= B * 2 ^ n * (2 * m + 1) ->
  (Qabs (inject_Z m * pow2 (n - s) - inject_Z A / inject_Z B) <= pow2 (n - s - 1))%Q.
Proof using.
  intros HB Hs Hn [H1 H2].
  assert (H1' : B * 2 ^ n * (2 * m) <= 2 * (A * 2 ^ s) + B * 2 ^ n) by lia.
  assert (H2' : 2 * (A * 2 ^ s) <= B * 2 ^ n * (2 * m) + B * 2 ^ n) by lia.
  clear H1 H2.
  rewrite Zle_Qle in H1', H2'.
  rewrite ?inject_Z_plus, ?inject_Z_mult in H1', H2'.
  assert (HP : (inject_Z (2 ^ n) == pow2 (n - s) * inject_Z (2 ^ s))%Q).
  { rewrite !pow2_inject by lia. rewrite <- pow2_add. now replace (n - s + s) with n by lia. }
  assert (HbQ : (0 < inject_Z B)%Q) by (change 0%Q with (inject_Z 0); rewrite <- Zlt_Qlt; exact HB).
  assert (HSQ : (0 < inject_Z (2 ^ s))%Q) by (rewrite pow2_inject by lia; apply pow2_pos).
  assert (HA : (inject_Z A == inject_Z A / inject_Z B * inject_Z B)%Q).
  { field. intros E. rewrite E in HbQ. discriminate. }
  set (t := (inject_Z A / inject_Z B)%Q) in *.
  set (u := pow2 (n - s)) in *.
  rewrite pow2_half. fold u.
  rewrite HP, HA in H1', H2'.
  set (b := inject_Z B) in *. set (S := inject_Z (2 ^ s)) in *.
  set (mq := inject_Z m) in *.
  assert (HbS : (0 < b * S)%Q) by (apply Qmult_lt_0_compat; assumption).
  assert (E1 : (b * (u * S) * (inject_Z 2 * mq) == b * S * (2 * (mq * u)))%Q) by ring.
  assert (E2 : (inject_Z 2 * (t * b * S) + b * (u * S) == b * S * (2 * t + u))%Q) by ring.
  assert (E3 : (inject_Z 2 * (t * b * S) == b * S * (2 * t))%Q) by ring.
  assert (E4 : (b * (u * S) * (inject_Z 2 * mq) + b * (u * S) == b * S * (2 * (mq * u) + u))%Q) by ring.
  rewrite E1, E2 in H1'. rewrite E3, E4 in H2'.
  apply Qmult_le_l in H1'; [|exact HbS]. apply Qmult_le_l in H2'; [|exact HbS].
  apply Qabs_Qle_condition. clearbody u t mq. clear - H1' H2'.
  split; lra.
Qed.

Lemma int_truediv_cases (a b : Z) :
  a <> 0 -> b <> 0 ->
  match int_truediv a b with
  | inr (S754_zero s) =>
      s = xorb (a <? 0) (b <? 0) /\ Z.abs a * 2 ^ 1075 <= Z.abs b
  | inr (S754_finite s m e) =>
      s = xorb (a <? 0) (b <? 0) /\ bounded prec emax m e = true /\
      exists n k, 0 <= n /\ 0 <= k /\ e = n - k /\
        Z.abs b * 2 ^ n * (2 * Z.pos m - 1) <= 2 * (Z.abs a * 2 ^ k)
          <= Z.abs b * 2 ^ n * (2 * Z.pos m + 1)
  | inl OverflowError => (2 ^ 1024 - 2 ^ 971) * Z.abs b <= Z.abs a
  | _ => False
  end.
Proof using.
  intros Ha Hb. unfold int_truediv.
  destruct (Z.eqb_spec b 0) as [|_]; [contradiction|].
  destruct (Z.eqb_spec a 0) as [|_]; [contradiction|].
  assert (HA : 0 < Z.abs a) by lia. assert (HB : 0 < Z.abs b) by lia.
  pose proof (SFdiv_core_spec (Z.abs a) (Z.abs b) HA HB) as Hcore.
  destruct (SFdiv_core_binary prec emax (Z.abs a) 0 (Z.abs b) 0) as [[q e'] loc].
  destruct Hcore as (He' & Hq & Hin & Hfe).
  pose proof (binary_round_aux_spec (xorb (a <? 0) (b <? 0)) q e' loc
                (Z.abs a * 2 ^ (- e')) (Z.abs b) Hq HB Hin Hfe) as Hr.
  generalize dependent (Z.abs a). generalize dependent (Z.abs b). intros B HB A HA Hin Hr.
  destruct (binary_round_aux prec emax (xorb (a <? 0) (b <? 0)) q e' loc)
    as [s|s| |s m e].
  - destruct Hr as (-> & n & Hn & Hen & Hle). split; [reflexivity|].
    replace (- e') with (n + 1074) in Hle by lia.
    rewrite Z.pow_add_r in Hle by lia.
    assert (Hp : 0 < 2 ^ n) by (apply Z.pow_pos_nonneg; lia).
    change (2 ^ 1075) with (2 * 2 ^ 1074).
    apply (Z.mul_le_mono_pos_r _ _ (2 ^ n) Hp).
    clear - Hle. set (c := 2 ^ 1074) in *. clearbody c. gen_pow. lia.
  - destruct Hr as (-> & m & n & Hn & Hen & Hm & Hle).
    assert (Hk : 0 <= n + e' - 972) by lia.
    replace n with ((n + e' - 972) + (- e') + 972) in Hle by lia.
    rewrite !Z.pow_add_r in Hle by lia.
    assert (Hp : 0 < 2 ^ (- e')) by (apply Z.pow_pos_nonneg; lia).
    assert (Hp' : 1 <= 2 ^ (n + e' - 972)).
    { assert (0 < 2 ^ (n + e' - 972)) by (apply Z.pow_pos_nonneg; lia). lia. }
    apply (Z.mul_le_mono_pos_r _ _ (2 * 2 ^ (- e'))); [lia|].
    change (2 ^ 1024 - 2 ^ 971) with (2 ^ 971 * (2 * 2 ^ 52 - 1)).
    change (2 ^ 972) with (2 * 2 ^ 971) in Hle.
    set (c := 2 ^ 971) in *. assert (Hc : 0 < c) by reflexivity. 
    set (d := 2 ^ 52) in *. assert (Hd : 0 < d) by reflexivity.
    clearbody c d. clear - Hle Hp Hp' HB Hm Hc Hd. gen_pow. 
    assert (H1 : B * (pw0 * pw * (2 * c)) * (2 * d - 1)
                 <= B * (pw0 * pw * (2 * c)) * (2 * m - 1)).
    { apply Z.mul_le_mono_nonneg_l; [|lia].
      apply Z.mul_nonneg_nonneg; [lia|]. apply Z.mul_nonneg_nonneg; [|lia].
      apply Z.mul_nonneg_nonneg; lia. }
    assert (H2 : B * (1 * pw * (2 * c)) * (2 * d - 1)
                 <= B * (pw0 * pw * (2 * c)) * (2 * d - 1)).
    { apply Z.mul_le_mono_nonneg_r; [lia|].
      apply Z.mul_le_mono_nonneg_l; [lia|].
      apply Z.mul_le_mono_nonneg_r; [lia|].
      apply Z.mul_le_mono_nonneg_r; lia. }
    lia.
  - exact Hr.
  - destruct Hr as (-> & Hbd & n & Hn & -> & Hle).
    split; [reflexivity|]. split; [exact Hbd|].
    exists n, (- e'). repeat split; try lia.
Qed.

Lemma Qdiv_abs (a b : Z) :
  b <> 0 ->
  (inject_Z a / inject_Z b ==
   (if xorb (a <? 0) (b <? 0) then -1 else 1) *
   (inject_Z (Z.abs a) / inject_Z (Z.abs b)))%Q.
Proof using.
  intros Hb.
  assert (HbQ : ~ (inject_Z b == 0)%Q).
  { intros E. apply (inject_Z_injective b 0) in E. contradiction. }
  destruct (Z.ltb_spec a 0) as [Ha|Ha], (Z.ltb_spec b 0) as [Hb'|Hb']; cbn [xorb];
    rewrite ?(Z.abs_neq a), ?(Z.abs_eq a), ?(Z.abs_neq b), ?(Z.abs_eq b) by lia;
    rewrite ?inject_Z_opp; field; exact HbQ.
Qed.

Lemma Qabs_sign (s : bool) (y : Q) :
  (Qabs ((if s then -1 else 1) * y) == Qabs y)%Q.
Proof using.
  rewrite Qabs_Qmult.
  destruct s; [change (Qabs (-1)) with 1%Q | change (Qabs 1) with 1%Q]; ring.
Qed.

Lemma int_truediv_nearest (a b : Z) (x : float) :
  int_truediv a b = inr x ->
  b <> 0 /\ valid_binary prec emax x = true /\
  (Qabs (float_value x - inject_Z a / inject_Z b) <= half_ulp x)%Q.
Proof using.
  intros H.
  assert (Hb : b <> 0).
  { intros ->. unfold int_truediv in H. discriminate. }
  split; [exact Hb|].
  destruct (Z.eq_dec a 0) as [->|Ha].
  { unfold int_truediv in H. destruct (Z.eqb_spec b 0); [contradiction|].
    cbn in H. injection H as <-. split; [reflexivity|].
    cbn [float_value half_ulp].
    setoid_replace (0 - inject_Z 0 / inject_Z b)%Q with 0%Q
      using relation Qeq by (unfold Qdiv; ring).
    apply Qlt_le_weak, pow2_pos. }
  pose proof (int_truediv_cases a b Ha Hb) as Hc. rewrite H in Hc.
  assert (HB : 0 < Z.abs b) by lia.
  assert (HBQ : (0 < inject_Z (Z.abs b))%Q)
    by (change 0%Q with (inject_Z 0); rewrite <- Zlt_Qlt; exact HB).
  destruct x as [s|s| |s m e]; cbn [valid_binary float_value half_ulp].
  - destruct Hc as [-> Hle]. split; [reflexivity|].
    rewrite (Qdiv_abs a b Hb).
    setoid_replace (0 - (if xorb (a <? 0) (b <? 0) then -1 else 1) *
                        (inject_Z (Z.abs a) / inject_Z (Z.abs b)))%Q
      with ((if xorb (a <? 0) (b <? 0) then -1 else 1) *
            (0 - inject_Z (Z.abs a) / inject_Z (Z.abs b)))%Q
      using relation Qeq by ring.
    rewrite Qabs_sign.
    assert (Hq : (inject_Z (Z.abs a) / inject_Z (Z.abs b) <= pow2 (-1075))%Q).
    { apply Qle_shift_div_r; [exact HBQ|].
      rewrite Zle_Qle, inject_Z_mult, (pow2_inject 1075) in Hle by lia.
      apply (Qmult_le_l _ _ (pow2 1075)); [apply pow2_pos|].
      rewrite Qmult_assoc, <- pow2_add. change (pow2 (1075 + -1075)) with 1%Q.
      rewrite Qmult_1_l, Qmult_comm. exact Hle. }
    assert (Hq0 : (0 <= inject_Z (Z.abs a) / inject_Z (Z.abs b))%Q).
    { apply Qle_shift_div_l; [exact HBQ|]. rewrite Qmult_0_l.
      change 0%Q with (inject_Z 0). rewrite <- Zle_Qle. lia. }
    apply Qabs_Qle_condition. 
    revert Hq Hq0. generalize (inject_Z (Z.abs a) / inject_Z (Z.abs b))%Q.
    generalize (pow2 (-1075)). intros u t Hq Hq0. split; lra.
  - contradiction.
  - contradiction.
  - destruct Hc as (-> & Hbd & n & k & Hn & Hk & -> & Hle).
    split; [exact Hbd|].
    rewrite (Qdiv_abs a b Hb).
    setoid_replace ((if xorb (a <? 0) (b <? 0) then -1 else 1) *
                    (inject_Z (Z.pos m) * pow2 (n - k)) -
                    (if xorb (a <? 0) (b <? 0) then -1 else 1) *
                    (inject_Z (Z.abs a) / inject_Z (Z.abs b)))%Q
      with ((if xorb (a <? 0) (b <? 0) then -1 else 1) *
            (inject_Z (Z.pos m) * pow2 (n - k) -
             inject_Z (Z.abs a) / inject_Z (Z.abs b)))%Q
      using relation Qeq by ring.
    rewrite Qabs_sign.
    apply near_Q; assumption.
Qed.

Lemma round_tenths_bounds (m p : positive) :
  let d := 2 ^ Z.pos p in
  d * 1 * (2 * round_tenths m (Z.neg p) - 1) <= 2 * (10 * Z.pos m * 1)
    <= d * 1 * (2 * round_tenths m (Z.neg p) + 1).
Proof using.
  intros d. unfold round_tenths. fold d.
  assert (Hd : 0 < d) by (apply Z.pow_pos_nonneg; lia).
  pose proof (Z.div_mod (10 * Z.pos m) d ltac:(lia)) as Hdm.
  pose proof (Z.mod_pos_bound (10 * Z.pos m) d Hd) as Hr.
  cbv zeta.
  set (q := 10 * Z.pos m / d) in *. set (r := (10 * Z.pos m) mod d) in *.
  clearbody q r d.
  destruct (Z.compare_spec (2 * r) d); [destruct (Z.even q)| |]; nia.
Qed.

Lemma round_tenths_nearest (m : positive) (e : Z) :
  (Qabs (inject_Z (round_tenths m e) - 10 * (inject_Z (Z.pos m) * pow2 e)) <= 1 # 2)%Q.
Proof using.
  assert (Hzero : forall x y : Q, (x == y -> Qabs (x - y) <= 1 # 2)%Q).
  { intros x y E. rewrite E. setoid_replace (y - y)%Q with 0%Q using relation Qeq by ring.
    discriminate. }
  destruct e as [|p|p].
  - apply Hzero. unfold round_tenths. change (2 ^ 0) with 1.
    rewrite Z.mul_1_r, inject_Z_mult. change (pow2 0) with 1%Q.
    change (inject_Z 10) with 10%Q. ring.
  - apply Hzero. unfold round_tenths.
    rewrite !inject_Z_mult, (pow2_inject (Z.pos p)) by lia.
    change (inject_Z 10) with 10%Q. ring.
  - pose proof (round_tenths_bounds m p) as Hb. cbv zeta in Hb.
    change 1 with (2 ^ 0) in Hb at 1 2 3.
    apply near_Q in Hb; [| apply Z.pow_pos_nonneg; lia | lia | lia].
    change (pow2 (0 - 0)) with 1%Q in Hb. change (pow2 (0 - 0 - 1)) with (1 # 2)%Q in Hb.
    rewrite pow2_inject in Hb by lia.
    assert (E : (10 * (inject_Z (Z.pos m) * pow2 (Z.neg p)) ==
                 inject_Z (10 * Z.pos m) / pow2 (Z.pos p))%Q).
    { rewrite inject_Z_mult. change (inject_Z 10) with 10%Q.
      change (Z.neg p) with (- Z.pos p). unfold pow2. rewrite Qpower_opp.
      field. apply Qpower_not_0. discriminate. }
    rewrite E. rewrite Qmult_1_r in Hb. exact Hb.
Qed.

(** The place of [N / D] in [m, m + 1] puts it between the two. *)
Lemma inbetween_Z_floor (m : Z) (l : location) (N D : Z) :
  0 < D -> inbetween_Z m l N D -> m * D <= N < (m + 1) * D.
Proof using.
  intros HD H. destruct l as [|[| |]]; cbn [inbetween_Z] in H; nia.
Qed.

(** The two roundings of [binary_round_aux], with the mantissa [f] below
    the quotient kept: the result is [f] or [f + 1] at the canonical
    exponent, renormalised when it reaches [2 ^ 53]. *)
Lemma binary_round_aux_floor (sx : bool) (q e' : Z) (loc : location) (N D : Z) :
  0 <= q -> 0 < D -> inbetween_Z q loc N D ->
  e' <= fexp prec emax (Zdigits2 q + e') ->
  exists f mr n,
    0 <= n /\ 0 <= f /\
    fexp prec emax (Zdigits2 f + (e' + n)) = e' + n /\
    f * (D * 2 ^ n) <= N < (f + 1) * (D * 2 ^ n) /\
    (mr = f \/ mr = f + 1) /\
    2 * mr * (D * 2 ^ n) - D * 2 ^ n <= 2 * N <= 2 * mr * (D * 2 ^ n) + D * 2 ^ n /\
    (2 * N = (2 * f + 1) * (D * 2 ^ n) -> Z.even mr = true) /\
    match binary_round_aux prec emax sx q e' loc with
    | S754_zero _ => mr = 0
    | S754_finite _ m e =>
        (e = e' + n /\ Z.pos m = mr) \/
        (e = e' + n + 1 /\ mr = 2 ^ 53 /\ Z.pos m = 2 ^ 52)
    | S754_infinity _ => True
    | S754_nan => False
    end.
Proof using.
  intros Hq HD Hin He.
  unfold binary_round_aux, shr_fexp.
  set (n1 := fexp prec emax (Zdigits2 q + e') - e').
  assert (Hn1 : 0 <= n1) by (unfold n1; lia).
  pose proof (shr_inbetween q loc e' n1 N D Hq HD Hin) as H1.
  destruct (shr (shr_record_of_loc q loc) e' n1) as [r1 e1].
  rewrite Z.max_r in H1 by exact Hn1.
  destruct H1 as (-> & Hm1 & Hm1pos & Hin1).
  pose proof (shift_canonical q e' Hq He) as Hc1. cbv zeta in Hc1.
  fold n1 in Hc1. rewrite <- Hm1 in Hc1.
  assert (Hp1 : 0 < 2 ^ n1) by (apply Z.pow_pos_nonneg; lia).
  assert (HD1 : 0 < D * 2 ^ n1) by nia.
  pose proof (round_nearest_even_spec (shr_m r1) (loc_of_shr_record r1) N
                (D * 2 ^ n1) HD1 Hin1) as Hr.
  pose proof (inbetween_Z_floor _ _ _ _ HD1 Hin1) as Hfloor.
  cbv zeta in Hr.
  set (mr := round_nearest_even (shr_m r1) (loc_of_shr_record r1)) in *.
  destruct Hr as (Hmr & Hbnd & Heven).
  destruct (canonical_lt_pow _ _ Hm1pos Hc1) as [Hlt1 Hemin].
  set (n2 := fexp prec emax (Zdigits2 mr + (e' + n1)) - (e' + n1)).
  assert (Hdr1 : Zdigits2 (shr_m r1) <= Zdigits2 mr) by (apply Zdigits2_mono; lia).
  assert (Hdr2 : Zdigits2 mr <= 54).
  { apply Zdigits2_le_pow; [lia|]. change (2 ^ 54) with (2 * 2 ^ 53). lia. }
  assert (Hn2 : 0 <= n2 <= 1).
  { unfold n2. rewrite fexp_eq in Hc1 |- *. lia. }
  assert (Hn2one : n2 = 1 -> mr = 2 ^ 53).
  { intros Hone. unfold n2 in Hone. rewrite fexp_eq in Hone.
    assert (Hd : Zdigits2 mr = 54) by lia.
    assert (0 < mr) by (destruct mr; simpl in Hd; lia).
    pose proof (Zdigits2_spec mr ltac:(lia)) as [Hlow _].
    rewrite Hd in Hlow. change (2 ^ (54 - 1)) with (2 ^ 53) in Hlow. lia. }
  pose proof (shr_inbetween mr loc_Exact (e' + n1) n2 mr 1 ltac:(lia) ltac:(lia)
                ltac:(cbn [inbetween_Z]; lia)) as H2.
  destruct (shr (shr_record_of_loc mr loc_Exact) (e' + n1) n2) as [r2 e2].
  rewrite Z.max_r in H2 by lia.
  destruct H2 as (-> & Hm2 & Hm2pos & _).
  exists (shr_m r1), mr, n1.
  split; [exact Hn1|]. split; [exact Hm1pos|]. split; [exact Hc1|].
  split; [exact Hfloor|]. split; [lia|]. split; [exact Hbnd|]. split; [exact Heven|].
  destruct (Z.eq_dec n2 0) as [Hz|Hne].
  - rewrite Hz in Hm2. change (2 ^ 0) with 1 in Hm2. rewrite Z.div_1_r in Hm2.
    rewrite Hm2. destruct mr as [|m|m]; [reflexivity| |lia].
    destruct (Z.leb _ _); [|exact I]. left. split; [lia | reflexivity].
  - assert (Hone : n2 = 1) by lia. rewrite (Hn2one Hone), Hone in Hm2.
    change (2 ^ 53 / 2 ^ 1) with (2 ^ 52) in Hm2. rewrite Hm2.
    change (2 ^ 52) with (Z.pos (2 ^ 52)%positive) at 1. cbv iota.
    destruct (Z.leb _ _); [|exact I]. right.
    split; [lia|]. split; [exact (Hn2one Hone) | reflexivity].
Qed.

Lemma int_truediv_floor (a b : Z) :
  a <> 0 -> b <> 0 ->
  exists f mr n k,
    0 <= n /\ 0 <= k /\ 0 <= f /\
    fexp prec emax (Zdigits2 f + (n - k)) = n - k /\
    f * (Z.abs b * 2 ^ n) <= Z.abs a * 2 ^ k < (f + 1) * (Z.abs b * 2 ^ n) /\
    (mr = f \/ mr = f + 1) /\
    (2 * mr - 1) * (Z.abs b * 2 ^ n) <= 2 * (Z.abs a * 2 ^ k)
      <= (2 * mr + 1) * (Z.abs b * 2 ^ n) /\
    (2 * (Z.abs a * 2 ^ k) = (2 * f + 1) * (Z.abs b * 2 ^ n) -> Z.even mr = true) /\
    match int_truediv a b with
    | inr (S754_zero _) => mr = 0
    | inr (S754_finite _ m e) =>
        (e = n - k /\ Z.pos m = mr) \/
        (e = n - k + 1 /\ mr = 2 ^ 53 /\ Z.pos m = 2 ^ 52)
    | inr _ => False
    | inl OverflowError => True
    | inl ZeroDivisionError => False
    end.
Proof using.
  intros Ha Hb. unfold int_truediv.
  destruct (Z.eqb_spec b 0) as [|_]; [contradiction|].
  destruct (Z.eqb_spec a 0) as [|_]; [contradiction|].
  assert (HA : 0 < Z.abs a) by lia. assert (HB : 0 < Z.abs b) by lia.
  pose proof (SFdiv_core_spec (Z.abs a) (Z.abs b) HA HB) as Hcore.
  destruct (SFdiv_core_binary prec emax (Z.abs a) 0 (Z.abs b) 0) as [[q e'] loc].
  destruct Hcore as (He' & Hq & Hin & Hfe).
  destruct (binary_round_aux_floor (xorb (a <? 0) (b <? 0)) q e' loc
              (Z.abs a * 2 ^ (- e')) (Z.abs b) Hq HB Hin Hfe)
    as (f & mr & n & Hn & Hf & Hc & Hfl & Hmr & Hbnd & Hev & Hres).
  exists f, mr, n, (- e').
  replace (n - - e') with (e' + n) by lia.
  split; [exact Hn|]. split; [lia|]. split; [exact Hf|]. split; [exact Hc|].
  split; [exact Hfl|]. split; [exact Hmr|]. split; [lia|]. split; [exact Hev|].
  destruct (binary_round_aux prec emax (xorb (a <? 0) (b <? 0)) q e' loc)
    as [s|s| |s m e]; [exact Hres | exact I | exact Hres | exact Hres].
Qed.

(** Inequalities between [c * 2 ^ (n - k)] and [A / B], read on integers. *)
Lemma scale_le_Q (c A B n k : Z) :
  0 < B -> 0 <= n -> 0 <= k ->
  c * (B * 2 ^ n) <= A * 2 ^ k <->
  (inject_Z c * pow2 (n - k) <= inject_Z A / inject_Z B)%Q.
Proof using.
  intros HB Hn Hk.
  rewrite Zle_Qle, !inject_Z_mult.
  assert (HP : (inject_Z (2 ^ n) == pow2 (n - k) * inject_Z (2 ^ k))%Q).
  { rewrite !pow2_inject by lia. rewrite <- pow2_add. now replace (n - k + k) with n by lia. }
  assert (HbQ : (0 < inject_Z B)%Q)
    by (change 0%Q with (inject_Z 0); rewrite <- Zlt_Qlt; exact HB).
  assert (HSQ : (0 < inject_Z (2 ^ k))%Q) by (rewrite pow2_inject by lia; apply pow2_pos).
  assert (HA : (inject_Z A == inject_Z A / inject_Z B * inject_Z B)%Q).
  { field. intros E. rewrite E in HbQ. discriminate. }
  set (t := (inject_Z A / inject_Z B)%Q) in *.
  set (u := pow2 (n - k)) in *.
  rewrite HP. rewrite HA at 1.
  set (b := inject_Z B) in *. set (S := inject_Z (2 ^ k)) in *.
  assert (HbS : (0 < b * S)%Q) by (apply Qmult_lt_0_compat; assumption).
  setoid_replace (inject_Z c * (b * (u * S)))%Q with (b * S * (inject_Z c * u))%Q
    using relation Qeq by ring.
  setoid_replace (t * b * S)%Q with (b * S * t)%Q using relation Qeq by ring.
  apply Qmult_le_l. exact HbS.
Qed.

Lemma scale_ge_Q (c A B n k : Z) :
  0 < B -> 0 <= n -> 0 <= k ->
  A * 2 ^ k <= c * (B * 2 ^ n) <->
  (inject_Z A / inject_Z B <= inject_Z c * pow2 (n - k))%Q.
Proof using.
  intros HB Hn Hk.
  rewrite Zle_Qle, !inject_Z_mult.
  assert (HP : (inject_Z (2 ^ n) == pow2 (n - k) * inject_Z (2 ^ k))%Q).
  { rewrite !pow2_inject by lia. rewrite <- pow2_add. now replace (n - k + k) with n by lia. }
  assert (HbQ : (0 < inject_Z B)%Q)
    by (change 0%Q with (inject_Z 0); rewrite <- Zlt_Qlt; exact HB).
  assert (HSQ : (0 < inject_Z (2 ^ k))%Q) by (rewrite pow2_inject by lia; apply pow2_pos).
  assert (HA : (inject_Z A == inject_Z A / inject_Z B * inject_Z B)%Q).
  { field. intros E. rewrite E in HbQ. discriminate. }
  set (t := (inject_Z A / inject_Z B)%Q) in *.
  set (u := pow2 (n - k)) in *.
  rewrite HP. rewrite HA at 1.
  set (b := inject_Z B) in *. set (S := inject_Z (2 ^ k)) in *.
  assert (HbS : (0 < b * S)%Q) by (apply Qmult_lt_0_compat; assumption).
  setoid_replace (inject_Z c * (b * (u * S)))%Q with (b * S * (inject_Z c * u))%Q
    using relation Qeq by ring.
  setoid_replace (t * b * S)%Q with (b * S * t)%Q using relation Qeq by ring.
  apply Qmult_le_l. exact HbS.
Qed.

Lemma pow2_split (c e e0 : Z) :
  e0 <= e -> (inject_Z c * pow2 e == inject_Z (c * 2 ^ (e - e0)) * pow2 e0)%Q.
Proof using.
  intros H. rewrite inject_Z_mult, pow2_inject by lia.
  rewrite <- Qmult_assoc, <- pow2_add. now replace (e - e0 + e0) with e by lia.
Qed.

Lemma bounded_canonical (m : positive) (e : Z) :
  bounded prec emax m e = true ->
  fexp prec emax (Zdigits2 (Z.pos m) + e) = e /\ e <= 971.
Proof using.
  unfold bounded, canonical_mantissa. intros H.
  apply andb_true_iff in H. destruct H as [H1 H2].
  apply Z.eqb_eq in H1. apply Z.leb_le in H2. split; [exact H1 | exact H2].
Qed.

(** No float of the format lies strictly between two neighbours
    [f * 2 ^ e] and [(f + 1) * 2 ^ e] of a canonical exponent [e]. *)
Lemma valid_float_gap (f e1 : Z) (my : positive) (ey : Z) :
  0 <= f -> fexp prec emax (Zdigits2 f + e1) = e1 ->
  bounded prec emax my ey = true ->
  (inject_Z (Z.pos my) * pow2 ey <= inject_Z f * pow2 e1 \/
   inject_Z (f + 1) * pow2 e1 <= inject_Z (Z.pos my) * pow2 ey)%Q.
Proof using.
  intros Hf Hc1 Hy. destruct (bounded_canonical my ey Hy) as [Hcy _].
  destruct (canonical_lt_pow (Z.pos my) ey ltac:(lia) Hcy) as [Hmy Hey].
  destruct (Z_le_gt_dec e1 ey) as [Hle|Hgt].
  - rewrite (pow2_split (Z.pos my) ey e1 Hle).
    assert (Hp : 0 < 2 ^ (ey - e1)) by (apply Z.pow_pos_nonneg; lia).
    destruct (Z_le_gt_dec (Z.pos my * 2 ^ (ey - e1)) f) as [Hk|Hk].
    + left. apply Qmult_le_compat_r; [|apply Qlt_le_weak, pow2_pos].
      rewrite <- Zle_Qle. exact Hk.
    + right. apply Qmult_le_compat_r; [|apply Qlt_le_weak, pow2_pos].
      rewrite <- Zle_Qle. lia.
  - left. rewrite (pow2_split f e1 ey ltac:(lia)).
    apply Qmult_le_compat_r; [|apply Qlt_le_weak, pow2_pos].
    rewrite <- Zle_Qle.
    assert (Hd : Zdigits2 f = 53) by (rewrite fexp_eq in Hc1; lia).
    assert (Hfpos : 0 < f) by (destruct f; simpl in Hd; lia).
    pose proof (Zdigits2_spec f Hfpos) as [Hlow _]. rewrite Hd in Hlow.
    change (2 ^ (53 - 1)) with (2 ^ 52) in Hlow.
    assert (Hp : 2 ^ 1 <= 2 ^ (e1 - ey)) by (apply Z.pow_le_mono_r; lia).
    change (2 ^ 1) with 2 in Hp. change (2 ^ 53) with (2 ^ 52 * 2) in Hmy.
    assert (H1 : 2 ^ 52 * 2 <= f * 2 ^ (e1 - ey)) by (apply Z.mul_le_mono_nonneg; lia).
    lia.
Qed.

Lemma Qabs_abs_diff (x y : Q) : (Qabs (Qabs x - Qabs y) <= Qabs (x - y))%Q.
Proof using.
  apply Qabs_Qle_condition. split.
  - pose proof (Qabs_triangle_reverse y x) as H. rewrite (Qabs_Qminus y x) in H.
    revert H. generalize (Qabs (x - y)), (Qabs x), (Qabs y). intros; lra.
  - apply Qabs_triangle_reverse.
Qed.

(** The magnitude of a float that [valid_binary] accepts is zero or that
    of a bounded mantissa and exponent. *)
Lemma float_magnitude (y : float) :
  valid_binary prec emax y = true ->
  (Qabs (float_value y) == 0)%Q \/
  exists my ey, bounded prec emax my ey = true /\
                (Qabs (float_value y) == inject_Z (Z.pos my) * pow2 ey)%Q.
Proof using.
  destruct y as [s|s| |s my ey]; cbn [valid_binary float_value]; intros H;
    [left; reflexivity | left; reflexivity | left; reflexivity |].
  right. exists my, ey. split; [exact H|].
  rewrite Qabs_sign. apply Qabs_pos.
  apply Qmult_le_0_compat; [|apply Qlt_le_weak, pow2_pos].
  change 0%Q with (inject_Z 0). rewrite <- Zle_Qle. lia.
Qed.

(** What [int_truediv] returns, in the rationals: with [X = |a| / |b|]
    and [u = 2 ^ e1] for a canonical exponent [e1], [X] lies between
    the neighbours [f * u] and [(f + 1) * u], and the result is the one
    of the two, [mr * u], that is nearer, the even one in a tie. *)
Lemma int_truediv_bracket (a b : Z) (x : float) :
  a <> 0 -> int_truediv a b = inr x ->
  exists f mr e1,
    0 <= f /\ fexp prec emax (Zdigits2 f + e1) = e1 /\
    (mr = f \/ mr = f + 1) /\
    (inject_Z f * pow2 e1 <= inject_Z (Z.abs a) / inject_Z (Z.abs b)
     <= inject_Z f * pow2 e1 + pow2 e1)%Q /\
    (inject_Z mr * pow2 e1 - pow2 e1 * (1 # 2)
     <= inject_Z (Z.abs a) / inject_Z (Z.abs b)
     <= inject_Z mr * pow2 e1 + pow2 e1 * (1 # 2))%Q /\
    (float_value x ==
     (if xorb (a <? 0) (b <? 0) then -1 else 1) * (inject_Z mr * pow2 e1))%Q /\
    ((inject_Z (Z.abs a) / inject_Z (Z.abs b)
      == inject_Z f * pow2 e1 + pow2 e1 * (1 # 2))%Q -> Z.even mr = true) /\
    match x with
    | S754_finite _ m e => (e = e1 /\ Z.pos m = mr) \/ (e1 < e /\ Z.pos m = 2 ^ 52)
    | _ => True
    end.
Proof using.
  intros Ha Hx.
  assert (Hb : b <> 0) by (intros ->; discriminate Hx).
  destruct (int_truediv_floor a b Ha Hb)
    as (f & mr & n & k & Hn & Hk & Hf & Hc & Hfl & Hmr & Hbnd & Hev & Hres).
  pose proof (int_truediv_cases a b Ha Hb) as Hsign.
  rewrite Hx in Hres, Hsign.
  assert (HB : 0 < Z.abs b) by lia.
  exists f, mr, (n - k).
  split; [exact Hf|]. split; [exact Hc|]. split; [exact Hmr|].
  set (X := (inject_Z (Z.abs a) / inject_Z (Z.abs b))%Q).
  set (u := pow2 (n - k)).
  assert (Hlo : (inject_Z f * u <= X)%Q).
  { apply (scale_le_Q f (Z.abs a) (Z.abs b) n k HB Hn Hk). lia. }
  assert (Hhi : (X <= inject_Z f * u + u)%Q).
  { setoid_replace (inject_Z f * u + u)%Q with (inject_Z (f + 1) * u)%Q
      using relation Qeq by (rewrite inject_Z_plus; change (inject_Z 1) with 1%Q; ring).
    apply (scale_ge_Q (f + 1) (Z.abs a) (Z.abs b) n k HB Hn Hk). lia. }
  assert (H2X : (inject_Z (2 * Z.abs a) / inject_Z (Z.abs b) == 2 * X)%Q).
  { unfold X. rewrite inject_Z_mult. change (inject_Z 2) with 2%Q. field.
    intros E. apply (inject_Z_injective (Z.abs b) 0) in E. lia. }
  assert (Hb1 : (inject_Z (2 * mr - 1) * u <= 2 * X)%Q).
  { rewrite <- H2X.
    apply (scale_le_Q (2 * mr - 1) (2 * Z.abs a) (Z.abs b) n k HB Hn Hk). lia. }
  assert (Hb2 : (2 * X <= inject_Z (2 * mr + 1) * u)%Q).
  { rewrite <- H2X.
    apply (scale_ge_Q (2 * mr + 1) (2 * Z.abs a) (Z.abs b) n k HB Hn Hk). lia. }
  assert (E1 : (inject_Z (2 * mr - 1) == 2 * inject_Z mr - 1)%Q).
  { unfold Z.sub. rewrite inject_Z_plus, inject_Z_mult. reflexivity. }
  assert (E2 : (inject_Z (2 * mr + 1) == 2 * inject_Z mr + 1)%Q).
  { rewrite inject_Z_plus, inject_Z_mult. reflexivity. }
  rewrite E1 in Hb1. rewrite E2 in Hb2.
  split; [split; assumption|].
  split.
  { clear - Hb1 Hb2. clearbody X u. revert Hb1 Hb2. generalize (inject_Z mr).
    intros M Hb1 Hb2. split; lra. }
  assert (Hval : (float_value x ==
            (if xorb (a <? 0) (b <? 0) then -1 else 1) * (inject_Z mr * u))%Q).
  { destruct x as [s|s| |s m e]; cbn [float_value]; try contradiction.
    - rewrite Hres. change (inject_Z 0) with 0%Q. ring.
    - destruct Hsign as [-> _].
      destruct Hres as [[-> <-] | (-> & -> & ->)]; [reflexivity|].
      rewrite (pow2_split (2 ^ 52) (n - k + 1) (n - k)) by lia.
      replace (n - k + 1 - (n - k)) with 1 by lia. reflexivity. }
  split; [exact Hval|].
  split.
  { intros Htie. apply Hev.
    assert (Hle : (2 * X <= inject_Z (2 * f + 1) * u)%Q).
    { rewrite inject_Z_plus, inject_Z_mult. change (inject_Z 2) with 2%Q.
      change (inject_Z 1) with 1%Q. fold X in Htie. rewrite Htie.
      clear. generalize (inject_Z f). intros F. clearbody u. lra. }
    assert (Hge : (inject_Z (2 * f + 1) * u <= 2 * X)%Q).
    { rewrite inject_Z_plus, inject_Z_mult. change (inject_Z 2) with 2%Q.
      change (inject_Z 1) with 1%Q. fold X in Htie. rewrite Htie.
      clear. generalize (inject_Z f). intros F. clearbody u. lra. }
    rewrite <- H2X in Hle, Hge.
    apply (scale_ge_Q (2 * f + 1) (2 * Z.abs a) (Z.abs b) n k HB Hn Hk) in Hle.
    apply (scale_le_Q (2 * f + 1) (2 * Z.abs a) (Z.abs b) n k HB Hn Hk) in Hge.
    lia. }
  destruct x as [s|s| |s m e]; try exact I.
  destruct Hres as [[-> <-] | (-> & -> & ->)]; [left; split; reflexivity|].
  right. split; [lia | reflexivity].
Qed.

(** No float of the format is nearer to [a / b] than the float that
    [int_truediv] returns. *)
Lemma int_truediv_closest (a b : Z) (x y : float) :
  int_truediv a b = inr x -> valid_binary prec emax y = true ->
  (Qabs (float_value x - inject_Z a / inject_Z b)
   <= Qabs (float_value y - inject_Z a / inject_Z b))%Q.
Proof using.
  intros Hx Hy.
  assert (Hb : b <> 0) by (intros ->; discriminate Hx).
  destruct (Z.eq_dec a 0) as [->|Ha].
  { unfold int_truediv in Hx. destruct (Z.eqb_spec b 0); [contradiction|].
    cbn in Hx. injection Hx as <-. cbn [float_value].
    setoid_replace (0 - inject_Z 0 / inject_Z b)%Q with 0%Q
      using relation Qeq by (unfold Qdiv; ring).
    apply Qabs_nonneg. }
  destruct (int_truediv_bracket a b x Ha Hx)
    as (f & mr & e1 & Hf & Hc & Hmr & [Hlo Hhi] & [Hn1 Hn2] & Hval & _ & _).
  rewrite Hval, (Qdiv_abs a b Hb).
  set (sg := (if xorb (a <? 0) (b <? 0) then -1 else 1)%Q).
  set (X := (inject_Z (Z.abs a) / inject_Z (Z.abs b))%Q) in *.
  assert (HX0 : (0 <= X)%Q).
  { apply Qle_trans with (inject_Z f * pow2 e1)%Q; [|exact Hlo].
    apply Qmult_le_0_compat; [|apply Qlt_le_weak, pow2_pos].
    change 0%Q with (inject_Z 0). rewrite <- Zle_Qle. exact Hf. }
  assert (HabsX : (Qabs (sg * X) == X)%Q).
  { unfold sg. rewrite Qabs_sign. apply Qabs_pos. exact HX0. }
  apply Qle_trans with (Qabs (Qabs (float_value y) - Qabs (sg * X)))%Q;
    [|apply Qabs_abs_diff].
  rewrite HabsX.
  setoid_replace (sg * (inject_Z mr * pow2 e1) - sg * X)%Q
    with (sg * (inject_Z mr * pow2 e1 - X))%Q using relation Qeq by ring.
  unfold sg. rewrite Qabs_sign.
  assert (Hgap : (Qabs (float_value y) <= inject_Z f * pow2 e1 \/
                  inject_Z f * pow2 e1 + pow2 e1 <= Qabs (float_value y))%Q).
  { destruct (float_magnitude y Hy) as [E | (my & ey & Hbd & E)]; rewrite E.
    - left. apply Qmult_le_0_compat; [|apply Qlt_le_weak, pow2_pos].
      change 0%Q with (inject_Z 0). rewrite <- Zle_Qle. exact Hf.
    - destruct (valid_float_gap f e1 my ey Hf Hc Hbd) as [H|H]; [left; exact H|].
      right. rewrite inject_Z_plus in H. change (inject_Z 1) with 1%Q in H.
      revert H. generalize (inject_Z (Z.pos my) * pow2 ey)%Q. intros Y.
      generalize (inject_Z f), (pow2 e1). intros F u H. lra. }
  assert (Hv : (inject_Z mr * pow2 e1 == inject_Z f * pow2 e1 \/
                inject_Z mr * pow2 e1 == inject_Z f * pow2 e1 + pow2 e1)%Q).
  { destruct Hmr as [->| ->]; [left; reflexivity|right].
    rewrite inject_Z_plus. change (inject_Z 1) with 1%Q. ring. }
  clear - Hlo Hhi Hn1 Hn2 Hgap Hv. clearbody X.
  revert Hlo Hhi Hn1 Hn2 Hgap Hv.
  generalize (Qabs (float_value y)). intros Y.
  generalize (inject_Z mr * pow2 e1)%Q. intros v.
  generalize (inject_Z f * pow2 e1)%Q. intros lo.
  generalize (pow2 e1). intros u Hlo Hhi Hn1 Hn2 Hgap Hv.
  apply Qabs_Qle_condition.
  destruct Hgap as [Hg|Hg].
  - assert (HY : (X - Y <= Qabs (Y - X))%Q).
    { rewrite <- Qabs_opp. eapply Qle_trans; [|apply Qle_Qabs]. lra. }
    destruct Hv as [Hv|Hv]; rewrite Hv in *; split; lra.
  - assert (HY : (Y - X <= Qabs (Y - X))%Q) by apply Qle_Qabs.
    destruct Hv as [Hv|Hv]; rewrite Hv in *; split; lra.
Qed.

(** When [a / b] is half-way between two floats, the one returned has
    an even mantissa. *)
Lemma int_truediv_ties_even (a b : Z) (s : bool) (m : positive) (e : Z) :
  int_truediv a b = inr (S754_finite s m e) ->
  (Qabs (float_value (S754_finite s m e) - inject_Z a / inject_Z b)
   == pow2 (e - 1))%Q ->
  Z.even (Z.pos m) = true.
Proof using.
  intros Hx Htie.
  assert (Hb : b <> 0) by (intros ->; discriminate Hx).
  assert (Ha : a <> 0).
  { intros ->. unfold int_truediv in Hx.
    destruct (Z.eqb_spec b 0); [contradiction | discriminate Hx]. }
  destruct (int_truediv_bracket a b _ Ha Hx)
    as (f & mr & e1 & Hf & Hc & Hmr & [Hlo Hhi] & [Hn1 Hn2] & Hval & Hev & Hres).
  destruct Hres as [[-> Hm] | [_ Hm]]; [|rewrite Hm; reflexivity].
  rewrite Hm. apply Hev.
  rewrite Hval, (Qdiv_abs a b Hb) in Htie.
  set (X := (inject_Z (Z.abs a) / inject_Z (Z.abs b))%Q) in *.
  setoid_replace ((if xorb (a <? 0) (b <? 0) then -1 else 1) * (inject_Z mr * pow2 e1)
                  - (if xorb (a <? 0) (b <? 0) then -1 else 1) * X)%Q
    with ((if xorb (a <? 0) (b <? 0) then -1 else 1) * (inject_Z mr * pow2 e1 - X))%Q
    using relation Qeq in Htie by ring.
  rewrite Qabs_sign, pow2_half in Htie.
  assert (Hv : (inject_Z mr * pow2 e1 == inject_Z f * pow2 e1 \/
                inject_Z mr * pow2 e1 == inject_Z f * pow2 e1 + pow2 e1)%Q).
  { destruct Hmr as [->| ->]; [left; reflexivity|right].
    rewrite inject_Z_plus. change (inject_Z 1) with 1%Q. ring. }
  pose proof (pow2_pos e1) as Hu.
  clear - Hlo Hhi Htie Hv Hu. clearbody X.
  revert Hlo Hhi Htie Hv Hu.
  generalize (inject_Z mr * pow2 e1)%Q. intros v.
  generalize (inject_Z f * pow2 e1)%Q. intros lo.
  generalize (pow2 e1). intros u Hlo Hhi Htie Hv Hu.
  destruct (Qlt_le_dec (v - X) 0) as [Hneg|Hpos].
  - pose proof (Qabs_neg (v - X) (Qlt_le_weak _ _ Hneg)) as E.
    revert Htie E. generalize (Qabs (v - X)). intros r Htie E.
    destruct Hv as [Hv|Hv]; lra.
  - pose proof (Qabs_pos (v - X) Hpos) as E.
    revert Htie E. generalize (Qabs (v - X)). intros r Htie E.
    destruct Hv as [Hv|Hv]; lra.
Qed.

(** [OverflowError] needs a quotient at least as large as the largest
    finite float, [2 ^ 1024 - 2 ^ 971]. *)
Lemma int_truediv_overflow (a b : Z) :
  int_truediv a b = inl OverflowError ->
  (2 ^ 1024 - 2 ^ 971) * Z.abs b <= Z.abs a.
Proof using.
  intros H.
  assert (Hb : b <> 0) by (intros ->; discriminate H).
  assert (Ha : a <> 0).
  { intros ->. unfold int_truediv in H.
    destruct (Z.eqb_spec b 0); [contradiction | discriminate H]. }
  pose proof (int_truediv_cases a b Ha Hb) as Hc. rewrite H in Hc. exact Hc.
Qed.

(** The decimal that [format_1f] prints for the quotient, [n / 10] for
    [n = round_tenths m e], is within one twentieth and half a unit in
    the last place of the exact quotient. *)
Lemma int_truediv_tenths (a b : Z) (s : bool) (m : positive) (e : Z) :
  int_truediv a b = inr (S754_finite s m e) ->
  (Qabs ((if s then -1 else 1) * (inject_Z (round_tenths m e) * (1 # 10))
         - inject_Z a / inject_Z b) <= (1 # 20) + pow2 (e - 1))%Q.
Proof using.
  intros H. destruct (int_truediv_nearest a b _ H) as (_ & _ & Hnear).
  cbn [float_value half_ulp] in Hnear.
  pose proof (round_tenths_nearest m e) as Ht.
  rewrite <- (Qabs_sign s) in Ht.
  apply Qabs_Qle_condition in Hnear. apply Qabs_Qle_condition in Ht.
  apply Qabs_Qle_condition.
  revert Hnear Ht. generalize (inject_Z a / inject_Z b)%Q, (pow2 (e - 1)).
  generalize (inject_Z (round_tenths m e)), (inject_Z (Z.pos m) * pow2 e)%Q.
  intros n v q h Hnear Ht. destruct s; split; lra.
Qed.

(** The whole effect of the [kpi] command. *)
Lemma cmd_kpi_run (now : datetime) (w : World) :
  cmd_kpi now w =
  let listed := events_in_range now (dt_add now (mk_timedelta 7 0 0)) (cal w) in
  match average_kpi (sum_kpi listed) listed with
  | inl e => (Raise e, w)
  | inr avg =>
      let head := [line "KPI Summary (next 7 days):";
                   line ("  Events: " ++ str_nat (List.length listed));
                   line ("  Total KPI est: " ++ str_int (sum_kpi listed))] in
      match format_num_1f avg with
      | inl e => (Raise e, add_out w head)
      | inr text => (Ok tt, add_out w (head ++ [line ("  Average KPI est: " ++ text)]))
      end
  end.
Proof.
  unfold cmd_kpi, kpi_events.
  rewrite (bind_run _ _ _ _ _ (cal_list_events_run _ _ _)). cbv zeta.
  destruct (average_kpi _ _) as [e | avg]; [reflexivity|].
  unfold lift_exn at 1. rewrite (bind_run _ _ w w avg) by reflexivity.
  rewrite !(bind_run _ _ _ _ _ (print_run _ _)), !add_out_app.
  destruct (format_num_1f avg) as [e | text]; [reflexivity|].
  unfold lift_exn. rewrite (bind_run _ _ _ _ text eq_refl).
  rewrite print_run, add_out_app. reflexivity.
Qed.

Lemma sum_kpi_from (events : list Event) (acc : Z) :
  fold_left (fun a e => a + get_kpi_estimate e 0) events acc =
  acc + fold_right Z.add 0 (map (fun e => get_kpi_estimate e 0) events).
Proof using.
  revert acc. induction events as [|e rest IH]; intros acc; simpl.
  - lia.
  - rewrite IH. lia.
Qed.

(** C5. Over the events that start in [now, now + 7 days], the [kpi]
    command reports their number, the sum of their [kpi_estimate] values
    and the quotient of the two as the average; it never raises a
    division fault, with no event it reports 0, 0 and 0.0, and with
    events of values 10, 20 and 30 it reports 3, 60 and 20.0.  The
    average is the quotient of the sum by the count: the float [x] that
    is printed is a valid binary64 within half a unit in the last place
    of [sum / count], no valid binary64 is nearer to [sum / count], and
    its mantissa is even when [sum / count] is half-way between two
    floats; the decimal printed for it, [n / 10] with the sign of [x],
    is the nearest multiple of a tenth, hence within [1/20 + half_ulp x]
    of [sum / count]; and the command fails with [OverflowError] only for
    a quotient of at least [2 ^ 1024 - 2 ^ 971], the largest finite
    float. *)
Theorem kpi_command_report (now : datetime) (w : World) :
  let listed := events_in_range now (dt_add now (mk_timedelta 7 0 0)) (cal w) in
  let heading := line "KPI Summary (next 7 days):" in
  (forall w', cmd_kpi now w <> (Raise ZeroDivisionError, w')) /\
  (listed = [] ->
   cmd_kpi now w =
   (Ok tt, add_out w [heading; line "  Events: 0"; line "  Total KPI est: 0";
                      line "  Average KPI est: 0.0"])) /\
  (forall x, listed <> [] ->
     int_truediv (sum_kpi listed) (Z.of_nat (List.length listed)) = inr x ->
     cmd_kpi now w =
     (Ok tt, add_out w [heading;
                        line ("  Events: " ++ str_nat (List.length listed));
                        line ("  Total KPI est: " ++ str_int (sum_kpi listed));
                        line ("  Average KPI est: " ++ format_1f x)])) /\
  (map kpi_estimate listed = [Some 10; Some 20; Some 30] ->
   cmd_kpi now w =
   (Ok tt, add_out w [heading; line "  Events: 3"; line "  Total KPI est: 60";
                      line "  Average KPI est: 20.0"])) /\
  sum_kpi listed = fold_right Z.add 0 (map (fun e => get_kpi_estimate e 0) listed) /\
  (forall x,
     int_truediv (sum_kpi listed) (Z.of_nat (List.length listed)) = inr x ->
     valid_binary prec emax x = true /\
     (Qabs (float_value x
            - inject_Z (sum_kpi listed) / inject_Z (Z.of_nat (List.length listed)))
      <= half_ulp x)%Q /\
     (forall y, valid_binary prec emax y = true ->
        (Qabs (float_value x
               - inject_Z (sum_kpi listed) / inject_Z (Z.of_nat (List.length listed)))
         <= Qabs (float_value y
                  - inject_Z (sum_kpi listed) / inject_Z (Z.of_nat (List.length listed))))%Q)) /\
  (forall s m e,
     int_truediv (sum_kpi listed) (Z.of_nat (List.length listed))
     = inr (S754_finite s m e) ->
     format_1f (S754_finite s m e) =
     ((if s then "-" else EmptyString) ++ str_int (round_tenths m e / 10) ++ "."
      ++ str_int (round_tenths m e mod 10))%string /\
     (Qabs ((if s then -1 else 1) * (inject_Z (round_tenths m e) * (1 # 10))
            - inject_Z (sum_kpi listed) / inject_Z (Z.of_nat (List.length listed)))
      <= (1 # 20) + pow2 (e - 1))%Q /\
     ((Qabs (float_value (S754_finite s m e)
             - inject_Z (sum_kpi listed) / inject_Z (Z.of_nat (List.length listed)))
       == pow2 (e - 1))%Q -> Z.even (Z.pos m) = true)) /\
  (forall w', cmd_kpi now w = (Raise OverflowError, w') ->
     (2 ^ 1024 - 2 ^ 971) * Z.of_nat (List.length listed) <= Z.abs (sum_kpi listed)).
Proof using.
  intros listed heading.
  assert (Hover : forall w', cmd_kpi now w = (Raise OverflowError, w') ->
            (2 ^ 1024 - 2 ^ 971) * Z.of_nat (List.length listed)
            <= Z.abs (sum_kpi listed)).
  { intros w' H. rewrite cmd_kpi_run in H. cbv zeta in H. fold listed in H.
    destruct listed as [|e0 rest]; [discriminate H|].
    unfold average_kpi in H.
    destruct (int_truediv _ _) as [e | x] eqn:Hdiv; [|discriminate H].
    destruct e.
    - now apply int_truediv_no_zero_division in Hdiv.
    - apply int_truediv_overflow in Hdiv. rewrite Z.abs_eq in Hdiv by lia.
      exact Hdiv. }
  split; [|split; [|split; [|split; [|split; [|split; [|split; [|exact Hover]]]]]]];
    clear Hover; rewrite ?cmd_kpi_run; cbv zeta; fold listed.
  - intros w' H.
    pose proof (average_kpi_no_zero_division (sum_kpi listed) listed) as Hz.
    destruct listed as [|e0 rest]; [discriminate H|].
    unfold average_kpi in H, Hz.
    destruct (int_truediv _ _) as [e | x]; [congruence | discriminate H].
  - intros ->. reflexivity.
  - intros x Hne Hx. destruct listed as [|e0 rest]; [congruence|].
    unfold average_kpi. rewrite Hx. reflexivity.
  - intros Hk.
    destruct listed as [|e1 [|e2 [|e3 [|e4 rest]]]]; try discriminate.
    injection Hk as H1 H2 H3.
    unfold sum_kpi, get_kpi_estimate; simpl. rewrite H1, H2, H3. reflexivity.
  - unfold sum_kpi. now rewrite sum_kpi_from.
  - intros x Hx. destruct (int_truediv_nearest _ _ _ Hx) as (_ & Hv & Hn).
    split; [exact Hv|]. split; [exact Hn|].
    intros y Hy. exact (int_truediv_closest _ _ _ y Hx Hy).
  - intros s m e Hx. split; [reflexivity|].
    split; [exact (int_truediv_tenths _ _ _ _ _ Hx)|].
    exact (int_truediv_ties_even _ _ _ _ _ Hx).
Qed.

Lemma cmd_week_run (now : datetime) (w : World) :
  cmd_week now w =
  (Ok tt,
   add_out w
     (line ("Events for next 7 days (" ++ str_date now ++ " — "
            ++ str_date (dt_add now (mk_timedelta 7 0 0)) ++ "):")
      :: map (fun e => line (format_event e))
           (events_in_range now (dt_add now (mk_timedelta 7 0 0)) (cal w)))).
Proof.
  unfold cmd_week, week_events.
  rewrite (bind_run _ _ _ _ _ (cal_list_events_run _ _ _)).
  rewrite (bind_run _ _ _ _ _ (print_run _ _)).
  rewrite for_each_print, add_out_app. reflexivity.
Qed.

(** C10. For a fixed store and a fixed current time the [week] command
    and the [kpi] command query the same window [now, now + 7 days]: both
    obtain the same list of events, [week] prints one line per event of
    that list, and the [Events] line of [kpi] shows the length of that
    list. *)
Theorem week_and_kpi_same_events (now : datetime) (w : World) :
  let listed := events_in_range now (dt_add now (mk_timedelta 7 0 0)) (cal w) in
  week_events now w = (Ok listed, w) /\
  kpi_events now w = (Ok listed, w) /\
  (exists heading,
     cmd_week now w =
     (Ok tt, add_out w (heading :: map (fun e => line (format_event e)) listed))) /\
  (forall w', cmd_kpi now w = (Ok tt, w') ->
     exists total average,
       w' = add_out w [line "KPI Summary (next 7 days):";
                       line ("  Events: " ++ str_nat (List.length listed));
                       total; average]).
Proof.
  intros listed.
  split; [apply cal_list_events_run|]. split; [apply cal_list_events_run|].
  split; [eexists; apply cmd_week_run|].
  intros w'. rewrite cmd_kpi_run. cbv zeta. fold listed.
  destruct (average_kpi _ _) as [e | avg]; [discriminate|].
  destruct (format_num_1f avg) as [e | text]; [discriminate|].
  intros H. injection H as <-. eauto.
Qed.

Lemma known_command_false (cmd : string) :
  known_command cmd = false ->
  String.eqb cmd EmptyString = false /\ String.eqb cmd "exit" = false /\
  String.eqb cmd "quit" = false /\ String.eqb cmd "help" = false /\
  String.eqb cmd "today" = false /\ String.eqb cmd "week" = false /\
  String.eqb cmd "kpi" = false.
Proof.
  unfold known_command. rewrite !orb_false_iff. tauto.
Qed.

Lemma console_body_unknown (now : datetime) (cmd : string) (w : World) :
  known_command cmd = false ->
  console_body now cmd w =
  (Ok Continue,
   add_out w [line ("Unknown command. Type " ++ dquote ++ "help" ++ dquote ++ ".")]).
Proof.
  intros H. apply known_command_false in H.
  destruct H as (H1 & H2 & H3 & H4 & H5 & H6 & H7).
  unfold console_body. rewrite H1, H2, H3, H4, H5, H6, H7. reflexivity.
Qed.

Lemma console_loop_cons (i : console_input) (rest : list console_input) :
  console_loop (i :: rest) =
  bind (write "> ") (fun _ =>
    bind (console_body (in_now i) (lower (strip (in_line i)))) (fun c =>
      match c with
      | Continue => console_loop rest
      | Break => ret tt
      end)).
Proof. reflexivity. Qed.

(** C8. The digest job and every console command (today, week, kpi,
    help, exit, quit, the empty line and any unknown command), and hence
    the whole console session, leave the event store as it was.  An
    unknown command only writes the diagnostic line and lets the loop
    continue: the session goes on exactly as it would have without that
    line of input, with the prompt and the diagnostic added to the
    output. *)
Theorem readers_leave_store_unchanged :
  (forall now w, cal (snd (daily_digest now w)) = cal w) /\
  (forall now cmd w, cal (snd (console_body now cmd w)) = cal w) /\
  (forall inputs w, cal (snd (interactive_console inputs w)) = cal w) /\
  (forall now cmd w,
     known_command cmd = false ->
     console_body now cmd w =
     (Ok Continue,
      add_out w [line ("Unknown command. Type " ++ dquote ++ "help" ++ dquote ++ ".")])) /\
  (forall i rest w,
     known_command (lower (strip (in_line i))) = false ->
     console_loop (i :: rest) w =
     console_loop rest
       (add_out w ["> "; line ("Unknown command. Type " ++ dquote ++ "help"
                                ++ dquote ++ ".")])).
Proof.
  split; [intros now w; apply frames_daily_digest|].
  split; [intros now cmd w; apply frames_console_body|].
  split.
  { intros inputs w. unfold interactive_console.
    apply (frames_bind (print _) _); [auto with frame|]. intros _.
    apply frames_bind; [auto with frame|]. intros _.
    apply frames_console_loop. }
  split; [intros; now apply console_body_unknown|].
  intros i rest w H. rewrite console_loop_cons.
  rewrite (bind_run _ _ _ _ _ (write_run _ _)).
  rewrite (bind_run _ _ _ _ _ (console_body_unknown _ _ _ H)).
  now rewrite add_out_app.
Qed.

(* ===================================================================== *)
(** * The demo run                                                        *)
(* ===================================================================== *)

Lemma Qltb_true (x y : Q) : Qltb x y = true <-> (x < y)%Q.
Proof.
  unfold Qltb. rewrite negb_true_iff.
  destruct (Qle_bool y x) eqn:E.
  - apply Qle_bool_iff in E. split; [discriminate | intros; exfalso; lra].
  - split; [|reflexivity]. intros _. apply Qnot_le_lt. intros H.
    apply Qle_bool_iff in H. congruence.
Qed.

Lemma Qltb_false (x y : Q) : Qltb x y = false <-> (y <= x)%Q.
Proof.
  unfold Qltb. rewrite negb_false_iff. apply Qle_bool_iff.
Qed.

Lemma inject_Z_of_nat_S (n : nat) :
  (inject_Z (Z.of_nat (S n)) == inject_Z (Z.of_nat n) + 1)%Q.
Proof. rewrite Nat2Z.inj_succ. unfold Z.succ. now rewrite inject_Z_plus. Qed.

Lemma digest_count_app (a b : list string) :
  digest_count (a ++ b) = (digest_count a + digest_count b)%nat.
Proof. unfold digest_count. now rewrite List.filter_app, length_app. Qed.

Lemma digest_count_event_lines (events : list Event) :
  digest_count (map (fun e => line (format_event e)) events) = 0%nat.
Proof. induction events as [|e rest IH]; [reflexivity | exact IH]. Qed.

Lemma realtime_alert_run (now : datetime) (evt : Event) (action : string) (w : World) :
  realtime_alert now evt action w =
  (Ok tt,
   add_out w [line (nl ++ str_mul "!" 10);
              line ("REAL-TIME ALERT — event " ++ action ++ " at "
                    ++ strftime now "%Y-%m-%d %H:%M:%S %Z");
              line (format_event evt);
              line (str_mul "!" 10 ++ nl)]).
Proof.
  unfold realtime_alert.
  rewrite !(bind_run _ _ _ _ _ (print_run _ _)).
  rewrite print_run, !add_out_app. reflexivity.
Qed.

(** One round of the alert loop: the clock advances by the sleep, the
    output grows by lines that are no digest header, and nothing fails. *)
Lemma demo_round_run (env : round_env) (w : World) :
  exists evs out,
    demo_round env w =
    (Ok tt, {| cal := evs; stdout := stdout w ++ out;
               clock := (clock w + (env_uniform env + env_late env))%Q |}) /\
    digest_count out = 0%nat.
Proof.
  unfold demo_round, bind at 1, time_sleep.
  destruct (env_coin env).
  - unfold bind at 1, cal_call; cbn [cal stdout clock].
    destruct (simulate_new_event _ _ _ (cal w)) as [evt evs].
    rewrite realtime_alert_run. unfold add_out; cbn [cal stdout clock].
    do 2 eexists. split; [reflexivity | reflexivity].
  - unfold bind at 1, cal_call; cbn [cal stdout clock].
    destruct (simulate_update_event _ _ _ (cal w)) as [[evt|] evs].
    + rewrite realtime_alert_run. unfold add_out; cbn [cal stdout clock].
      do 2 eexists. split; reflexivity.
    + exists evs, []. rewrite app_nil_r. split; reflexivity.
Qed.

(** The loop of the demo is a bounded sequence of rounds. *)
Lemma demo_loop_run (late_max : Q) (start : Q) (duration : Z) (envs : list round_env) :
  Forall (round_ok late_max) envs ->
  forall w,
    (inject_Z duration - (clock w - start)
     <= 2 * inject_Z (Z.of_nat (List.length envs)))%Q ->
    exists (rounds : nat) (w' : World) (out : list string),
      demo_loop start duration envs w = (Ok tt, w') /\
      demo_loop start duration envs w = for_each (firstn rounds envs) demo_round w /\
      stdout w' = stdout w ++ out /\ digest_count out = 0%nat /\
      (inject_Z duration <= clock w' - start)%Q /\
      ((rounds = 0%nat /\ clock w' = clock w) \/
       (2 * inject_Z (Z.of_nat rounds) + (clock w - start) < inject_Z duration + 2 /\
        clock w' - start < inject_Z duration + 6 + late_max)%Q).
Proof.
  induction 1 as [|env rest Hok Hrest IH]; intros w Hfuel.
  - exists 0%nat, w, []. cbn [demo_loop]. unfold bind at 1 2, time_time.
    change (inject_Z (Z.of_nat (List.length (@nil round_env)))) with 0%Q in Hfuel.
    destruct (Qltb (clock w - start) (inject_Z duration)) eqn:E.
    + apply Qltb_true in E. exfalso. lra.
    + apply Qltb_false in E. rewrite app_nil_r. auto 10.
  - cbn [demo_loop]. unfold bind at 1 3, time_time.
    destruct (Qltb (clock w - start) (inject_Z duration)) eqn:E.
    + apply Qltb_true in E.
      destruct (demo_round_run env w) as (evs & out1 & Hround & Hcount1).
      destruct Hok as (Hu1 & Hu2 & Hl1 & Hl2).
      set (w1 := {| cal := evs; stdout := stdout w ++ out1;
                    clock := (clock w + (env_uniform env + env_late env))%Q |}) in *.
      pose proof (inject_Z_of_nat_S (List.length rest)) as HS.
      cbn [List.length] in Hfuel.
      destruct (IH w1) as (n & w' & out2 & Hrun & Hseq & Hout & Hcount2 & Hend & Hn).
      { unfold w1; cbn [clock]. lra. }
      exists (S n), w', (out1 ++ out2).
      rewrite (bind_run _ _ _ _ _ Hround).
      split; [exact Hrun|]. split.
      { cbn [firstn for_each]. rewrite (bind_run _ _ _ _ _ Hround). exact Hseq. }
      split; [rewrite Hout; cbn [stdout w1]; now rewrite app_assoc|].
      split; [rewrite digest_count_app, Hcount1, Hcount2; reflexivity|].
      split; [exact Hend|]. right.
      pose proof (inject_Z_of_nat_S n) as HSn.
      cbn [clock w1] in Hn.
      destruct Hn as [[-> Hc] | [Hn1 Hn2]].
      * rewrite Hc. change (inject_Z (Z.of_nat 1)) with 1%Q. lra.
      * split; [|exact Hn2]. lra.
    + apply Qltb_false in E.
      exists 0%nat, w, []. rewrite app_nil_r. auto 10.
Qed.

(** C9. Demo mode prints its banner, runs the daily digest once, before
    the first reading of the clock, then runs a bounded number of alert
    rounds and finishes.  Every round sleeps for at least 2 time units,
    so with a duration of [d] at most [d/2] rounds (rounded up) are run,
    15 for the configured 30; the loop ends as soon as [d] time units
    have elapsed, at most one round (6 units and the lateness of the
    sleep) past [d]; the output shows exactly one digest. *)
Theorem run_demo_terminates
        (duration : Z) (late_max : Q) (digest_now : datetime)
        (envs : list round_env) (w : World) :
  0 <= duration -> (0 <= late_max)%Q ->
  Forall (round_ok late_max) envs ->
  duration <= 2 * Z.of_nat (List.length envs) ->
  let banner := ("Starting demo run (will run for approx " ++ str_int duration
                 ++ " seconds)...")%string in
  exists (rounds : nat) (w' : World) (alerts : list string),
    run_demo duration digest_now envs w = (Ok tt, w') /\
    run_demo duration digest_now envs w =
      bind (print banner) (fun _ =>
      bind (daily_digest digest_now) (fun _ =>
      bind (for_each (firstn rounds envs) demo_round) (fun _ =>
      print "Demo finished. Exiting."))) w /\
    2 * Z.of_nat rounds < duration + 2 /\
    stdout w' =
      stdout (snd (bind (print banner) (fun _ => daily_digest digest_now) w))
      ++ alerts ++ [line "Demo finished. Exiting."] /\
    digest_count alerts = 0%nat /\
    digest_count (stdout w') = S (digest_count (stdout w)) /\
    (inject_Z duration <= clock w' - clock w)%Q /\
    (clock w' - clock w < inject_Z duration + 6 + late_max)%Q.
Proof.
  intros Hd Hlate Hok Hfuel banner.
  unfold run_demo. fold banner.
  rewrite !(bind_run _ _ _ _ _ (print_run banner w)).
  rewrite !(bind_run _ _ _ _ _ (daily_digest_run digest_now _)).
  rewrite add_out_app.
  set (digest := [line (nl ++ str_mul "=" 40);
                  line ("DAILY DIGEST — " ++ strftime digest_now "%Y-%m-%d (%Z) %H:%M")]
                 ++ _ ++ [line (str_mul "=" 40 ++ nl)]).
  assert (Hdigest : digest_count digest = 1%nat).
  { unfold digest. rewrite !digest_count_app.
    destruct (events_in_range _ _ _) as [|e rest]; [reflexivity|].
    now rewrite (digest_count_event_lines (e :: rest)). }
  set (w2 := add_out w ([line banner] ++ digest)).
  unfold bind at 1, time_time. change (clock w2) with (clock w).
  destruct (demo_loop_run late_max (clock w) duration envs Hok w2)
    as (n & w3 & out & Hrun & Hseq & Hout & Hcount & Hend & Hn).
  { change (clock w2) with (clock w).
    assert (H : (inject_Z duration <= inject_Z (2 * Z.of_nat (List.length envs)))%Q)
      by (rewrite <- Zle_Qle; exact Hfuel).
    rewrite inject_Z_mult in H. change (inject_Z 2) with 2%Q in H. lra. }
  exists n, (add_out w3 [line "Demo finished. Exiting."]), out.
  split; [now rewrite (bind_run _ _ _ _ _ Hrun), print_run|].
  split.
  { rewrite (bind_run _ _ _ _ _ (print_run banner w)).
    rewrite (bind_run _ _ _ _ _ (daily_digest_run digest_now _)).
    rewrite add_out_app. fold digest. fold w2.
    unfold bind. cbn beta iota. change (clock w2) with (clock w).
    now rewrite <- Hseq. }
  change (clock w2) with (clock w) in Hn.
  split.
  { destruct Hn as [[-> _] | [Hn _]]; [simpl; lia|].
    rewrite Zlt_Qlt, inject_Z_plus, inject_Z_mult.
    change (inject_Z 2) with 2%Q. lra. }
  split.
  { rewrite daily_digest_run, add_out_app. fold digest. fold w2.
    cbn [stdout add_out snd]. rewrite Hout. now rewrite <- !app_assoc. }
  split; [exact Hcount|].
  split.
  { cbn [stdout add_out]. rewrite Hout. cbn [stdout add_out w2].
    rewrite !digest_count_app, Hdigest, Hcount.
    change (digest_count [line banner]) with 0%nat.
    change (digest_count [line "Demo finished. Exiting."]) with 0%nat. lia. }
  cbn [clock add_out].
  split; [exact Hend|].
  destruct Hn as [[_ Hc] | [_ Hn]]; [|exact Hn].
  rewrite Hc. change (clock w2) with (clock w).
  assert (H : (0 <= inject_Z duration)%Q)
    by (change 0%Q with (inject_Z 0); rewrite <- Zle_Qle; exact Hd).
  lra.
Qed.

(* ===================================================================== *)
(** * Further invariants of the store                                     *)
(* ===================================================================== *)

Lemma hour_later (day h : Z) :
  0 <= h < 23 ->
  dt_add (mkdatetime day h 0 0 0) (mk_timedelta 0 1 0) = mkdatetime day (h + 1) 0 0 0.
Proof using.
  intros Hh. apply dt_add_eq; [unfold valid_datetime; simpl; lia|].
  unfold to_microseconds; simpl. unfold_units. lia.
Qed.

Lemma seed_event_ok (now : datetime) (i : nat) (r : Z) : event_ok (seed_event now i r).
Proof using.
  unfold event_ok, seed_event, replace_time; cbn [start end_ kpi_estimate hour minute
    second microsecond ordinal].
  rewrite hour_later by lia.
  split; [left; reflexivity|]. do 4 (split; [reflexivity|]).
  eexists. split; [reflexivity|].
  pose proof (randint_range 10 200 r ltac:(lia)). lia.
Qed.

Lemma new_event_ok (now : datetime) (r_days r_kpi : Z) (events : store) :
  event_ok (fst (simulate_new_event now r_days r_kpi events)).
Proof using.
  unfold event_ok, simulate_new_event, replace_time; cbn [fst start end_ kpi_estimate
    hour minute second microsecond ordinal].
  rewrite hour_later by lia.
  split; [right; reflexivity|]. do 4 (split; [reflexivity|]).
  eexists. split; [reflexivity|].
  pose proof (randint_range 5 300 r_kpi ltac:(lia)). lia.
Qed.

Lemma updated_event_ok (now : datetime) (r_bump : Z) (e : Event) :
  event_ok e ->
  event_ok (set_kpi_estimate (get_kpi_estimate e 10 + randint 1 50 r_bump)
              (set_updated now e)).
Proof using.
  intros (Hh & Hm & Hs & Hu & He & k & Hk & Hk5).
  unfold event_ok; cbn [start end_ kpi_estimate set_kpi_estimate set_updated].
  do 5 (split; [assumption|]).
  eexists. split; [reflexivity|].
  unfold get_kpi_estimate. rewrite Hk.
  pose proof (randint_range 1 50 r_bump ltac:(lia)). lia.
Qed.

Lemma event_ok_step (o : store_op) (events : store) :
  Forall event_ok events -> Forall event_ok (apply_op o events).
Proof using.
  intros Hall. destruct o as [now r_days r_kpi | now r_choice r_bump].
  - change (apply_op (OpNew now r_days r_kpi) events)
      with (events ++ [fst (simulate_new_event now r_days r_kpi events)]).
    apply Forall_app. split; [exact Hall|].
    constructor; [apply new_event_ok | constructor].
  - destruct events as [|e0 rest]; [exact Hall|].
    destruct (simulate_update_event_nonempty now r_choice r_bump (e0 :: rest))
      as (i & e & e' & _ & Hi & Hs & ->); [discriminate|].
    unfold apply_op. rewrite Hs. cbn [snd].
    apply Forall_insert; [exact Hall|].
    apply updated_event_ok.
    rewrite Forall_lookup in Hall. exact (Hall i e Hi).
Qed.

Lemma reachable_event_ok (events : store) :
  reachable events -> Forall event_ok events.
Proof using.
  intros (now & rnd & ops & ->).
  induction ops as [|o ops IH] using rev_ind.
  - change (run_ops [] (init now rnd)) with (init now rnd).
    rewrite init_events. apply Forall_fmap, Forall_forall.
    intros i _. apply seed_event_ok.
  - rewrite run_ops_snoc. now apply event_ok_step.
Qed.

Lemma event_ok_times (e : Event) :
  event_ok e ->
  valid_datetime (start e) /\ valid_datetime (end_ e) /\
  (start e < end_ e)%dt /\ dt_diff (end_ e) (start e) = mk_timedelta 0 1 0.
Proof using.
  intros (Hh & Hm & Hs & Hu & He & _). rewrite He.
  unfold valid_datetime, dt_diff, to_microseconds; cbn [hour minute second microsecond
    ordinal].
  rewrite dt_lt_fields; cbn [hour minute second microsecond ordinal].
  rewrite Hm, Hs, Hu. unfold_units. lia.
Qed.

Lemma reachable_length (events : store) :
  reachable events -> (10 <= List.length events)%nat.
Proof using.
  intros (now & rnd & ops & ->).
  induction ops as [|o ops IH] using rev_ind.
  - change (run_ops [] (init now rnd)) with (init now rnd).
    rewrite init_length. lia.
  - rewrite run_ops_snoc. pose proof (apply_op_length o (run_ops ops (init now rnd))).
    lia.
Qed.

(** X1. Every event of every store the program can hold is well formed:
    the event at position [i] has the identifier made from [i + 1], it
    starts at 09:00 or 10:00 sharp, it ends exactly one hour after its
    start (so [start < end]), and it has an estimate of at least 5, so
    the defaults of [e.get] are never used. *)
Theorem reachable_events_well_formed (events : store) (i : nat) (e : Event) :
  reachable events -> events !! i = Some e ->
  evt_id e = ("evt-" ++ str_nat (S i))%string /\
  event_ok e /\
  (start e < end_ e)%dt /\
  dt_diff (end_ e) (start e) = mk_timedelta 0 1 0 /\
  (forall dflt, 5 <= get_kpi_estimate e dflt).
Proof using.
  intros Hr Hi.
  assert (Hok : event_ok e).
  { pose proof (reachable_event_ok events Hr) as Hall.
    rewrite Forall_lookup in Hall. exact (Hall i e Hi). }
  split; [now apply (reachable_ids_sequential events Hr)|].
  split; [exact Hok|].
  destruct (event_ok_times e Hok) as (_ & _ & Hlt & Hd).
  split; [exact Hlt|]. split; [exact Hd|].
  intros dflt. destruct Hok as (_ & _ & _ & _ & _ & k & Hk & Hk5).
  unfold get_kpi_estimate. now rewrite Hk.
Qed.

Lemma same_identity_refl (e : Event) : same_identity e e.
Proof using. unfold same_identity. auto. Qed.

Lemma same_identity_trans (e1 e2 e3 : Event) :
  same_identity e1 e2 -> same_identity e2 e3 -> same_identity e1 e3.
Proof using.
  unfold same_identity. intros (A1 & A2 & A3 & A4) (B1 & B2 & B3 & B4).
  repeat split; congruence.
Qed.

(** One call keeps every stored event at its position, with its identity
    and with an estimate that is not smaller. *)
Lemma apply_op_persist (o : store_op) (events : store) (i : nat) (e : Event) :
  events !! i = Some e ->
  exists e', apply_op o events !! i = Some e' /\ same_identity e e' /\
             (forall k, kpi_estimate e = Some k ->
                        exists k', kpi_estimate e' = Some k' /\ k <= k').
Proof using.
  intros Hi. destruct o as [now r_days r_kpi | now r_choice r_bump].
  - exists e. split; [|split; [apply same_identity_refl|]].
    + change (apply_op (OpNew now r_days r_kpi) events)
        with (events ++ [fst (simulate_new_event now r_days r_kpi events)]).
      now apply lookup_app_l_Some.
    + intros k Hk. exists k. split; [exact Hk | lia].
  - destruct events as [|e0 rest]; [discriminate Hi|].
    destruct (simulate_update_event_nonempty now r_choice r_bump (e0 :: rest))
      as (j & ej & e' & Hlt & Hj & Hs & ->); [discriminate|].
    unfold apply_op. rewrite Hs. cbn [snd].
    destruct (decide (j = i)) as [-> | Hne].
    + rewrite list_lookup_insert_eq by exact Hlt.
      assert (ej = e) as -> by congruence.
      eexists. split; [reflexivity|].
      split; [unfold same_identity; cbn; auto|].
      intros k Hk. eexists. split; [reflexivity|].
      unfold get_kpi_estimate; cbn [kpi_estimate set_updated]. rewrite Hk.
      pose proof (randint_range 1 50 r_bump ltac:(lia)). lia.
    + rewrite list_lookup_insert_ne by exact Hne.
      exists e. split; [exact Hi|]. split; [apply same_identity_refl|].
      intros k Hk. exists k. split; [exact Hk | lia].
Qed.

Lemma apply_op_length_exact (o : store_op) (events : store) :
  List.length (apply_op o events) =
  (List.length events + if is_new o then 1 else 0)%nat.
Proof using.
  destruct o as [now r_days r_kpi | now r_choice r_bump]; cbn [is_new].
  - change (apply_op (OpNew now r_days r_kpi) events)
      with (events ++ [fst (simulate_new_event now r_days r_kpi events)]).
    rewrite length_app. reflexivity.
  - destruct events as [|e0 rest]; [reflexivity|].
    destruct (simulate_update_event_nonempty now r_choice r_bump (e0 :: rest))
      as (j & ej & e' & _ & _ & Hs & _); [discriminate|].
    unfold apply_op. rewrite Hs. cbn [snd]. rewrite length_insert. lia.
Qed.

(** X2. Along any history the store only grows, by exactly one event per
    call of [simulate_new_event]; every event stays at its position with
    the same identifier, summary, start and end, and its estimate never
    decreases. *)
Theorem history_keeps_events (ops : list store_op) (events : store) :
  List.length (run_ops ops events) = (List.length events + count_new ops)%nat /\
  forall i e, events !! i = Some e ->
    exists e', run_ops ops events !! i = Some e' /\ same_identity e e' /\
               (forall k, kpi_estimate e = Some k ->
                          exists k', kpi_estimate e' = Some k' /\ k <= k').
Proof using.
  revert events. induction ops as [|o ops IH]; intros events.
  - split; [unfold count_new; simpl; lia|].
    intros i e Hi. exists e. split; [exact Hi|]. split; [apply same_identity_refl|].
    intros k Hk. exists k. split; [exact Hk | lia].
  - change (run_ops (o :: ops) events) with (run_ops ops (apply_op o events)).
    destruct (IH (apply_op o events)) as [Hlen Hkeep]. split.
    + rewrite Hlen, apply_op_length_exact. unfold count_new. simpl.
      destruct (is_new o); simpl; lia.
    + intros i e Hi.
      destruct (apply_op_persist o events i e Hi) as (e1 & H1 & Hid1 & Hk1).
      destruct (Hkeep i e1 H1) as (e2 & H2 & Hid2 & Hk2).
      exists e2. split; [exact H2|].
      split; [eapply same_identity_trans; eauto|].
      intros k Hk. destruct (Hk1 k Hk) as (k1 & Hk1' & Hle1).
      destruct (Hk2 k1 Hk1') as (k2 & Hk2' & Hle2).
      exists k2. split; [exact Hk2' | lia].
Qed.

(** X3. In the running program [simulate_update_event] never returns
    [None]: a store the program can hold has at least the ten seeded
    events, so the call always updates and returns one of them. *)
Theorem update_finds_an_event
        (now : datetime) (r_choice : nat) (r_bump : Z) (events : store) :
  reachable events ->
  (10 <= List.length events)%nat /\
  exists i e e',
    events !! i = Some e /\
    simulate_update_event now r_choice r_bump events = (Some e', <[i := e']> events) /\
    same_identity e e'.
Proof using.
  intros Hr. pose proof (reachable_length events Hr) as Hlen.
  split; [exact Hlen|].
  destruct (simulate_update_event_nonempty now r_choice r_bump events)
    as (i & e & e' & _ & Hi & Hs & ->).
  { intros ->. simpl in Hlen. lia. }
  exists i, e. eexists. split; [exact Hi|]. split; [exact Hs|].
  unfold same_identity; cbn; auto.
Qed.

(** X4. The identifiers of a store the program can hold are pairwise
    distinct. *)
Theorem reachable_ids_unique (events : store) :
  reachable events -> NoDup (evt_id <$> events).
Proof using.
  intros Hr. apply NoDup_alt. intros i j x Hi Hj.
  rewrite list_lookup_fmap in Hi, Hj.
  destruct (events !! i) as [ei|] eqn:Ei; [|discriminate].
  destruct (events !! j) as [ej|] eqn:Ej; [|discriminate].
  cbn in Hi, Hj. injection Hi as Hi. injection Hj as Hj.
  rewrite (reachable_ids_sequential events Hr i ei Ei) in Hi.
  rewrite (reachable_ids_sequential events Hr j ej Ej) in Hj.
  rewrite <- Hj in Hi. injection Hi as Hi. apply str_nat_inj in Hi. lia.
Qed.

(* ===================================================================== *)
(** * Listings and writes                                                 *)
(* ===================================================================== *)

Lemma events_in_range_app (a b : datetime) (l1 l2 : store) :
  events_in_range a b (l1 ++ l2) = events_in_range a b l1 ++ events_in_range a b l2.
Proof using. unfold events_in_range. apply List.filter_app. Qed.

Lemma events_in_range_insert (a b : datetime) (events : store) (i : nat) (e e' : Event) :
  events !! i = Some e -> start e' = start e -> evt_id e' = evt_id e ->
  evt_id <$> events_in_range a b (<[i := e']> events) =
  evt_id <$> events_in_range a b events.
Proof using.
  unfold events_in_range. intros Hi Hs Hid.
  assert (Hr : in_range a b e' = in_range a b e)
    by (unfold in_range; now rewrite Hs).
  revert i Hi. induction events as [|x rest IH]; intros i Hi; [discriminate Hi|].
  destruct i as [|i]; simpl in Hi |- *.
  - injection Hi as ->. rewrite Hr.
    destruct (in_range a b e); simpl; [now rewrite Hid | reflexivity].
  - destruct (in_range a b x); simpl; [f_equal|]; now apply IH.
Qed.

(** X5. A new event changes a listing only at its end: listing a window
    after [simulate_new_event] gives the listing before the call,
    followed by the new event when it starts in the window. *)
Theorem listing_after_new_event
        (a b now : datetime) (r_days r_kpi : Z) (events : store) :
  list_events a b (snd (simulate_new_event now r_days r_kpi events)) =
  list_events a b events ++
  (if in_range a b (fst (simulate_new_event now r_days r_kpi events))
   then [fst (simulate_new_event now r_days r_kpi events)] else []).
Proof using.
  rewrite !list_events_filter.
  change (snd (simulate_new_event now r_days r_kpi events))
    with (events ++ [fst (simulate_new_event now r_days r_kpi events)]).
  rewrite events_in_range_app. reflexivity.
Qed.

(** X6. An update changes no listing: after [simulate_update_event] every
    window lists the events with the same identifiers, in the same order,
    as before the call. *)
Theorem listing_after_update
        (a b now : datetime) (r_choice : nat) (r_bump : Z) (events : store) :
  evt_id <$> list_events a b (snd (simulate_update_event now r_choice r_bump events)) =
  evt_id <$> list_events a b events.
Proof using.
  rewrite !list_events_filter.
  destruct events as [|e0 rest]; [reflexivity|].
  destruct (simulate_update_event_nonempty now r_choice r_bump (e0 :: rest))
    as (i & e & e' & _ & Hi & Hs & ->); [discriminate|].
  rewrite Hs. cbn [snd]. now apply (events_in_range_insert a b _ i e).
Qed.

Lemma filter_sublist_impl {A : Type} (f g : A -> bool) (l : list A) :
  (forall x, f x = true -> g x = true) ->
  List.filter f l `sublist_of` List.filter g l.
Proof using.
  intros Himp. induction l as [|x rest IH]; simpl; [constructor|].
  destruct (f x) eqn:Hf.
  - rewrite (Himp x Hf). now constructor.
  - destruct (g x); [now constructor | exact IH].
Qed.

(** X7. Listings grow with the window: when [a' <= a] and [b <= b'],
    what [list_events a b] returns is a sublist of what
    [list_events a' b'] returns. *)
Theorem list_events_wider_window (a b a' b' : datetime) (events : store) :
  (a' <= a)%dt -> (b <= b')%dt ->
  list_events a b events `sublist_of` list_events a' b' events.
Proof using.
  intros Ha Hb. rewrite !list_events_filter. unfold events_in_range.
  apply filter_sublist_impl. intros e He.
  apply in_range_spec in He. destruct He as [H1 H2].
  apply in_range_spec. split; eapply dt_le_trans; eauto.
Qed.

(* ===================================================================== *)
(** * The today window on the stores of the program                       *)
(* ===================================================================== *)

Lemma in_today_same_day (day : Z) (e : Event) :
  event_ok e ->
  in_range (mkdatetime day 0 0 0 0) (mkdatetime day 23 59 59 0) e =
  (ordinal (start e) =? day).
Proof using.
  intros (Hh & Hm & Hs & Hu & _).
  apply eq_true_iff_eq. rewrite in_range_spec, Z.eqb_eq, !dt_le_fields.
  cbn [ordinal hour minute second microsecond]. lia.
Qed.

Lemma today_window_by_day (now : datetime) (events : store) :
  Forall event_ok events ->
  events_in_range (mkdatetime (ordinal now) 0 0 0 0)
                  (mkdatetime (ordinal now) 23 59 59 0) events =
  List.filter (same_day now) events.
Proof using.
  intros Hall. unfold events_in_range. apply filter_ext_in.
  intros e He. apply in_today_same_day.
  rewrite Forall_forall in Hall. apply Hall. now apply list_elem_of_In.
Qed.

(** X8. On the stores of the program the today window selects by
    calendar day: with the bounds [interactive_console] and
    [daily_digest] compute, [list_events] returns exactly the stored
    events whose start date is the date of [now], and the [today]
    command prints one line for each of them. *)
Theorem today_lists_by_day (now : datetime) (w : World) :
  reachable (cal w) ->
  list_events (replace_time now 0 0 0 0)
              (dt_add (replace_time now 0 0 0 0) (mk_timedelta 1 0 (-1))) (cal w)
  = List.filter (same_day now) (cal w) /\
  cmd_today now w =
  (Ok tt,
   add_out w
     (line ("Events for today (" ++ str_date (replace_time now 0 0 0 0) ++ "):")
      :: map (fun e => line (format_event e)) (List.filter (same_day now) (cal w)))).
Proof using astimezone str_date strftime.
  intros Hr. pose proof (reachable_event_ok _ Hr) as Hall.
  split.
  - rewrite today_window_end, list_events_filter.
    now apply today_window_by_day.
  - rewrite cmd_today_run, today_window_by_day by exact Hall. reflexivity.
Qed.

(** X9. What the [today] command prints depends on the date only: at two
    times of the same calendar day it has the same effect on the same
    state. *)
Theorem today_same_all_day (now1 now2 : datetime) (w : World) :
  ordinal now1 = ordinal now2 -> cmd_today now1 w = cmd_today now2 w.
Proof using astimezone str_date strftime.
  intros H. rewrite !cmd_today_run, H. reflexivity.
Qed.

Lemma init_explicit (now : datetime) (rnd : nat -> Z) :
  init now rnd =
  [seed_event now 1 (rnd 1%nat); seed_event now 2 (rnd 2%nat);
   seed_event now 3 (rnd 3%nat); seed_event now 4 (rnd 4%nat);
   seed_event now 5 (rnd 5%nat); seed_event now 6 (rnd 6%nat);
   seed_event now 7 (rnd 7%nat); seed_event now 8 (rnd 8%nat);
   seed_event now 9 (rnd 9%nat); seed_event now 10 (rnd 10%nat)].
Proof using. reflexivity. Qed.

Lemma seed_event_start (now : datetime) (i : nat) (r : Z) :
  valid_datetime now ->
  start (seed_event now i r) = mkdatetime (ordinal now + (Z.of_nat i - 1)) 9 0 0 0.
Proof using. intros Hv. apply (seed_event_times now i r Hv). Qed.

(** The seeded events that start on the day [k] days after seeding. *)
Lemma seeded_on_day (now : datetime) (rnd : nat -> Z) (k : Z) :
  valid_datetime now ->
  List.filter (fun e => ordinal (start e) =? ordinal now + k) (init now rnd) =
  if (0 <=? k) && (k <? 10)
  then [seed_event now (S (Z.to_nat k)) (rnd (S (Z.to_nat k)))]
  else [].
Proof using.
  intros Hv. rewrite init_explicit. cbn [List.filter].
  rewrite !seed_event_start by exact Hv. cbn [ordinal Z.of_nat Pos.of_succ_nat Pos.succ].
  assert (Hk : k < 0 \/ k = 0 \/ k = 1 \/ k = 2 \/ k = 3 \/ k = 4 \/ k = 5 \/ k = 6 \/
               k = 7 \/ k = 8 \/ k = 9 \/ 10 <= k) by lia.
  assert (Hrhs : k < 0 \/ 10 <= k ->
                 (if (0 <=? k) && (k <? 10)
                  then [seed_event now (S (Z.to_nat k)) (rnd (S (Z.to_nat k)))]
                  else []) = []).
  { intros H. destruct (Z.leb_spec 0 k); destruct (Z.ltb_spec k 10);
      try reflexivity; exfalso; lia. }
  repeat (destruct Hk as [Hk | Hk]); try subst k;
    repeat match goal with
           | |- context [?x =? ?y] =>
               first [ replace (x =? y) with false by (symmetry; apply Z.eqb_neq; lia)
                     | replace (x =? y) with true by (symmetry; apply Z.eqb_eq; lia) ]
           end;
    first [ reflexivity | rewrite Hrhs by lia; reflexivity ].
Qed.

Lemma init_event_ok (now : datetime) (rnd : nat -> Z) : Forall event_ok (init now rnd).
Proof using.
  rewrite init_events. apply Forall_fmap, Forall_forall.
  intros i _. apply seed_event_ok.
Qed.

(** X10. A freshly seeded store holds exactly one event per day for ten
    days: the daily digest run [k] days after seeding shows exactly the
    seeded event number [k + 1] when [0 <= k < 10], and reports that no
    events are scheduled on every other day. *)
Theorem digest_of_seeded_store
        (now digest_now : datetime) (rnd : nat -> Z) (k : Z) (w : World) :
  valid_datetime now -> cal w = init now rnd ->
  ordinal digest_now = ordinal now + k ->
  daily_digest digest_now w =
  (Ok tt,
   add_out w
     ([line (nl ++ str_mul "=" 40);
       line ("DAILY DIGEST — " ++ strftime digest_now "%Y-%m-%d (%Z) %H:%M")]
      ++ (if (0 <=? k) && (k <? 10)
          then [line (format_event
                        (seed_event now (S (Z.to_nat k)) (rnd (S (Z.to_nat k)))))]
          else [line "No events scheduled for today."])
      ++ [line (str_mul "=" 40 ++ nl)])).
Proof using astimezone strftime.
  intros Hv Hcal Hday. rewrite daily_digest_run, Hcal.
  rewrite (today_window_by_day digest_now) by apply init_event_ok.
  change (List.filter (same_day digest_now) (init now rnd))
    with (List.filter (fun e => ordinal (start e) =? ordinal digest_now) (init now rnd)).
  rewrite Hday, seeded_on_day by exact Hv.
  destruct ((0 <=? k) && (k <? 10)); reflexivity.
Qed.

Lemma dt_leb_day_lt (a b : datetime) : ordinal a < ordinal b -> dt_leb a b = true.
Proof using.
  intros H. unfold dt_leb, dt_compare.
  now rewrite (proj2 (Z.compare_lt_iff _ _) H).
Qed.

Lemma dt_leb_day_gt (a b : datetime) : ordinal b < ordinal a -> dt_leb a b = false.
Proof using.
  intros H. unfold dt_leb, dt_compare.
  now rewrite (proj2 (Z.compare_gt_iff _ _) H).
Qed.

Lemma dt_leb_same_day (d d' h m s us h' m' s' us' : Z) :
  dt_leb (mkdatetime d h m s us) (mkdatetime d h' m' s' us') =
  dt_leb (mkdatetime d' h m s us) (mkdatetime d' h' m' s' us').
Proof using.
  unfold dt_leb, dt_compare; cbn [ordinal hour minute second microsecond].
  now rewrite !Z.compare_refl.
Qed.

Lemma dt_le_antisym (a b : datetime) : (a <= b)%dt -> (b <= a)%dt -> a = b.
Proof using.
  rewrite !dt_le_fields. intros H1 H2. apply datetime_eq; lia.
Qed.

(** X11. Right after seeding, the window of the [week] and [kpi]
    commands, closed at both ends, holds the seeded events 2 to 7, the
    first one when [now] is not after 09:00, and the eighth one when [now]
    is not before 09:00: eight events at 09:00:00 sharp, seven at any
    other time. *)
Theorem week_of_seeded_store (now : datetime) (rnd : nat -> Z) :
  valid_datetime now ->
  let nine := replace_time now 9 0 0 0 in
  let listed := list_events now (dt_add now (mk_timedelta 7 0 0)) (init now rnd) in
  listed =
    (if dt_leb now nine then [seed_event now 1 (rnd 1%nat)] else [])
    ++ [seed_event now 2 (rnd 2%nat); seed_event now 3 (rnd 3%nat);
        seed_event now 4 (rnd 4%nat); seed_event now 5 (rnd 5%nat);
        seed_event now 6 (rnd 6%nat); seed_event now 7 (rnd 7%nat)]
    ++ (if dt_leb nine now then [seed_event now 8 (rnd 8%nat)] else []) /\
  (now = nine -> List.length listed = 8%nat) /\
  (now <> nine -> List.length listed = 7%nat).
Proof using.
  intros Hv nine listed.
  assert (E : listed =
    (if dt_leb now nine then [seed_event now 1 (rnd 1%nat)] else [])
    ++ [seed_event now 2 (rnd 2%nat); seed_event now 3 (rnd 3%nat);
        seed_event now 4 (rnd 4%nat); seed_event now 5 (rnd 5%nat);
        seed_event now 6 (rnd 6%nat); seed_event now 7 (rnd 7%nat)]
    ++ (if dt_leb nine now then [seed_event now 8 (rnd 8%nat)] else [])).
  { unfold listed, nine. rewrite list_events_filter, init_explicit.
    unfold events_in_range. cbn [List.filter]. unfold in_range.
    rewrite !seed_event_start, dt_add_days by exact Hv.
    destruct now as [d h m s us]. unfold replace_time.
    cbn [ordinal hour minute second microsecond].
    repeat match goal with
           | |- context [Z.of_nat ?n - 1] =>
               let v := eval compute in (Z.of_nat n - 1) in
               change (Z.of_nat n - 1) with v
           end.
    rewrite ?Z.add_0_r.
    rewrite (dt_leb_same_day (d + 7) d 9 0 0 0 h m s us).
    repeat match goal with
           | |- context [dt_leb ?x ?y] =>
               first [ replace (dt_leb x y) with true
                         by (symmetry; apply dt_leb_day_lt; cbn [ordinal]; lia)
                     | replace (dt_leb x y) with false
                         by (symmetry; apply dt_leb_day_gt; cbn [ordinal]; lia) ]
           end.
    destruct (dt_leb {| ordinal := d; hour := h; minute := m; second := s;
                        microsecond := us |}
                     {| ordinal := d; hour := 9; minute := 0; second := 0;
                        microsecond := 0 |});
      destruct (dt_leb {| ordinal := d; hour := 9; minute := 0; second := 0;
                          microsecond := 0 |}
                       {| ordinal := d; hour := h; minute := m; second := s;
                          microsecond := us |});
      reflexivity. }
  split; [exact E|]. rewrite E. split.
  - intros Hn. rewrite <- Hn.
    replace (dt_leb now now) with true by (symmetry; apply dt_le_refl).
    reflexivity.
  - intros Hn.
    destruct (dt_leb now nine) eqn:H1; destruct (dt_leb nine now) eqn:H2.
    + exfalso. apply Hn. now apply dt_le_antisym.
    + reflexivity.
    + reflexivity.
    + exfalso. destruct (dt_le_total now nine) as [H | H];
        unfold dt_le in H; congruence.
Qed.

(* ===================================================================== *)
(** * The console session                                                 *)
(* ===================================================================== *)

Lemma console_body_exit (now : datetime) (cmd : string) (w : World) :
  cmd = "exit" \/ cmd = "quit" ->
  console_body now cmd w = (Ok Break, add_out w [line "Goodbye."]).
Proof using. intros [-> | ->]; reflexivity. Qed.

Lemma console_loop_exit (i : console_input) (rest : list console_input) (w : World) :
  lower (strip (in_line i)) = "exit" \/ lower (strip (in_line i)) = "quit" ->
  console_loop (i :: rest) w = (Ok tt, add_out w ["> "; line "Goodbye."]).
Proof using.
  intros H. rewrite console_loop_cons.
  rewrite (bind_run _ _ _ _ _ (write_run _ _)).
  rewrite (bind_run _ _ _ _ _ (console_body_exit _ _ _ H)).
  unfold ret. now rewrite add_out_app.
Qed.

(** X12. The session ends at the first [exit] or [quit]: that line is
    answered with the farewell, and no later line of the input is read or
    run, whatever it is. *)
Theorem console_stops_at_exit
        (before : list console_input) (i : console_input)
        (rest : list console_input) (w : World) :
  lower (strip (in_line i)) = "exit" \/ lower (strip (in_line i)) = "quit" ->
  console_loop (i :: rest) w = (Ok tt, add_out w ["> "; line "Goodbye."]) /\
  console_loop (before ++ i :: rest) w = console_loop (before ++ [i]) w.
Proof using.
  intros H. split; [now apply console_loop_exit|].
  revert w. induction before as [|p before IH]; intros w.
  - cbn [app]. now rewrite !console_loop_exit.
  - cbn [app]. rewrite !console_loop_cons. unfold bind.
    destruct (write "> " w) as [[[] | e |] w1]; try reflexivity.
    destruct (console_body _ _ w1) as [[[|] | e |] w2]; try reflexivity.
    apply IH.
Qed.

Lemma lstrip_all_space (ws : string) : all_space ws = true -> lstrip ws = EmptyString.
Proof using.
  induction ws as [|c ws IH]; simpl; [reflexivity|].
  intros H. apply andb_true_iff in H. destruct H as [Hc Hws].
  rewrite Hc. auto.
Qed.

Lemma rstrip_all_space (ws : string) : all_space ws = true -> rstrip ws = EmptyString.
Proof using.
  induction ws as [|c ws IH]; simpl; [reflexivity|].
  intros H. apply andb_true_iff in H. destruct H as [Hc Hws].
  rewrite (IH Hws), Hc. reflexivity.
Qed.

Lemma lstrip_space_app (ws s : string) :
  all_space ws = true -> lstrip (ws ++ s) = lstrip s.
Proof using.
  induction ws as [|c ws IH]; simpl; [reflexivity|].
  intros H. apply andb_true_iff in H. destruct H as [Hc Hws].
  rewrite Hc. auto.
Qed.

Lemma rstrip_app_space (s ws : string) :
  all_space ws = true -> rstrip (s ++ ws) = rstrip s.
Proof using.
  intros H. induction s as [|c s IH]; simpl.
  - now apply rstrip_all_space.
  - now rewrite IH.
Qed.

Lemma lstrip_app (s ws : string) :
  all_space ws = true ->
  lstrip (s ++ ws) = if all_space s then EmptyString else (lstrip s ++ ws)%string.
Proof using.
  intros H. induction s as [|c s IH]; simpl.
  - now apply lstrip_all_space.
  - destruct (is_space c); simpl; [exact IH | reflexivity].
Qed.

Lemma strip_padding (ws1 s ws2 : string) :
  all_space ws1 = true -> all_space ws2 = true ->
  strip (ws1 ++ s ++ ws2) = strip s.
Proof using.
  intros H1 H2. unfold strip.
  rewrite lstrip_space_app by exact H1. rewrite lstrip_app by exact H2.
  destruct (all_space s) eqn:Hs.
  - now rewrite lstrip_all_space.
  - now apply rstrip_app_space.
Qed.

Lemma console_body_empty (now : datetime) (w : World) :
  console_body now EmptyString w = (Ok Continue, w).
Proof using. reflexivity. Qed.

(** X13. White space around a line does not matter to the console: a line
    padded with spaces, tabs or other white space is handled exactly like
    the line itself, and a line of white space only is skipped, the
    console just prompting again. *)
Theorem console_ignores_white_space
        (ws1 ws2 l : string) (now : datetime)
        (rest : list console_input) (w : World) :
  all_space ws1 = true -> all_space ws2 = true ->
  console_loop (mkInput (ws1 ++ l ++ ws2) now :: rest) w =
    console_loop (mkInput l now :: rest) w /\
  (all_space l = true ->
   console_loop (mkInput l now :: rest) w = console_loop rest (add_out w ["> "])).
Proof using.
  intros H1 H2. split.
  - rewrite !console_loop_cons. cbn [in_line in_now].
    now rewrite strip_padding.
  - intros Hl. rewrite console_loop_cons. cbn [in_line in_now].
    unfold strip. rewrite lstrip_all_space by exact Hl. cbn [rstrip lower].
    rewrite (bind_run _ _ _ _ _ (write_run _ _)).
    now rewrite (bind_run _ _ _ _ _ (console_body_empty _ _)).
Qed.

(* ===================================================================== *)
(** * The alert rounds and the store                                      *)
(* ===================================================================== *)

Lemma alert_count_app (a b : list string) :
  alert_count (a ++ b) = (alert_count a + alert_count b)%nat.
Proof using. unfold alert_count. now rewrite List.filter_app, length_app. Qed.

Lemma alert_count_event_lines (events : list Event) :
  alert_count (map (fun e => line (format_event e)) events) = 0%nat.
Proof using. induction events as [|e rest IH]; [reflexivity | exact IH]. Qed.

Lemma run_ops_app (ops1 ops2 : list store_op) (events : store) :
  run_ops (ops1 ++ ops2) events = run_ops ops2 (run_ops ops1 events).
Proof using. unfold run_ops. apply fold_left_app. Qed.

Lemma reachable_run_ops (ops : list store_op) (events : store) :
  reachable events -> reachable (run_ops ops events).
Proof using.
  intros (now & rnd & ops0 & ->). exists now, rnd, (ops0 ++ ops).
  now rewrite run_ops_app.
Qed.

(** One round of the alert loop makes the store call of the round, and
    announces it unless the store was empty and an update was drawn. *)
Lemma demo_round_effect (env : round_env) (w : World) :
  exists out,
    demo_round env w =
    (Ok tt, {| cal := apply_op (op_of_round env) (cal w);
               stdout := stdout w ++ out;
               clock := (clock w + (env_uniform env + env_late env))%Q |}) /\
    alert_count out =
      (if env_coin env then 1 else match cal w with [] => 0 | _ => 1 end)%nat.
Proof using.
  unfold demo_round, op_of_round, bind at 1, time_sleep.
  destruct (env_coin env).
  - unfold bind at 1, cal_call; cbn [cal stdout clock apply_op].
    destruct (simulate_new_event _ _ _ (cal w)) as [evt evs].
    rewrite realtime_alert_run. unfold add_out; cbn [cal stdout clock snd].
    eexists. split; reflexivity.
  - unfold bind at 1, cal_call; cbn [cal stdout clock apply_op].
    destruct (cal w) as [|e0 rest] eqn:Hcal.
    + cbn [simulate_update_event snd]. exists []. rewrite app_nil_r.
      split; reflexivity.
    + destruct (simulate_update_event_nonempty (env_now env) (env_r_choice env)
                  (env_r_bump env) (e0 :: rest))
        as (i & e & e' & _ & _ & Hs & _); [discriminate|].
      rewrite Hs. cbn [snd].
      rewrite realtime_alert_run. unfold add_out; cbn [cal stdout clock].
      eexists. split; reflexivity.
Qed.

Lemma apply_op_nonempty (o : store_op) (events : store) :
  events <> [] -> apply_op o events <> [].
Proof using.
  intros Hne Hnil. pose proof (apply_op_length o events) as Hlen.
  rewrite Hnil in Hlen. destruct events; [congruence | simpl in Hlen; lia].
Qed.

(** A sequence of rounds makes the store calls of the rounds in order. *)
Lemma demo_rounds_effect (rounds : list round_env) (w : World) :
  exists w' out,
    for_each rounds demo_round w = (Ok tt, w') /\
    cal w' = run_ops (op_of_round <$> rounds) (cal w) /\
    stdout w' = stdout w ++ out /\
    (cal w <> [] -> alert_count out = List.length rounds).
Proof using.
  revert w. induction rounds as [|env rest IH]; intros w.
  - exists w, []. rewrite app_nil_r. cbn. auto.
  - destruct (demo_round_effect env w) as (out1 & Hround & Hcount1).
    set (w1 := {| cal := apply_op (op_of_round env) (cal w);
                  stdout := stdout w ++ out1;
                  clock := (clock w + (env_uniform env + env_late env))%Q |}) in *.
    destruct (IH w1) as (w' & out2 & Hrun & Hcal & Hout & Hcount2).
    exists w', (out1 ++ out2). cbn [for_each].
    rewrite (bind_run _ _ _ _ _ Hround).
    split; [exact Hrun|]. split; [exact Hcal|].
    split; [rewrite Hout; cbn [stdout w1]; now rewrite app_assoc|].
    intros Hne. rewrite alert_count_app, Hcount1, Hcount2.
    + cbn [List.length]. destruct (env_coin env); [reflexivity|].
      destruct (cal w); [congruence | reflexivity].
    + cbn [cal w1]. now apply apply_op_nonempty.
Qed.

(** X14. In demo mode the store after the run is the store before it
    with the store calls of the rounds applied in order, so a store the
    program can hold stays one; on a non-empty store every round
    announces exactly one alert, so the output shows as many alerts as
    rounds were run. *)
Theorem run_demo_store_and_alerts
        (duration : Z) (late_max : Q) (digest_now : datetime)
        (envs : list round_env) (w : World) :
  Forall (round_ok late_max) envs ->
  duration <= 2 * Z.of_nat (List.length envs) ->
  exists (rounds : nat) (w' : World),
    run_demo duration digest_now envs w = (Ok tt, w') /\
    (rounds <= List.length envs)%nat /\
    cal w' = run_ops (op_of_round <$> firstn rounds envs) (cal w) /\
    (reachable (cal w) -> reachable (cal w')) /\
    (cal w <> [] ->
     alert_count (stdout w') = (alert_count (stdout w) + rounds)%nat).
Proof using.
  intros Hok Hfuel. unfold run_demo.
  rewrite (bind_run _ _ _ _ _ (print_run _ w)).
  rewrite (bind_run _ _ _ _ _ (daily_digest_run digest_now _)).
  rewrite add_out_app.
  match goal with
  | |- context [add_out w ?written] => set (out0 := written)
  end.
  assert (Hout0 : alert_count out0 = 0%nat).
  { unfold out0. rewrite !alert_count_app.
    destruct (events_in_range _ _ _) as [|e rest]; [reflexivity|].
    now rewrite (alert_count_event_lines (e :: rest)). }
  set (w2 := add_out w out0).
  unfold bind at 1, time_time. change (clock w2) with (clock w).
  destruct (demo_loop_run late_max (clock w) duration envs Hok w2)
    as (n & w3 & out & Hrun & Hseq & _ & _ & _ & Hn).
  { change (clock w2) with (clock w).
    assert (H : (inject_Z duration <= inject_Z (2 * Z.of_nat (List.length envs)))%Q)
      by (rewrite <- Zle_Qle; exact Hfuel).
    rewrite inject_Z_mult in H. change (inject_Z 2) with 2%Q in H. lra. }
  destruct (demo_rounds_effect (firstn n envs) w2)
    as (w3' & out' & Hrun' & Hcal & Hout & Hcount).
  assert (w3' = w3) as -> by congruence.
  exists n, (add_out w3 [line "Demo finished. Exiting."]).
  rewrite (bind_run _ _ _ _ _ Hrun), print_run.
  split; [reflexivity|]. cbn [cal add_out].
  assert (Hle : (n <= List.length envs)%nat).
  {
    destruct Hn as [[-> _] | [Hn _]]; [lia|].
    change (clock w2) with (clock w) in Hn.
    assert (Hq : (inject_Z (Z.of_nat n) < inject_Z (Z.of_nat (List.length envs)) + 1)%Q).
    { assert (H : (inject_Z duration <= inject_Z (2 * Z.of_nat (List.length envs)))%Q)
        by (rewrite <- Zle_Qle; exact Hfuel).
      rewrite inject_Z_mult in H. change (inject_Z 2) with 2%Q in H. lra. }
    change 1%Q with (inject_Z 1) in Hq.
    rewrite <- inject_Z_plus, <- Zlt_Qlt in Hq. lia. }
  split; [exact Hle|].
  split; [exact Hcal|].
  split; [intros Hr; rewrite Hcal; now apply reachable_run_ops|].
  intros Hne. specialize (Hcount Hne).
  assert (Hlen : List.length (firstn n envs) = n) by now apply firstn_length_le.
  cbn [stdout add_out]. rewrite Hout. cbn [stdout add_out w2].
  rewrite !alert_count_app, Hout0, Hcount, Hlen.
  change (alert_count [line "Demo finished. Exiting."]) with 0%nat. lia.
Qed.

Lemma alert_worker_run (obs : list (bool * round_env)) (w : World) :
  existsb fst obs = true ->
  alert_worker obs w = for_each (rounds_before_stop obs) demo_round w.
Proof using.
  revert w. induction obs as [|[is_set env] rest IH]; intros w H; [discriminate H|].
  cbn [existsb fst] in H. cbn [alert_worker rounds_before_stop].
  destruct is_set; [reflexivity|]. cbn [orb] in H. cbn [for_each].
  unfold bind. destruct (demo_round env w) as [[[] | e |] w1]; try reflexivity.
  now apply IH.
Qed.

(** X15. The worker of [start_alert_simulator] stops cooperatively: once
    it reads the stop flag as set it returns, having run in full exactly
    the rounds whose flag reading came before, and nothing of what would
    come after; the store it leaves is the store it found with the calls
    of those rounds applied in order, and stays a store the program can
    hold. *)
Theorem alert_worker_stops (obs : list (bool * round_env)) (w : World) :
  existsb fst obs = true ->
  exists w',
    alert_worker obs w = (Ok tt, w') /\
    cal w' = run_ops (op_of_round <$> rounds_before_stop obs) (cal w) /\
    (List.length (cal w) <= List.length (cal w'))%nat /\
    (reachable (cal w) -> reachable (cal w')) /\
    (forall later, alert_worker (obs ++ later) w = alert_worker obs w).
Proof using.
  intros H.
  destruct (demo_rounds_effect (rounds_before_stop obs) w)
    as (w' & out & Hrun & Hcal & _ & _).
  exists w'. rewrite alert_worker_run by exact H.
  split; [exact Hrun|]. split; [exact Hcal|].
  split.
  { rewrite Hcal. generalize (op_of_round <$> rounds_before_stop obs) (cal w).
    intros ops. induction ops as [|o ops IH]; intros evs; [reflexivity|].
    change (run_ops (o :: ops) evs) with (run_ops ops (apply_op o evs)).
    pose proof (apply_op_length o evs). specialize (IH (apply_op o evs)). lia. }
  split; [intros Hr; rewrite Hcal; now apply reachable_run_ops|].
  intros later. rewrite alert_worker_run.
  - f_equal. clear -H. induction obs as [|[is_set env] rest IH]; [discriminate H|].
    cbn [app rounds_before_stop]. destruct is_set; [reflexivity|].
    cbn [existsb fst orb] in H. now rewrite IH.
  - rewrite existsb_app, H. reflexivity.
Qed.

(* ===================================================================== *)
(** * Estimates, constructors and the outcome of a session                *)
(* ===================================================================== *)

Lemma sum_kpi_lower_bound (events : list Event) :
  Forall event_ok events -> 5 * Z.of_nat (List.length events) <= sum_kpi events.
Proof using.
  intros Hall. unfold sum_kpi. rewrite sum_kpi_from.
  induction Hall as [|e rest He Hrest IH]; [simpl; lia|].
  destruct He as (_ & _ & _ & _ & _ & k & Hk & Hk5).
  cbn [map fold_right List.length]. unfold get_kpi_estimate at 1. rewrite Hk. lia.
Qed.

(** X16. On the stores of the program the total the [kpi] command
    reports is at least 5 per listed event (whatever window is listed),
    hence never negative and positive as soon as an event is listed. *)
Theorem kpi_total_lower_bound (a b : datetime) (events : store) :
  reachable events ->
  5 * Z.of_nat (List.length (list_events a b events)) <= sum_kpi (list_events a b events).
Proof using.
  intros Hr. apply sum_kpi_lower_bound.
  rewrite list_events_filter. unfold events_in_range.
  pose proof (reachable_event_ok events Hr) as Hall.
  rewrite Forall_forall in Hall |- *. intros e He.
  apply Hall. apply list_elem_of_In. apply list_elem_of_In in He.
  apply filter_In in He. exact (proj1 He).
Qed.

(** X17. Every seeded event is known in full: the event at position [k]
    is "Mock Event k+1" with identifier "evt-k+1"; on the day [k] days
    after seeding it starts at 09:00 and ends at 10:00; its [updated]
    stamp is 08:00 of that day, one hour before its start; its estimate
    lies in 10..200. *)
Theorem seeded_event_fields (now : datetime) (rnd : nat -> Z) (k : nat) :
  valid_datetime now -> (k < 10)%nat ->
  exists v,
    10 <= v <= 200 /\
    init now rnd !! k =
    Some {| evt_id := ("evt-" ++ str_nat (S k))%string;
            summary := ("Mock Event " ++ str_nat (S k))%string;
            start := mkdatetime (ordinal now + Z.of_nat k) 9 0 0 0;
            end_ := mkdatetime (ordinal now + Z.of_nat k) 10 0 0 0;
            updated := mkdatetime (ordinal now + Z.of_nat k) 8 0 0 0;
            kpi_estimate := Some v |}.
Proof using.
  intros Hv Hk. exists (randint 10 200 (rnd (S k))).
  split; [apply randint_range; lia|].
  rewrite init_lookup by exact Hk. f_equal.
  destruct (seed_event_times now (S k) (rnd (S k)) Hv) as (Hs & He & Hu).
  replace (ordinal now + (Z.of_nat (S k) - 1)) with (ordinal now + Z.of_nat k)
    in Hs, He, Hu by lia.
  rewrite <- Hs, <- He, <- Hu. reflexivity.
Qed.

(** X18. The event [simulate_new_event] builds on a store of [n] events
    is "Simulated Event n+1" with identifier "evt-n+1"; it starts at
    10:00 and ends at 11:00 of a day from today to five days ahead, its
    [updated] stamp is the time of the call, and its estimate lies in
    5..300. *)
Theorem new_event_fields (now : datetime) (r_days r_kpi : Z) (events : store) :
  valid_datetime now ->
  exists d v,
    0 <= d <= 5 /\ 5 <= v <= 300 /\
    fst (simulate_new_event now r_days r_kpi events) =
    {| evt_id := ("evt-" ++ str_nat (S (List.length events)))%string;
       summary := ("Simulated Event " ++ str_nat (S (List.length events)))%string;
       start := mkdatetime (ordinal now + d) 10 0 0 0;
       end_ := mkdatetime (ordinal now + d) 11 0 0 0;
       updated := now;
       kpi_estimate := Some v |}.
Proof using.
  intros Hv. exists (randint 0 5 r_days), (randint 5 300 r_kpi).
  split; [apply randint_range; lia|]. split; [apply randint_range; lia|].
  unfold simulate_new_event. cbn [fst].
  rewrite dt_add_days by exact Hv. unfold replace_time. cbn [ordinal].
  rewrite hour_later by lia. rewrite Nat.add_1_r. reflexivity.
Qed.

End BotLogic.

(* ===================================================================== *)
(** * The theorems at the sample inputs                                   *)
(* ===================================================================== *)

Import MockCalendar.

Lemma list_events_exact_witness :
  (sample_now < sample_later)%dt /\
  list_events sample_later sample_now sample_store = [].
Proof.
  split; [reflexivity|].
  apply (proj2 (proj2 (proj2 (list_events_exact sample_later sample_now sample_store)))).
  reflexivity.
Defined.

Lemma updated_monotone_once_not_ahead_witness :
  exists e e',
    run_ops sample_history sample_store !! 10%nat = Some e /\
    run_ops (sample_history ++ [sample_update_new]) sample_store !! 10%nat = Some e' /\
    (updated e <= updated e')%dt /\ updated e' = sample_latest.
Proof.
  do 2 eexists. split; [reflexivity|]. split; [reflexivity|].
  destruct (updated_monotone_once_not_ahead sample_now sample_rnd sample_history
              sample_update_new 10 _ _
              (conj eq_refl (conj eq_refl I)) eq_refl eq_refl
              (or_introl (le_n 10))) as (H1 & _ & _).
  split; [exact H1 | reflexivity].
Defined.

Lemma simulate_update_event_correct_witness :
  simulate_update_event sample_later 1 0 [] = (None, []) /\
  exists i e e',
    (i < List.length sample_store)%nat /\ sample_store !! i = Some e /\
    simulate_update_event sample_later 1 0 sample_store
      = (Some e', <[i := e']> sample_store) /\
    updated e' = sample_later.
Proof.
  split.
  - apply (proj1 (simulate_update_event_correct sample_later 1 0 [])). reflexivity.
  - destruct (proj2 (simulate_update_event_correct sample_later 1 0 sample_store))
      as (i & e & e' & H1 & H2 & H3 & _ & H4 & _); [discriminate|].
    exists i, e, e'. auto.
Defined.

Lemma seed_events_ten_days_witness :
  valid_datetime sample_now /\
  List.length (init sample_now sample_rnd) = 10%nat /\
  forall k, (k < 10)%nat ->
    exists e, init sample_now sample_rnd !! k = Some e /\
              ordinal (start e) = ordinal sample_now + Z.of_nat k /\
              (start e < end_ e)%dt /\
              dt_diff (end_ e) (start e) = mk_timedelta 0 1 0.
Proof.
  assert (H : valid_datetime sample_now) by (unfold valid_datetime; simpl; lia).
  split; [exact H|]. apply (seed_events_ten_days sample_now sample_rnd H).
Defined.

Lemma kpi_command_report_witness :
  map kpi_estimate
    (events_in_range sample_now (dt_add sample_now (mk_timedelta 7 0 0))
       (cal sample_world)) = [Some 10; Some 20; Some 30] /\
  cmd_kpi sample_now sample_world =
  (Ok tt, add_out sample_world
            [line "KPI Summary (next 7 days):"; line "  Events: 3";
             line "  Total KPI est: 60"; line "  Average KPI est: 20.0"]) /\
  int_truediv 61 3 = inr (S754_finite false 5723324526450005 (-48)) /\
  cmd_kpi sample_now sample_uneven_world =
  (Ok tt, add_out sample_uneven_world
            [line "KPI Summary (next 7 days):"; line "  Events: 3";
             line "  Total KPI est: 61"; line "  Average KPI est: 20.3"]) /\
  (Qabs (inject_Z 5723324526450005 * pow2 (-48) - 61 / 3) <= pow2 (-49))%Q /\
  (Qabs (203 * (1 # 10) - 61 / 3) <= (1 # 20) + pow2 (-49))%Q.
Proof.
  split; [reflexivity|]. split.
  { apply (proj1 (proj2 (proj2 (proj2 (kpi_command_report sample_now sample_world))))).
    reflexivity. }
  split; [reflexivity|].
  pose proof (kpi_command_report sample_now sample_uneven_world)
    as (_ & _ & Hrep & _ & _ & Hnear & Hten & _).
  split; [|split].
  - apply (Hrep (S754_finite false 5723324526450005 (-48))); [discriminate | reflexivity].
  - destruct (Hnear (S754_finite false 5723324526450005 (-48)) eq_refl) as (_ & H & _).
    cbn [float_value half_ulp] in H. rewrite Qmult_1_l in H. exact H.
  - destruct (Hten false 5723324526450005%positive (-48) eq_refl) as (_ & H & _).
    rewrite Qmult_1_l in H. exact H.
Defined.

Lemma today_window_boundaries_witness :
  In sample_last_second
     (events_in_range (mkdatetime 739923 0 0 0 0) (mkdatetime 739923 23 59 59 0)
        (cal sample_world)) /\
  ~ In sample_midnight
     (events_in_range (mkdatetime 739923 0 0 0 0) (mkdatetime 739923 23 59 59 0)
        (cal sample_world)).
Proof.
  pose proof (today_window_boundaries sample_strftime sample_astimezone
                sample_str_date sample_now sample_world) as (_ & _ & Hin & Hout).
  split.
  - apply Hin; [left; reflexivity | reflexivity].
  - apply Hout. reflexivity.
Defined.

Lemma simulate_new_event_correct_witness :
  reachable sample_store /\ valid_datetime sample_later /\
  exists evt,
    simulate_new_event sample_later 2 7 sample_store = (evt, sample_store ++ [evt]) /\
    (forall e, In e sample_store -> evt_id e <> evt_id evt).
Proof.
  assert (Hr : reachable sample_store)
    by (exists sample_now, sample_rnd, []; reflexivity).
  assert (Hv : valid_datetime sample_later) by (unfold valid_datetime; simpl; lia).
  split; [exact Hr|]. split; [exact Hv|].
  destruct (simulate_new_event_correct sample_later 2 7 sample_store Hr Hv)
    as (evt & H1 & _ & _ & H2 & _).
  exists evt. auto.
Defined.

Lemma readers_leave_store_unchanged_witness :
  known_command "weather" = false /\
  console_body sample_strftime sample_astimezone sample_str_date
    sample_now "weather" sample_world =
  (Ok Continue,
   add_out sample_world
     [line ("Unknown command. Type " ++ dquote ++ "help" ++ dquote ++ ".")]).
Proof.
  split; [reflexivity|].
  apply (readers_leave_store_unchanged sample_strftime sample_astimezone
           sample_str_date None).
  reflexivity.
Defined.

Lemma run_demo_terminates_witness :
  exists (rounds : nat) (w' : World),
    run_demo sample_strftime sample_astimezone 30 sample_now
      (repeat sample_round 15) sample_world = (Ok tt, w') /\
    2 * Z.of_nat rounds < 30 + 2 /\
    digest_count (stdout w') = 1%nat.
Proof.
  destruct (run_demo_terminates sample_strftime sample_astimezone 30 0 sample_now
              (repeat sample_round 15) sample_world)
    as (rounds & w' & alerts & H1 & _ & H2 & _ & _ & H3 & _).
  - lia.
  - unfold Qle; simpl; lia.
  - repeat (constructor; [unfold round_ok, Qle; simpl; lia|]). constructor.
  - simpl; lia.
  - exists rounds, w'. auto.
Defined.

Lemma week_and_kpi_same_events_witness :
  exists total average,
    snd (cmd_kpi sample_now sample_world) =
    add_out sample_world
      [line "KPI Summary (next 7 days):"; line "  Events: 3"; total; average].
Proof.
  apply (proj2 (proj2 (proj2 (week_and_kpi_same_events sample_strftime
           sample_astimezone sample_str_date sample_now sample_world)))).
  reflexivity.
Defined.

Lemma sample_store_reachable : reachable sample_store.
Proof. exists sample_now, sample_rnd, []. reflexivity. Defined.

Lemma sample_times_valid : valid_datetime sample_now /\ valid_datetime sample_later.
Proof. unfold valid_datetime; simpl; lia. Defined.

Lemma reachable_events_well_formed_witness :
  sample_store !! 1%nat = Some (seed_event sample_now 2 (sample_rnd 2)) /\
  evt_id (seed_event sample_now 2 (sample_rnd 2)) = "evt-2" /\
  (start (seed_event sample_now 2 (sample_rnd 2))
   < end_ (seed_event sample_now 2 (sample_rnd 2)))%dt.
Proof.
  split; [reflexivity|].
  destruct (reachable_events_well_formed sample_store 1
              (seed_event sample_now 2 (sample_rnd 2))
              sample_store_reachable eq_refl) as (H1 & _ & H2 & _).
  split; [exact H1 | exact H2].
Defined.

Lemma history_keeps_events_witness :
  List.length (run_ops sample_history sample_store) = 11%nat /\
  exists e', run_ops sample_history sample_store !! 0%nat = Some e' /\
             same_identity (seed_event sample_now 1 (sample_rnd 1)) e'.
Proof.
  destruct (history_keeps_events sample_history sample_store) as [Hlen Hkeep].
  split; [exact Hlen|].
  destruct (Hkeep 0%nat (seed_event sample_now 1 (sample_rnd 1)) eq_refl)
    as (e' & H1 & H2 & _).
  exists e'. auto.
Defined.

Lemma update_finds_an_event_witness :
  exists e', fst (simulate_update_event sample_later 1 0 sample_store) = Some e'.
Proof.
  destruct (update_finds_an_event sample_later 1 0 sample_store sample_store_reachable)
    as (_ & i & e & e' & _ & Hs & _).
  exists e'. now rewrite Hs.
Defined.

Lemma reachable_ids_unique_witness : NoDup (evt_id <$> sample_store).
Proof. exact (reachable_ids_unique sample_store sample_store_reachable). Defined.

Lemma list_events_wider_window_witness :
  (sample_now <= sample_from)%dt /\ (sample_until <= sample_week_end)%dt /\
  List.length (list_events sample_from sample_until sample_store) = 3%nat /\
  List.length (list_events sample_now sample_week_end sample_store) = 7%nat /\
  list_events sample_from sample_until sample_store
    `sublist_of` list_events sample_now sample_week_end sample_store.
Proof.
  split; [reflexivity|]. split; [reflexivity|].
  split; [reflexivity|]. split; [reflexivity|].
  apply (list_events_wider_window sample_from sample_until sample_now sample_week_end
           sample_store); reflexivity.
Defined.

Lemma today_lists_by_day_witness :
  list_events (replace_time sample_later 0 0 0 0)
    (dt_add (replace_time sample_later 0 0 0 0) (mk_timedelta 1 0 (-1)))
    (cal sample_seeded_world)
  = List.filter (same_day sample_later) (cal sample_seeded_world).
Proof.
  apply (today_lists_by_day sample_strftime sample_astimezone sample_str_date
           sample_later sample_seeded_world).
  exact sample_store_reachable.
Defined.

Lemma today_same_all_day_witness :
  cmd_today sample_strftime sample_astimezone sample_str_date sample_now sample_world =
  cmd_today sample_strftime sample_astimezone sample_str_date sample_later sample_world.
Proof.
  apply (today_same_all_day sample_strftime sample_astimezone sample_str_date
           sample_now sample_later sample_world).
  reflexivity.
Defined.

Lemma digest_of_seeded_store_witness :
  exists out,
    daily_digest sample_strftime sample_astimezone sample_later sample_seeded_world =
    (Ok tt, add_out sample_seeded_world out) /\
    List.length out = 4%nat.
Proof.
  eexists. split.
  - apply (digest_of_seeded_store sample_strftime sample_astimezone sample_now
             sample_later sample_rnd 0 sample_seeded_world).
    + exact (proj1 sample_times_valid).
    + reflexivity.
    + reflexivity.
  - reflexivity.
Defined.

Lemma week_of_seeded_store_witness :
  List.length (list_events sample_now (dt_add sample_now (mk_timedelta 7 0 0))
                 (init sample_now sample_rnd)) = 7%nat.
Proof.
  apply (week_of_seeded_store sample_now sample_rnd (proj1 sample_times_valid)).
  discriminate.
Defined.

Lemma console_stops_at_exit_witness :
  console_loop sample_strftime sample_astimezone sample_str_date
    sample_session sample_world =
  console_loop sample_strftime sample_astimezone sample_str_date
    [mkInput "help" sample_now; mkInput " Quit " sample_now] sample_world.
Proof.
  apply (console_stops_at_exit sample_strftime sample_astimezone sample_str_date
           [mkInput "help" sample_now] (mkInput " Quit " sample_now)
           [mkInput "kpi" sample_now] sample_world).
  right. reflexivity.
Defined.

Lemma console_ignores_white_space_witness :
  console_loop sample_strftime sample_astimezone sample_str_date
    [mkInput ("  " ++ "KPI" ++ " ") sample_now] sample_world =
  console_loop sample_strftime sample_astimezone sample_str_date
    [mkInput "KPI" sample_now] sample_world.
Proof.
  apply (console_ignores_white_space sample_strftime sample_astimezone sample_str_date
           "  " " " "KPI" sample_now [] sample_world); reflexivity.
Defined.

Lemma run_demo_store_and_alerts_witness :
  exists (rounds : nat) (w' : World),
    run_demo sample_strftime sample_astimezone 30 sample_now
      (repeat sample_round 15) sample_seeded_world = (Ok tt, w') /\
    alert_count (stdout w') = rounds /\ reachable (cal w').
Proof.
  destruct (run_demo_store_and_alerts sample_strftime sample_astimezone 30 0 sample_now
              (repeat sample_round 15) sample_seeded_world)
    as (rounds & w' & H1 & _ & _ & H2 & H3).
  - repeat (constructor; [unfold round_ok, Qle; simpl; lia|]). constructor.
  - simpl; lia.
  - exists rounds, w'. split; [exact H1|]. split.
    + apply H3. discriminate.
    + apply H2. exact sample_store_reachable.
Defined.

Lemma alert_worker_stops_witness :
  exists w',
    alert_worker sample_strftime sample_astimezone sample_observations
      sample_seeded_world = (Ok tt, w') /\
    List.length (cal w') = 11%nat.
Proof.
  destruct (alert_worker_stops sample_strftime sample_astimezone sample_observations
              sample_seeded_world eq_refl) as (w' & H1 & H2 & _).
  exists w'. split; [exact H1|]. rewrite H2. reflexivity.
Defined.

Lemma kpi_total_lower_bound_witness :
  List.length (list_events sample_from sample_until sample_store) = 3%nat /\
  sum_kpi (list_events sample_from sample_until sample_store) = 363 /\
  5 * Z.of_nat (List.length (list_events sample_from sample_until sample_store))
  <= sum_kpi (list_events sample_from sample_until sample_store).
Proof.
  split; [reflexivity|]. split; [reflexivity|].
  exact (kpi_total_lower_bound sample_from sample_until sample_store
           sample_store_reachable).
Defined.

Lemma seeded_event_fields_witness :
  exists v,
    10 <= v <= 200 /\
    init sample_now sample_rnd !! 3%nat =
    Some {| evt_id := "evt-4"; summary := "Mock Event 4";
            start := mkdatetime 739926 9 0 0 0;
            end_ := mkdatetime 739926 10 0 0 0;
            updated := mkdatetime 739926 8 0 0 0;
            kpi_estimate := Some v |}.
Proof.
  apply (seeded_event_fields sample_now sample_rnd 3 (proj1 sample_times_valid)).
  lia.
Defined.

Lemma new_event_fields_witness :
  exists d v,
    0 <= d <= 5 /\ 5 <= v <= 300 /\
    fst (simulate_new_event sample_later 2 7 sample_store) =
    {| evt_id := "evt-11"; summary := "Simulated Event 11";
       start := mkdatetime (739923 + d) 10 0 0 0;
       end_ := mkdatetime (739923 + d) 11 0 0 0;
       updated := sample_later;
       kpi_estimate := Some v |}.
Proof.
  exact (new_event_fields sample_later 2 7 sample_store (proj2 sample_times_valid)).
Defined.
